(** * Blossom: the generative tree sketch

    A shallow embedding of the particle life cycle and of the hand-gesture
    handler of the sketch, in its two revisions:

    - [Tree]  : src/components/GenerativeTree.tsx (wand, magnify gesture,
                interpolated painting);
    - [Tree0] : src/unnamed/part_000 (velocity threshold, flowers that stop
                updating once grown).

    Numbers are exact rationals ([Q]): IEEE rounding is not modelled.  The one
    place where the control flow of the sketch depends on a NaN (the division
    [s/steps] with [steps = 0] in the painting loop) is written out.  Q's
    division by zero yields 0 where JavaScript yields an infinity; in the
    sketch only the direction jitter of a particle with [lifespan = 0] can
    reach it.  Where rounding shifts what the sketch does by a step (ten
    additions of 0.1 are 1 here and 0.9999999999999999 in doubles; a scale
    interpolated towards 2.5 comes to rest a few ulps below it), the
    theorems state bounds that hold for both arithmetics.

    The p5 instance [p] is a record: its arithmetic helpers ([lerp], [map],
    [constrain], [radians], [random] on top of a uniform draw) follow the
    library's definitions; [cos], [sin], [atan2], [sqrt], the clock and the
    pseudo-random draws are fields of the record. *)

From Stdlib Require Import QArith Qround Qabs Qpower Lqa Lia ZArith String.
From stdpp Require Import base list.

Local Open Scope Q_scope.

(** ** Numbers *)

Definition Qltb (a b : Q) : bool := negb (Qle_bool b a).
Definition Qgtb (a b : Q) : bool := Qltb b a.

Lemma Qltb_lt (a b : Q) : Qltb a b = true <-> a < b.
Proof.
  unfold Qltb. rewrite negb_true_iff. split.
  - intros H. apply Qnot_le_lt. intros Hle.
    apply Qle_bool_iff in Hle. congruence.
  - intros H. destruct (Qle_bool b a) eqn:E; [|reflexivity].
    apply Qle_bool_iff in E. lra.
Qed.

Lemma Qltb_ge (a b : Q) : Qltb a b = false <-> b <= a.
Proof.
  unfold Qltb. rewrite negb_false_iff. apply Qle_bool_iff.
Qed.

Lemma Qgtb_gt (a b : Q) : Qgtb a b = true <-> b < a.
Proof. apply Qltb_lt. Qed.

Lemma Qgtb_le (a b : Q) : Qgtb a b = false <-> a <= b.
Proof. apply Qltb_ge. Qed.

(** Math.min / Math.max *)
Definition Qmin' (a b : Q) : Q := if Qltb b a then b else a.
Definition Qmax' (a b : Q) : Q := if Qltb a b then b else a.

(** The double nearest to pi, exactly: 884279719003555 / 2^48. *)
Definition PI : Q := 884279719003555 # 281474976710656.
Definition TWO_PI : Q := 2 * PI.

(** ** The p5 instance *)

Record Vec : Type := mkVec { x : Q; y : Q }.

Record p5 : Type := mkP5 {
  width : Q;
  height : Q;
  frameCount : Z;
  millis : Q;
  cos : Q -> Q;
  sin : Q -> Q;
  atan2 : Q -> Q -> Q;
  sqrt : Q -> Q;
  (** the sequence of uniform draws of [p.random()] *)
  rnd : nat -> Q
}.

Definition lerp (start stop amt : Q) : Q := amt * (stop - start) + start.

Definition constrain (n low high : Q) : Q := Qmax' (Qmin' n high) low.

Definition map (n start1 stop1 start2 stop2 : Q) (withinBounds : bool) : Q :=
  let newval := (n - start1) / (stop1 - start1) * (stop2 - start2) + start2 in
  if negb withinBounds then newval
  else if Qltb start2 stop2 then constrain newval start2 stop2
  else constrain newval stop2 start2.

Definition radians (deg : Q) : Q := deg * PI / 180.

Definition dist (p : p5) (x1 y1 x2 y2 : Q) : Q :=
  sqrt p ((x2 - x1) * (x2 - x1) + (y2 - y1) * (y2 - y1)).

(** [p.dist(x0, y0, v.x, v.y)] *)
Definition dist_to (p : p5) (x0 y0 : Q) (v : Vec) : Q :=
  dist p x0 y0 (x v) (y v).

Definition vadd (a b : Vec) : Vec := mkVec (x a + x b) (y a + y b).

Definition vlerp (a b : Vec) (amt : Q) : Vec :=
  mkVec (lerp (x a) (x b) amt) (lerp (y a) (y b) amt).

(** ** Pseudo-random draws: a state monad over the position in [rnd p] *)

Definition Rand (A : Type) : Type := nat -> A * nat.

Definition ret {A} (a : A) : Rand A := fun c => (a, c).

Definition bind {A B} (m : Rand A) (k : A -> Rand B) : Rand B :=
  fun c => let (a, c') := m c in k a c'.

Notation "v <- m ;; k" := (bind m (fun v => k))
  (at level 100, m at next level, right associativity).

(** [p.random()] *)
Definition random (p : p5) : Rand Q := fun c => (rnd p c, S c).

(** [p.random(max)] *)
Definition random_to (p : p5) (max : Q) : Rand Q :=
  u <- random p ;; ret (u * max).

(** [p.random(min, max)] *)
Definition random_in (p : p5) (min max : Q) : Rand Q :=
  u <- random p ;;
  ret (if Qgtb min max then u * (min - max) + max else u * (max - min) + min).

(** [p.random(array)]; an index out of the array gives [undefined]. *)
Definition random_of {A} (p : p5) (choices : list A) (undefined : A) : Rand A :=
  u <- random p ;;
  ret (nth (Z.to_nat (Qfloor (u * inject_Z (Z.of_nat (length choices)))))
           choices undefined).

(** The draws of a well-behaved generator lie in [0, 1). *)
Definition unit_draws (p : p5) : Prop := forall i, 0 <= rnd p i /\ rnd p i < 1.

(** ** src/types.ts *)

Inductive ParticleType : Type := TRUNK | BRANCH | TWIG | FLOWER | COLLECTED.

#[global] Instance ParticleType_eq_dec : EqDecision ParticleType.
Proof. solve_decision. Defined.

Definition is_tag (a b : ParticleType) : bool := bool_decide (a = b).

Definition color : Type := string.

(** ** Hand tracking input *)

Record Landmark : Type := mkLandmark { lx : Q; ly : Q }.

(** [HandLandmarkerResult.landmarks]: one list of landmarks per hand. *)
Definition HandLandmarkerResult : Type := list (list Landmark).

(** What [p.draw] finds when it looks at the video element. *)
Record Video : Type := mkVideo {
  (** the landmarker and the video element exist, [readyState >= 2] and
      both video dimensions are positive *)
  ready : bool;
  currentTime : Q;
  (** [detectForVideo(...)]; [None] when the call throws *)
  detectForVideo : option HandLandmarkerResult
}.

(** The mirrored canvas position of a landmark:
    [((1 - l.x) * p.width, l.y * p.height)]. *)
Definition screen (p : p5) (l : Landmark) : Vec :=
  mkVec ((1 - lx l) * width p) (ly l * height p).

(** The distance the tip moved since the previous frame; 0 without one. *)
Definition velocity (p : p5) (cur : Vec) (prev : option Vec) : Q :=
  match prev with
  | Some prev => dist_to p (x cur) (y cur) prev
  | None => 0
  end.

(** ** src/components/GenerativeTree.tsx *)

Module Tree.

Definition PALETTE_trunk : color := "#808080"%string.
Definition PALETTE_flowers : list color :=
  ["#FFB7B2"; "#FFDAC1"; "#E2F0CB"; "#B5EAD7"; "#C7CEEA"]%string.
Definition PALETTE_stamens : list color :=
  ["#FFF4BD"; "#FF9AA2"; "#FFB347"; "#FFFFB5"]%string.
Definition undefined_color : color := ""%string.

(** [randNeg(n)]; [None] stands for a missing argument. *)
Definition randNeg (p : p5) (n : option Q) : Rand Q :=
  u <- random p ;;
  ret match n with
      | None => if Qltb u 0.5 then 1 else -1
      | Some n => if Qltb u 0.5 then n else - n
      end.

Record Particle : Type := mkParticle {
  pos : Vec;
  col : color;
  stamenCol : color;
  siz : Q;
  asiz : Q;
  dir : Q;
  spd : Q;
  life : Q;
  lifespan : Q;
  tag : ParticleType;
  rotationOffset : Q;
  currentRotation : Q;
  targetScale : Q;
  currentScale : Q;
  lastHoveredTime : Q;
  isBloomed : bool;
  interactionRotation : Q;
  rsiz : Q
}.

(** [new Particle(sx, sy, sc, ss, sd, sl, ls, tag)] *)
Definition new_Particle (p : p5) (sx sy : Q) (sc : color) (ss sd sl ls : Q)
    (tag : ParticleType) : Rand Particle :=
  stamen <- random_of p PALETTE_stamens undefined_color ;;
  let siz0 := if is_tag tag FLOWER then 0 else 1 in
  spd0 <- (if is_tag tag TRUNK then ret 2 else random_in p 0.25 2) ;;
  let spd1 := if is_tag tag FLOWER then 0 else spd0 in
  rot <- random_to p TWO_PI ;;
  ret {| pos := mkVec sx sy; col := sc; stamenCol := stamen;
         siz := siz0; asiz := ss; dir := sd; spd := spd1;
         life := sl; lifespan := ls; tag := tag;
         rotationOffset := rot; currentRotation := rot;
         targetScale := 1; currentScale := 1;
         lastHoveredTime := -1000; isBloomed := false;
         interactionRotation := 0; rsiz := ss * siz0 |}.

(** [while (diff < -PI) diff += TWO_PI], unrolled [n] times.  *)
Fixpoint wrap_up (n : nat) (diff : Q) : Q :=
  match n with
  | O => diff
  | S n' => if Qltb diff (- PI) then wrap_up n' (diff + TWO_PI) else diff
  end.

(** [while (diff > PI) diff -= TWO_PI], unrolled [n] times. *)
Fixpoint wrap_down (n : nat) (diff : Q) : Q :=
  match n with
  | O => diff
  | S n' => if Qgtb diff PI then wrap_down n' (diff - TWO_PI) else diff
  end.

(** Iterations after which the two loops have left: each round moves
    [diff] by [TWO_PI] towards the interval. *)
Definition wrap_rounds (diff : Q) : nat :=
  Z.to_nat (Qceiling (Qabs diff / TWO_PI)).

Definition wrap (diff : Q) : Q :=
  let d1 := wrap_up (wrap_rounds diff) diff in
  wrap_down (wrap_rounds d1) d1.

(** What one call of [update] does besides changing the particle itself:
    whether it reports death, the particles it pushes onto [parts] and the
    positions it pushes onto [treePositions], in order. *)
Record Outcome : Type := mkOutcome {
  self : Particle;
  isDead : bool;
  pushed : list Particle;
  recorded : list Vec
}.

(** The flower branch of [update].  (With exact additions a fresh flower
    has size 1 after ten updates, with the doubles of the source after
    eleven.) *)
Definition update_flower (p : p5) (this : Particle) : Particle :=
  let life1 := life this + 1 in
  let siz1 :=
    if Qltb (siz this) 1 then
      let s := siz this + 0.1 in if Qgtb s 1 then 1 else s
    else siz this in
  let timeSinceHover := millis p - lastHoveredTime this in
  let hovered := Qltb timeSinceHover 200 in
  let targetScale1 :=
    if hovered then 2.5 else if isBloomed this then 2.5 else 1 in
  let isBloomed1 := if hovered then true else isBloomed this in
  let currentRotation1 :=
    if hovered then
      let diff := wrap (interactionRotation this - currentRotation this) in
      currentRotation this + diff * 0.1
    else if isBloomed this then currentRotation this
    else lerp (currentRotation this) (rotationOffset this) 0.05 in
  let currentScale1 := lerp (currentScale this) targetScale1 0.1 in
  {| pos := pos this; col := col this; stamenCol := stamenCol this;
     siz := siz1; asiz := asiz this; dir := dir this; spd := spd this;
     life := life1; lifespan := lifespan this; tag := tag this;
     rotationOffset := rotationOffset this;
     currentRotation := currentRotation1;
     targetScale := targetScale1; currentScale := currentScale1;
     lastHoveredTime := lastHoveredTime this; isBloomed := isBloomed1;
     interactionRotation := interactionRotation this; rsiz := rsiz this |}.

(** The tree branch of [update] up to the death test: movement, direction
    jitter and tapering. *)
Definition update_move (p : p5) (this : Particle) : Rand Particle :=
  let life1 := life this + 1 in
  let rsiz1 := asiz this * siz this in
  let rad := radians (dir this) in
  let pos1 := vadd (pos this) (mkVec (cos p rad * spd this) (sin p rad * spd this)) in
  let jitterMult :=
    if is_tag (tag this) TRUNK && Qgtb (siz this) 0.9 then 1
    else map life1 0 (lifespan this) 1 5 false in
  j <- random_in p (-1) 1 ;;
  let dir1 := dir this + j * jitterMult in
  r <- random_to p 0.015 ;;
  let siz1 := lerp (siz this) 0 r in
  ret {| pos := pos1; col := col this; stamenCol := stamenCol this;
         siz := siz1; asiz := asiz this; dir := dir1; spd := spd this;
         life := life1; lifespan := lifespan this; tag := tag this;
         rotationOffset := rotationOffset this;
         currentRotation := currentRotation this;
         targetScale := targetScale this; currentScale := currentScale this;
         lastHoveredTime := lastHoveredTime this; isBloomed := isBloomed this;
         interactionRotation := interactionRotation this; rsiz := rsiz1 |}.

(** [this.rsiz < 0.1 || this.spd > this.rsiz] *)
Definition dies (this : Particle) : bool :=
  Qltb (rsiz this) 0.1 || Qgtb (spd this) (rsiz this).

(** The spawning logic of [update], run on the particle that survived.
    1. Trunk -> Branch *)
Definition spawn_branch (p : p5) (this : Particle) : Rand (list Particle) :=
  u <- random p ;;
  if Qltb u 0.03 && is_tag (tag this) TRUNK && Qltb (siz this) 0.55 then
    a <- random_in p 15 30 ;;
    n <- randNeg p (Some a) ;;
    k <- new_Particle p (x (pos this)) (y (pos this)) (col this)
           (rsiz this) (dir this + n) (life this) (lifespan this) BRANCH ;;
    ret [k]
  else ret [].

(** 2. Branch Forking *)
Definition fork_branch (p : p5) (this : Particle) : Rand (list Particle) :=
  u <- random p ;;
  if Qltb u 0.01 && is_tag (tag this) BRANCH then
    k <- new_Particle p (x (pos this)) (y (pos this)) (col this)
           (rsiz this) (dir this) (life this) (lifespan this) BRANCH ;;
    ret [k]
  else ret [].

(** 3. Twigs *)
Definition spawn_twig (p : p5) (this : Particle) : Rand (list Particle) :=
  let twigChance :=
    if is_tag (tag this) BRANCH && Qltb (siz this) 0.25
    then map (siz this) 0 0.25 0.5 0.3 false else 0 in
  u <- random p ;;
  if Qltb u twigChance then
    let newSize := sqrt p (siz this) * rsiz this in
    a <- random_in p 5 20 ;;
    n <- randNeg p (Some a) ;;
    ls <- random_to p (lifespan this * 0.05) ;;
    k <- new_Particle p (x (pos this)) (y (pos this)) (col this)
           newSize (dir this + n) 0 ls TWIG ;;
    ret [k]
  else ret [].

Definition update_spawn (p : p5) (this : Particle) : Rand (list Particle) :=
  kids1 <- spawn_branch p this ;;
  kids2 <- fork_branch p this ;;
  kids3 <- spawn_twig p this ;;
  ret (kids1 ++ kids2 ++ kids3).

(** [Particle.update()] *)
Definition update (p : p5) (this : Particle) : Rand Outcome :=
  if is_tag (tag this) FLOWER then
    ret (mkOutcome (update_flower p this) false [] [])
  else
    this1 <- update_move p this ;;
    if dies this1 then ret (mkOutcome this1 true [] [])
    else
      let rec :=
        if (frameCount p mod 5 =? 0)%Z && Qltb (y (pos this1)) (height p * 0.7)
        then [mkVec (x (pos this1)) (y (pos this1))] else [] in
      kids <- update_spawn p this1 ;;
      ret (mkOutcome this1 false kids rec).

(** *** The sketch's variables *)

Record Circle : Type := mkCircle { centre : Vec; diameter : Q; fill : color }.

Record Sketch : Type := mkSketch {
  parts : list Particle;
  treePositions : list Vec;
  prevIndexPos : option Vec;
  fingerStillFrames : Z;
  wandPos : option Vec;
  (** what has been drawn on the offscreen tree layer *)
  treeLayer : list Circle;
  (** [lastVideoTimeRef.current] *)
  lastVideoTime : Q;
  (** how many draws [p.random] has made since the last [randomSeed] *)
  seed : nat;
  (** ghost: every position a tree particle has moved to, oldest first;
      no code reads it *)
  trail : list Vec
}.

Definition set_parts (v : list Particle) (s : Sketch) : Sketch :=
  mkSketch v (treePositions s) (prevIndexPos s) (fingerStillFrames s)
    (wandPos s) (treeLayer s) (lastVideoTime s) (seed s) (trail s).
Definition set_treePositions (v : list Vec) (s : Sketch) : Sketch :=
  mkSketch (parts s) v (prevIndexPos s) (fingerStillFrames s)
    (wandPos s) (treeLayer s) (lastVideoTime s) (seed s) (trail s).
Definition set_prevIndexPos (v : option Vec) (s : Sketch) : Sketch :=
  mkSketch (parts s) (treePositions s) v (fingerStillFrames s)
    (wandPos s) (treeLayer s) (lastVideoTime s) (seed s) (trail s).
Definition set_fingerStillFrames (v : Z) (s : Sketch) : Sketch :=
  mkSketch (parts s) (treePositions s) (prevIndexPos s) v
    (wandPos s) (treeLayer s) (lastVideoTime s) (seed s) (trail s).
Definition set_wandPos (v : option Vec) (s : Sketch) : Sketch :=
  mkSketch (parts s) (treePositions s) (prevIndexPos s) (fingerStillFrames s)
    v (treeLayer s) (lastVideoTime s) (seed s) (trail s).
Definition set_treeLayer (v : list Circle) (s : Sketch) : Sketch :=
  mkSketch (parts s) (treePositions s) (prevIndexPos s) (fingerStillFrames s)
    (wandPos s) v (lastVideoTime s) (seed s) (trail s).
Definition set_lastVideoTime (v : Q) (s : Sketch) : Sketch :=
  mkSketch (parts s) (treePositions s) (prevIndexPos s) (fingerStillFrames s)
    (wandPos s) (treeLayer s) v (seed s) (trail s).
Definition set_seed (v : nat) (s : Sketch) : Sketch :=
  mkSketch (parts s) (treePositions s) (prevIndexPos s) (fingerStillFrames s)
    (wandPos s) (treeLayer s) (lastVideoTime s) v (trail s).
Definition set_trail (v : list Vec) (s : Sketch) : Sketch :=
  mkSketch (parts s) (treePositions s) (prevIndexPos s) (fingerStillFrames s)
    (wandPos s) (treeLayer s) (lastVideoTime s) (seed s) v.

(** Run a computation that draws random numbers on the sketch's generator. *)
Definition drawing {A} (m : Rand A) (s : Sketch) : A * Sketch :=
  let (a, c) := m (seed s) in (a, set_seed c s).

(** [parts.push(v)] *)
Definition push_part (v : Particle) (s : Sketch) : Sketch :=
  set_parts (parts s ++ [v]) s.

(** One round of the loop of [startTree]: a trunk leaving at [angle]. *)
Definition plant (p : p5) (angle : Q) (s : Sketch) : Sketch :=
  let startX := width p / 2 in
  let (k, s') :=
    drawing (dx <- random_in p (-2) 2 ;;
             new_Particle p (startX + dx) (height p * 0.95) PALETTE_trunk
               100 angle 0 500 TRUNK) s in
  push_part k s'.

(** [startTree()] *)
Definition startTree (p : p5) (s : Sketch) : Sketch :=
  plant p 280 (plant p 260 s).

(** [spawnFlower(x, y, handScreenSizeRatio = 0.1)] *)
Definition spawnFlower (p : p5) (x y : Q) (handScreenSizeRatio : option Q)
    (s : Sketch) : Sketch :=
  let ratio := default 0.1 handScreenSizeRatio in
  let (k, s') :=
    drawing (flowerColor <- random_of p PALETTE_flowers undefined_color ;;
             let size := map ratio 0.05 0.3 10 35 true in
             new_Particle p x y flowerColor size 0 0 0 FLOWER) s in
  push_part k s'.

(** The state of the sketch when its closure is created. *)
Definition sketch0 : Sketch :=
  mkSketch [] [] None 0%Z None [] (-1) O [].

(** [p.setup]: [randomSeed(42)] rewinds the generator. *)
Definition setup (p : p5) : Sketch :=
  startTree p (set_seed O (set_treeLayer [] sketch0)).

(** [p.windowResized] *)
Definition windowResized (p : p5) (s : Sketch) : Sketch :=
  startTree p
    (set_seed O (set_treePositions [] (set_parts [] (set_treeLayer [] s)))).

(** [display(treeLayer)] of a tree particle: the stippling draws once. *)
Definition display_tree (p : p5) (this : Particle) : Rand (list Circle) :=
  u <- random p ;;
  ret (if Qltb u 0.3 then [mkCircle (pos this) (rsiz this) (col this)] else []).

(** *** The still-finger gesture *)

(** The loop [for (const part of parts)] that looks for the closest
    flower: [best] is [(closestDist, closestFlower)], the flower held as its
    index in [parts]; [i] is the index of the head of [ps]. *)
Fixpoint closest (p : p5) (x y : Q) (ps : list Particle) (i : nat)
    (best : Q * option nat) : Q * option nat :=
  match ps with
  | [] => best
  | part :: ps' =>
    let best' :=
      if is_tag (tag part) FLOWER then
        let d := dist_to p x y (pos part) in
        if Qltb d (fst best) then (d, Some i) else best
      else best in
    closest p x y ps' (S i) best'
  end.

(** [closestFlower.lastHoveredTime = p.millis();
     closestFlower.interactionRotation = fingerAngle] *)
Definition hover (t angle : Q) (this : Particle) : Particle :=
  {| pos := pos this; col := col this; stamenCol := stamenCol this;
     siz := siz this; asiz := asiz this; dir := dir this; spd := spd this;
     life := life this; lifespan := lifespan this; tag := tag this;
     rotationOffset := rotationOffset this;
     currentRotation := currentRotation this;
     targetScale := targetScale this; currentScale := currentScale this;
     lastHoveredTime := t; isBloomed := isBloomed this;
     interactionRotation := angle; rsiz := rsiz this |}.

(** The angle of the finger, from the wrist to the tip. *)
Definition fingerAngle (p : p5) (x y : Q) (wrist : Landmark) : Q :=
  let wx := (1 - lx wrist) * width p in
  let wy := ly wrist * height p in
  atan2 p (y - wy) (x - wx).

Definition magnify (p : p5) (x y : Q) (wrist : Landmark) (s : Sketch) : Sketch :=
  match snd (closest p x y (parts s) O (50, None)) with
  | Some i =>
    set_parts (alter (hover (millis p) (fingerAngle p x y wrist)) i (parts s)) s
  | None => s
  end.

(** *** Painting flowers *)

(** The inner loop [for (let i = treePositions.length - 1; i >= 0; i--)],
    with [n] indices left to visit: the index and the entry of the first
    hit. *)
Fixpoint scan (near : Vec -> bool) (tp : list Vec) (n : nat) : option (nat * Vec) :=
  match n with
  | O => None
  | S i =>
    match tp !! i with
    | Some pt => if near pt then Some (i, pt) else scan near tp i
    | None => scan near tp i
    end
  end.

Definition searchRadius : Q := 30.

(** One round of the loop over [s]: the probe sits at [t = s/steps] of the
    way from the previous to the current tip; [None] is the NaN of [0/0],
    which no comparison accepts. *)
Definition probe (p : p5) (prev cur : Vec) (ratio : Q) (t : option Q)
    (s : Sketch) : Sketch :=
  let near (pt : Vec) : bool :=
    match t with
    | None => false
    | Some t =>
      let lx := lerp (x prev) (x cur) t in
      let ly := lerp (y prev) (y cur) t in
      Qltb (dist p lx ly (x pt) (y pt)) searchRadius
    end in
  match scan near (treePositions s) (length (treePositions s)) with
  | Some (i, pt) =>
    let s1 := spawnFlower p (x pt) (y pt) (Some ratio) s in
    set_treePositions (delete i (treePositions s1)) s1
  | None => s
  end.

(** [s / steps] *)
Definition fraction (k steps : Z) : option Q :=
  if (steps =? 0)%Z then None else Some (inject_Z k / inject_Z steps).

(** The values [s] takes in [for (let s = 0; s <= steps; s++)]. *)
Definition rounds (steps : Z) : list Z :=
  List.map Z.of_nat (seq 0 (Z.to_nat (steps + 1))).

(** [Math.ceil(velocity / 10)] *)
Definition steps (velocity : Q) : Z := Qceiling (velocity / 10).

(** The rounds of the painting loop, each with its [s / steps]: none
    unless [treePositions.length > 0 && prevIndexPos]. *)
Definition probes (velocity : Q) (s : Sketch) : list (option Q) :=
  match treePositions s, prevIndexPos s with
  | _ :: _, Some _ =>
    List.map (fun k => fraction k (steps velocity)) (rounds (steps velocity))
  | _, _ => []
  end.

Definition paint (p : p5) (cur : Vec) (ratio velocity : Q) (s : Sketch) : Sketch :=
  match prevIndexPos s with
  | Some prev =>
    fold_left (fun s t => probe p prev cur ratio t s) (probes velocity s) s
  | None => s
  end.

(** *** handleHandInteraction *)

(** Index extended: the tip is further from the wrist than 1.1 times each
    of the other three tips. *)
Definition isPointing (p : p5) (wrist indexTip middle ring pinky : Landmark)
    : bool :=
  let dIndex := dist p (lx wrist) (ly wrist) (lx indexTip) (ly indexTip) in
  let dMiddle := dist p (lx wrist) (ly wrist) (lx middle) (ly middle) in
  let dRing := dist p (lx wrist) (ly wrist) (lx ring) (ly ring) in
  let dPinky := dist p (lx wrist) (ly wrist) (lx pinky) (ly pinky) in
  Qgtb dIndex (dMiddle * 1.1) && Qgtb dIndex (dRing * 1.1)
  && Qgtb dIndex (dPinky * 1.1).

(** Hand size relative to the screen diagonal (wrist to index base). *)
Definition handScreenSizeRatio (p : p5) (wrist indexBase : Landmark) : Q :=
  let handSizePixels :=
    dist_to p (x (screen p wrist)) (y (screen p wrist)) (screen p indexBase) in
  let screenDiag := dist p 0 0 (width p) (height p) in
  handSizePixels / screenDiag.

(** [fingerStillFrames] after the stillness test *)
Definition stillFrames (velocity : Q) (frames : Z) : Z :=
  let isStill := Qltb velocity 3 in
  if isStill then (frames + 1)%Z else 0%Z.

(** [wandPos] after the smoothing *)
Definition follow (wandPos : option Vec) (currentTipPos : Vec) : Vec :=
  match wandPos with
  | None => currentTipPos
  | Some w => vlerp w currentTipPos 0.2
  end.

Definition handleHandInteraction (p : p5) (result : HandLandmarkerResult)
    (s : Sketch) : Sketch :=
  match result with
  | landmarks :: _ =>
    match landmarks !! 8%nat, landmarks !! 0%nat, landmarks !! 5%nat with
    | Some indexTip, Some wrist, Some indexBase =>
      let currentTipPos := screen p indexTip in
      let s1 := set_wandPos (Some (follow (wandPos s) currentTipPos)) s in
      let handScreenSizeRatio := handScreenSizeRatio p wrist indexBase in
      let velocity := velocity p currentTipPos (prevIndexPos s1) in
      match landmarks !! 12%nat, landmarks !! 16%nat, landmarks !! 20%nat with
      | Some middle, Some ring, Some pinky =>
        let s2 :=
          set_fingerStillFrames
            (stillFrames velocity (fingerStillFrames s1)) s1 in
        let s3 :=
          if isPointing p wrist indexTip middle ring pinky
             && (fingerStillFrames s2 >? 10)%Z
          then magnify p (x currentTipPos) (y currentTipPos) wrist s2
          else paint p currentTipPos handScreenSizeRatio velocity s2 in
        set_prevIndexPos (Some currentTipPos) s3
      | _, _, _ =>
        (* reading [.x] of a missing landmark throws; [p.draw] catches it *)
        s1
      end
    | _, _, _ =>
      (* [indexTip.x] throws before anything is assigned *)
      s
    end
  | [] =>
    set_fingerStillFrames 0%Z (set_wandPos None (set_prevIndexPos None s))
  end.

(** *** p.draw *)

(** The body of [for (let i = parts.length - 1; i >= 0; i--)] at index [i]. *)
Definition draw_part (p : p5) (i : nat) (s : Sketch) : Sketch :=
  match parts s !! i with
  | None => s
  | Some part =>
    let (o, s1) := drawing (update p part) s in
    let s2 :=
      set_treePositions (treePositions s1 ++ recorded o)
        (set_parts (<[i := self o]> (parts s1) ++ pushed o) s1) in
    let s3 :=
      if is_tag (tag part) FLOWER then s2
      else set_trail (trail s2 ++ [pos (self o)]) s2 in
    if isDead o then set_parts (delete i (parts s3)) s3
    else if is_tag (tag (self o)) FLOWER then s3
    else
      let (dots, s4) := drawing (display_tree p (self o)) s3 in
      set_treeLayer (treeLayer s4 ++ dots) s4
  end.

(** The loop, with [n] indices left: it visits [n-1], ..., [0]. *)
Fixpoint draw_loop (p : p5) (n : nat) (s : Sketch) : Sketch :=
  match n with
  | O => s
  | S i => draw_loop p i (draw_part p i s)
  end.

Definition draw (p : p5) (v : Video) (s : Sketch) : Sketch :=
  let s1 :=
    if ready v && negb (Qeq_bool (currentTime v) (lastVideoTime s)) then
      let s' := set_lastVideoTime (currentTime v) s in
      match detectForVideo v with
      | Some result => handleHandInteraction p result s'
      | None => s'
      end
    else s in
  draw_loop p (length (parts s1)) s1.

(** *** Runs of the sketch *)

Inductive step : Sketch -> Sketch -> Prop :=
  | step_draw (p : p5) (v : Video) (s : Sketch) : step s (draw p v s)
  | step_resize (p : p5) (s : Sketch) : step s (windowResized p s).

Inductive reachable : Sketch -> Prop :=
  | reach_setup (p : p5) : reachable (setup p)
  | reach_step (s s' : Sketch) : reachable s -> step s s' -> reachable s'.

End Tree.

(** ** src/unnamed/part_000 *)

Module Tree0.

Definition PALETTE_trunk : color := "#8E8D8A"%string.
Definition PALETTE_flowers : list color :=
  ["#FFB7B2"; "#FFDAC1"; "#E2F0CB"; "#B5EAD7"; "#C7CEEA"; "#A2E1DB";
   "#E0BBE4"]%string.
Definition undefined_color : color := ""%string.

Record Particle : Type := mkParticle {
  pos : Vec;
  col : color;
  siz : Q;
  asiz : Q;
  dir : Q;
  spd : Q;
  life : Q;
  lifespan : Q;
  tag : ParticleType;
  rotationOffset : Q
}.

(** [new Particle(sx, sy, sc, ss, sd, sl, ls, tag)] *)
Definition new_Particle (p : p5) (sx sy : Q) (sc : color) (ss sd sl ls : Q)
    (tag : ParticleType) : Rand Particle :=
  rot <- random_to p TWO_PI ;;
  let siz0 := if is_tag tag FLOWER then 0 else 1 in
  spd0 <-
    (if is_tag tag FLOWER then ret 0
     else if is_tag tag TRUNK then ret 2 else random_in p 0.25 2) ;;
  ret {| pos := mkVec sx sy; col := sc; siz := siz0; asiz := ss; dir := sd;
         spd := spd0; life := sl; lifespan := ls; tag := tag;
         rotationOffset := rot |}.

Record Outcome : Type := mkOutcome {
  self : Particle;
  isDead : bool;
  pushed : list Particle;
  recorded : list Vec
}.

(** The flower branch of [update]: the grown flower reports death.  (With
    exact additions a fresh flower is grown at its tenth update, with the
    doubles of the source at its eleventh.) *)
Definition update_flower (this : Particle) : Particle * bool :=
  let s := siz this + 0.1 in
  let grown := Qle_bool 1 s in
  ({| pos := pos this; col := col this; siz := if grown then 1 else s;
      asiz := asiz this; dir := dir this; spd := spd this;
      life := life this + 1; lifespan := lifespan this; tag := tag this;
      rotationOffset := rotationOffset this |}, grown).

(** The tree branch of [update] up to the death test. *)
Definition update_move (p : p5) (this : Particle) : Rand Particle :=
  let life1 := life this + 1 in
  let radiansDir := radians (dir this) in
  let pos1 :=
    vadd (pos this)
      (mkVec (cos p radiansDir * spd this) (sin p radiansDir * spd this)) in
  let wander :=
    if is_tag (tag this) TRUNK && Qgtb (siz this) 0.9 then 1
    else map life1 0 (lifespan this) 1 5 false in
  j <- random_in p (-1) 1 ;;
  let dir1 := dir this + j * wander in
  u <- random p ;;
  dir2 <-
    (if Qltb u 0.005 && negb (is_tag (tag this) TRUNK) then
       v <- random p ;;
       ret (dir1 + (if Qltb v 0.5 then 1 else -1) * 72 * 0.5)
     else ret dir1) ;;
  r <- random_to p 0.015 ;;
  ret {| pos := pos1; col := col this; siz := lerp (siz this) 0 r;
         asiz := asiz this; dir := dir2; spd := spd this; life := life1;
         lifespan := lifespan this; tag := tag this;
         rotationOffset := rotationOffset this |}.

Definition currentSize (this : Particle) : Q := asiz this * siz this.

(** [currentSize < 0.5 || this.spd > currentSize] *)
Definition dies (this : Particle) : bool :=
  Qltb (currentSize this) 0.5 || Qgtb (spd this) (currentSize this).

(** Spawning children.  1. Trunk -> Branch *)
Definition spawn_branch (p : p5) (this : Particle) : Rand (list Particle) :=
  u <- random p ;;
  if Qltb u 0.03 && is_tag (tag this) TRUNK && Qltb (siz this) 0.6 then
    v <- random p ;;
    a <- random_in p 20 40 ;;
    k <- new_Particle p (x (pos this)) (y (pos this)) (col this)
           (currentSize this * 0.9)
           (dir this + (if Qltb v 0.5 then 1 else -1) * a)
           (life this) (lifespan this) BRANCH ;;
    ret [k]
  else ret [].

(** 2. Branch -> Branch *)
Definition fork_branch (p : p5) (this : Particle) : Rand (list Particle) :=
  u <- random p ;;
  if Qltb u 0.01 && is_tag (tag this) BRANCH && Qgtb (siz this) 0.5 then
    a <- random_in p (-10) 10 ;;
    k <- new_Particle p (x (pos this)) (y (pos this)) (col this)
           (currentSize this) (dir this + a)
           (life this) (lifespan this) BRANCH ;;
    ret [k]
  else ret [].

Definition update_spawn (p : p5) (this : Particle) : Rand (list Particle) :=
  kids1 <- spawn_branch p this ;;
  kids2 <- fork_branch p this ;;
  ret (kids1 ++ kids2).

(** [Particle.update()] *)
Definition update (p : p5) (this : Particle) : Rand Outcome :=
  if is_tag (tag this) FLOWER then
    let (this1, grown) := update_flower this in
    ret (mkOutcome this1 grown [] [])
  else
    this1 <- update_move p this ;;
    let rec :=
      if (frameCount p mod 4 =? 0)%Z
      then [mkVec (x (pos this1)) (y (pos this1))] else [] in
    if dies this1 then ret (mkOutcome this1 true [] rec)
    else
      kids <- update_spawn p this1 ;;
      ret (mkOutcome this1 false kids rec).

(** *** The sketch's variables *)

Record Sketch : Type := mkSketch {
  parts : list Particle;
  treePositions : list Vec;
  prevHandPos : option Vec;
  (** [lastVideoTimeRef.current] *)
  lastVideoTime : Q;
  (** how many draws [p.random] has made *)
  seed : nat;
  (** ghost: every position a tree particle has moved to, oldest first;
      no code reads it *)
  trail : list Vec
}.

Definition set_parts (v : list Particle) (s : Sketch) : Sketch :=
  mkSketch v (treePositions s) (prevHandPos s) (lastVideoTime s) (seed s)
    (trail s).
Definition set_treePositions (v : list Vec) (s : Sketch) : Sketch :=
  mkSketch (parts s) v (prevHandPos s) (lastVideoTime s) (seed s) (trail s).
Definition set_prevHandPos (v : option Vec) (s : Sketch) : Sketch :=
  mkSketch (parts s) (treePositions s) v (lastVideoTime s) (seed s) (trail s).
Definition set_lastVideoTime (v : Q) (s : Sketch) : Sketch :=
  mkSketch (parts s) (treePositions s) (prevHandPos s) v (seed s) (trail s).
Definition set_seed (v : nat) (s : Sketch) : Sketch :=
  mkSketch (parts s) (treePositions s) (prevHandPos s) (lastVideoTime s) v
    (trail s).
Definition set_trail (v : list Vec) (s : Sketch) : Sketch :=
  mkSketch (parts s) (treePositions s) (prevHandPos s) (lastVideoTime s)
    (seed s) v.

Definition drawing {A} (m : Rand A) (s : Sketch) : A * Sketch :=
  let (a, c) := m (seed s) in (a, set_seed c s).

Definition push_part (v : Particle) (s : Sketch) : Sketch :=
  set_parts (parts s ++ [v]) s.

(** [parts.push(new Particle(sx, p.height + 20, PALETTE.trunk, ss, 270, 0,
    500, ParticleType.TRUNK))] *)
Definition plant (p : p5) (sx ss : Q) (s : Sketch) : Sketch :=
  let (k, s') :=
    drawing (new_Particle p sx (height p + 20) PALETTE_trunk ss 270 0 500
               TRUNK) s in
  push_part k s'.

(** [startTree()] *)
Definition startTree (p : p5) (s : Sketch) : Sketch :=
  let startX := width p / 2 in
  plant p (startX + 20) 45 (plant p (startX - 20) 50 s).

(** [spawnFlower(x, y)] *)
Definition spawnFlower (p : p5) (x y : Q) (s : Sketch) : Sketch :=
  let (k, s') :=
    drawing (flowerColor <- random_of p PALETTE_flowers undefined_color ;;
             size <- random_in p 15 25 ;;
             new_Particle p x y flowerColor size 0 0 0 FLOWER) s in
  push_part k s'.

Definition sketch0 : Sketch := mkSketch [] [] None (-1) O [].

(** [p.setup] *)
Definition setup (p : p5) : Sketch := startTree p sketch0.

(** [p.windowResized] *)
Definition windowResized (p : p5) (s : Sketch) : Sketch :=
  startTree p (set_treePositions [] (set_parts [] s)).

(** [spawnFlower(pt.x, pt.y)] *)
Definition spawn_at (p : p5) (pt : Vec) (s : Sketch) : Sketch :=
  spawnFlower p (x pt) (y pt) s.

(** *** handleHandInteraction *)

(** The loop [for (let i = treePositions.length - 1; i >= 0; i--)] with [n]
    indices left to visit. *)
Fixpoint bloom (p : p5) (x y searchRadius : Q) (n : nat) (bloomsNeeded : Z)
    (s : Sketch) : Sketch :=
  match n with
  | O => s
  | S i =>
    if (bloomsNeeded <=? 0)%Z then s
    else
      match treePositions s !! i with
      | Some pt =>
        if Qltb (dist_to p x y pt) searchRadius then
          let s1 := spawn_at p pt s in
          bloom p x y searchRadius i (bloomsNeeded - 1)
            (set_treePositions (delete i (treePositions s1)) s1)
        else bloom p x y searchRadius i bloomsNeeded s
      | None => bloom p x y searchRadius i bloomsNeeded s
      end
  end.

(** The velocity test of the bloom logic: [(bloomsNeeded, searchRadius)],
    drawing [p.random()] only when the hand is slow. *)
Definition bloomsNeeded (p : p5) (velocity : Q) : Rand Z :=
  if Qgtb velocity 8 then ret 5%Z
  else u <- random p ;; ret (if Qltb u 0.2 then 1%Z else 0%Z).

Definition searchRadius (velocity : Q) : Q :=
  if Qgtb velocity 8 then 80 else 40.

Definition handleHandInteraction (p : p5) (result : HandLandmarkerResult)
    (s : Sketch) : Sketch :=
  match result with
  | landmarks :: _ =>
    match landmarks !! 8%nat with
    | Some indexTip =>
      let currentPos := screen p indexTip in
      let velocity := velocity p currentPos (prevHandPos s) in
      let s2 :=
        match treePositions s with
        | _ :: _ =>
          let (needed, s1) := drawing (bloomsNeeded p velocity) s in
          if (needed >? 0)%Z then
            bloom p (x currentPos) (y currentPos) (searchRadius velocity)
              (length (treePositions s1)) needed s1
          else s1
        | [] => s
        end in
      set_prevHandPos (Some currentPos) s2
    | None =>
      (* [indexTip.x] throws before anything is assigned; [p.draw] catches it *)
      s
    end
  | [] => set_prevHandPos None s
  end.

(** *** p.draw *)

(** The body of [for (let i = parts.length - 1; i >= 0; i--)] at index [i]. *)
Definition draw_part (p : p5) (i : nat) (s : Sketch) : Sketch :=
  match parts s !! i with
  | None => s
  | Some part =>
    let (o, s1) := drawing (update p part) s in
    let s2 :=
      set_treePositions (treePositions s1 ++ recorded o)
        (set_parts (<[i := self o]> (parts s1) ++ pushed o) s1) in
    let s3 :=
      if is_tag (tag part) FLOWER then s2
      else set_trail (trail s2 ++ [pos (self o)]) s2 in
    if isDead o then set_parts (delete i (parts s3)) s3 else s3
  end.

Fixpoint draw_loop (p : p5) (n : nat) (s : Sketch) : Sketch :=
  match n with
  | O => s
  | S i => draw_loop p i (draw_part p i s)
  end.

Definition draw (p : p5) (v : Video) (s : Sketch) : Sketch :=
  let s1 :=
    if ready v && negb (Qeq_bool (currentTime v) (lastVideoTime s))
    then
      let s' := set_lastVideoTime (currentTime v) s in
      match detectForVideo v with
      | Some result => handleHandInteraction p result s'
      | None => s'
      end
    else s in
  draw_loop p (length (parts s1)) s1.

(** *** Runs of the sketch *)

Inductive step : Sketch -> Sketch -> Prop :=
  | step_draw (p : p5) (v : Video) (s : Sketch) : step s (draw p v s)
  | step_resize (p : p5) (s : Sketch) : step s (windowResized p s).

Inductive reachable : Sketch -> Prop :=
  | reach_setup (p : p5) : reachable (setup p)
  | reach_step (s s' : Sketch) : reachable s -> step s s' -> reachable s'.

End Tree0.

(** ** initVision *)

Module Vision.

Inductive Delegate : Type := GPU | CPU.

(** What [initVision] does that the outside can see, in order. *)
Inductive Event : Type :=
  | ForVisionTasks
  | CreateFromOptions (delegate : Delegate) (numHands : nat)
  | GetUserMedia
  | SetSrcObject
  | ConsoleError (message : string)
  | ConsoleLog (message : string).

(** The environment: which of the awaited library calls reject, by their
    position among the calls made (0 is the first call), and what the
    browser offers. *)
Record Browser : Type := mkBrowser {
  rejects : nat -> bool;
  hasMediaDevices : bool;
  hasVideoElement : bool
}.

(** A computation that logs events and may throw: the log so far and the
    number of awaited calls made are threaded through; [inl] is a thrown
    error. *)
Definition Async (A : Type) : Type :=
  list Event * nat -> (unit + A) * (list Event * nat).

Definition pure {A} (a : A) : Async A := fun st => (inr a, st).

Definition andThen {A B} (m : Async A) (k : A -> Async B) : Async B :=
  fun st =>
    match m st with
    | (inr a, st') => k a st'
    | (inl e, st') => (inl e, st')
    end.

Notation "m >> k" := (andThen m (fun _ => k))
  (at level 100, right associativity).

(** [try { m } catch (err) { h }] *)
Definition tryCatch {A} (m : Async A) (h : Async A) : Async A :=
  fun st =>
    match m st with
    | (inr a, st') => (inr a, st')
    | (inl _, st') => h st'
    end.

Definition emit (e : Event) : Async unit :=
  fun st => (inr tt, (fst st ++ [e], snd st)).

(** [await call]: the call is made, and rejects when the browser says so. *)
Definition await (b : Browser) (e : Event) : Async unit :=
  fun st =>
    let st' := (fst st ++ [e], S (snd st)) in
    if rejects b (snd st) then (inl tt, st') else (inr tt, st').

Definition when (c : bool) (m : Async unit) : Async unit :=
  if c then m else pure tt.

Definition startCamera (b : Browser) : Async unit :=
  when (hasMediaDevices b)
    (await b GetUserMedia >>
     when (hasVideoElement b) (emit SetSrcObject)).

(** [initVision] of src/components/GenerativeTree.tsx *)
Definition initVision (b : Browser) : Async unit :=
  tryCatch
    (await b ForVisionTasks >>
     await b (CreateFromOptions GPU 1) >>
     startCamera b)
    (emit (ConsoleError "Error initializing vision:") >>
     tryCatch
       (await b ForVisionTasks >>
        await b (CreateFromOptions CPU 1) >>
        emit (ConsoleLog "Fallback to CPU delegate successful"))
       (emit (ConsoleError "Vision init completely failed:"))).

(** [initVision] of src/unnamed/part_000 *)
Definition initVision0 (b : Browser) : Async unit :=
  tryCatch
    (await b ForVisionTasks >>
     await b (CreateFromOptions GPU 2) >>
     startCamera b)
    (emit (ConsoleError "Error initializing vision:")).

(** The events of a run from the start. *)
Definition run (m : Async unit) : list Event := fst (snd (m ([], O))).

Definition is_call (e : Event) : bool :=
  match e with
  | ForVisionTasks | CreateFromOptions _ _ | GetUserMedia => true
  | _ => false
  end.

Definition is_error (e : Event) : bool :=
  match e with ConsoleError _ => true | _ => false end.

End Vision.

(** * Properties *)

(** ** Arithmetic of the p5 helpers *)

Lemma lerp_to_zero (s r : Q) : lerp s 0 r == s * (1 - r).
Proof. unfold lerp. ring. Qed.


Lemma Qmin'_spec (a b : Q) : Qmin' a b <= a /\ Qmin' a b <= b.
Proof.
  unfold Qmin'. destruct (Qltb b a) eqn:E.
  - apply Qltb_lt in E. lra.
  - apply Qltb_ge in E. lra.
Qed.

Lemma constrain_bounds (n low high : Q) :
  low <= high -> low <= constrain n low high /\ constrain n low high <= high.
Proof.
  intros H. unfold constrain, Qmax'.
  destruct (Qmin'_spec n high) as [_ Hm].
  destruct (Qltb (Qmin' n high) low) eqn:E.
  - lra.
  - apply Qltb_ge in E. lra.
Qed.

Lemma map_within (n start1 stop1 start2 stop2 : Q) :
  start2 < stop2 ->
  start2 <= map n start1 stop1 start2 stop2 true
  /\ map n start1 stop1 start2 stop2 true <= stop2.
Proof.
  intros H. unfold map. simpl.
  apply Qltb_lt in H as Hb. rewrite Hb.
  apply constrain_bounds. lra.
Qed.

(** A p5 instance to run the model on: the square root is the integer one
    on numerator and denominator (exact on squares of rationals); cosine
    and sine send every particle straight up and the angle is a crude
    stand-in; every draw is 1/10. *)
Definition Qsqrt (q : Q) : Q :=
  let r := Qred q in Z.sqrt (Qnum r) # Pos.sqrt (Qden r).

Definition demo : p5 :=
  {| width := 800; height := 600; frameCount := 20; millis := 1000;
     cos := fun _ => 0; sin := fun _ => -1;
     atan2 := fun b a => b / (1 + Qabs a + Qabs b); sqrt := Qsqrt;
     rnd := fun _ => 0.1 |}.

Lemma demo_unit_draws : unit_draws demo.
Proof. intros i. simpl. lra. Qed.

Lemma delete_insert_same {A} (l : list A) (i : nat) (v : A) :
  delete i (<[i := v]> l) = delete i l.
Proof.
  revert i. induction l as [|a l IH]; intros [|i]; simpl; try reflexivity.
  f_equal. apply IH.
Qed.

Module TreeProps.
Import Tree.

(** *** A particle's life: construction, then updates and hovers *)

Definition born (k : Particle) : Prop :=
  exists p sx sy sc ss sd sl ls tg c,
    k = fst (new_Particle p sx sy sc ss sd sl ls tg c).

(** [evolves ok k k']: [k'] is [k] after some calls of [update] (under p5
    instances satisfying [ok]) and some hovers. *)
Inductive evolves (ok : p5 -> Prop) : Particle -> Particle -> Prop :=
  | ev_refl (k : Particle) : evolves ok k k
  | ev_update (p : p5) (c : nat) (k k' : Particle) :
      ok p -> evolves ok k k' -> evolves ok k (self (fst (update p k' c)))
  | ev_hover (t a : Q) (k k' : Particle) :
      evolves ok k k' -> evolves ok k (hover t a k').

(** The particles the sketch can hold. *)
Definition grown (k : Particle) : Prop :=
  exists k0, born k0 /\ evolves unit_draws k0 k.

Lemma update_flower_eq (p : p5) (this : Particle) (c : nat) :
  tag this = FLOWER ->
  update p this c = (mkOutcome (update_flower p this) false [] [], c).
Proof. intros H. unfold update. rewrite H. reflexivity. Qed.

Lemma update_tree_self (p : p5) (this : Particle) (c : nat) :
  tag this <> FLOWER ->
  self (fst (update p this c)) = fst (update_move p this c).
Proof.
  intros H. unfold update, is_tag. rewrite bool_decide_eq_false_2 by exact H.
  unfold bind. destruct (update_move p this c) as [this1 c1]. simpl.
  destruct (dies this1); [reflexivity|].
  destruct (update_spawn p this1 c1). reflexivity.
Qed.

Lemma update_tree_dead (p : p5) (this : Particle) (c : nat) :
  tag this <> FLOWER ->
  isDead (fst (update p this c)) = dies (fst (update_move p this c)).
Proof.
  intros H. unfold update, is_tag. rewrite bool_decide_eq_false_2 by exact H.
  unfold bind. destruct (update_move p this c) as [this1 c1]. simpl.
  destruct (dies this1) eqn:E; [reflexivity|].
  destruct (update_spawn p this1 c1). reflexivity.
Qed.

(** What the tree branch leaves of the particle it moves. *)
Lemma update_move_fields (p : p5) (this : Particle) (c : nat) :
  let this' := fst (update_move p this c) in
  tag this' = tag this /\ asiz this' = asiz this /\ spd this' = spd this
  /\ rsiz this' = asiz this * siz this
  /\ siz this' = lerp (siz this) 0 (rnd p (S c) * 0.015).
Proof. unfold update_move, bind, random_in, random_to, random, ret. simpl. tauto. Qed.

Lemma update_tag (p : p5) (this : Particle) (c : nat) :
  tag (self (fst (update p this c))) = tag this.
Proof.
  destruct (decide (tag this = FLOWER)) as [H|H].
  - rewrite update_flower_eq by exact H. reflexivity.
  - rewrite update_tree_self by exact H. apply update_move_fields.
Qed.

Lemma new_Particle_fields (p : p5) (sx sy : Q) (sc : color) (ss sd sl ls : Q)
    (tg : ParticleType) (c : nat) :
  let k := fst (new_Particle p sx sy sc ss sd sl ls tg c) in
  pos k = mkVec sx sy /\ tag k = tg /\ asiz k = ss
  /\ siz k = (if is_tag tg FLOWER then 0 else 1)
  /\ (tg = FLOWER -> spd k = 0)
  /\ lastHoveredTime k = -1000 /\ interactionRotation k = 0.
Proof.
  unfold new_Particle, bind, random_of, random_to, random, ret. simpl.
  destruct tg; simpl; repeat split; intros; try reflexivity; try discriminate.
Qed.




(** *** Flowers *)

Lemma flower_never_dies (p : p5) (this : Particle) (c : nat) :
  tag this = FLOWER -> isDead (fst (update p this c)) = false.
Proof. intros H. rewrite update_flower_eq by exact H. reflexivity. Qed.

Lemma update_flower_keeps (p : p5) (this : Particle) (c : nat) :
  tag this = FLOWER ->
  let this' := self (fst (update p this c)) in
  pos this' = pos this /\ spd this' = spd this /\ tag this' = FLOWER
  /\ asiz this' = asiz this
  /\ (siz this <= 1 -> siz this' <= 1)
  /\ pushed (fst (update p this c)) = []
  /\ recorded (fst (update p this c)) = [].
Proof.
  intros H. cbv zeta. rewrite update_flower_eq by exact H. simpl.
  repeat split; try reflexivity; try assumption.
  intros Hs. destruct (Qltb (siz this) 1) eqn:E; [|exact Hs].
  destruct (Qgtb (siz this + 0.1) 1) eqn:E'; [lra|].
  apply Qgtb_le in E'. exact E'.
Qed.

(** A flower stays where it is, at speed 0 and size factor at most 1,
    whatever is done to it. *)
Lemma flower_stays (ok : p5 -> Prop) (k0 k : Particle) :
  evolves ok k0 k ->
  tag k0 = FLOWER -> spd k0 = 0 -> siz k0 <= 1 ->
  pos k = pos k0 /\ tag k = FLOWER /\ spd k = 0 /\ siz k <= 1
  /\ asiz k = asiz k0.
Proof.
  induction 1 as [k|p c k k' Hok Hev IH|t a k k' Hev IH]; intros Ht Hs Hz.
  - repeat split; try assumption; reflexivity.
  - destruct (IH Ht Hs Hz) as (Hp & Ht' & Hs' & Hz' & Ha).
    destruct (update_flower_keeps p k' c Ht') as (-> & -> & -> & -> & Hle & _).
    repeat split; try assumption. apply Hle, Hz'.
  - simpl. apply IH; assumption.
Qed.

(** *** Death of tree particles *)

(** The calls of [update] made on one particle, one per frame, each with
    the p5 instance of its frame and the generator position it starts
    from: [None] as soon as a call has returned [true]. *)
Fixpoint updates (calls : list (p5 * nat)) (this : Particle) : option Particle :=
  match calls with
  | [] => Some this
  | (p, c) :: rest =>
    let o := fst (update p this c) in
    if isDead o then None else updates rest (self o)
  end.

(** Every draw of every call is at least [eps] (and below 1). *)
Definition draws_above (eps : Q) (calls : list (p5 * nat)) : Prop :=
  forall p c, In (p, c) calls -> forall i, eps <= rnd p i /\ rnd p i < 1.



(** The number of calls after which a tree particle is certainly dead. *)
Definition death_bound (eps : Q) (this : Particle) : nat :=
  S (S (Z.to_nat (Qceiling (10 * Qabs (asiz this * siz this) / (0.015 * eps))))).


(** *** What [update] pushes *)

Lemma new_Particle_tag (p : p5) (sx sy : Q) (sc : color) (ss sd sl ls : Q)
    (tg : ParticleType) (c : nat) :
  tag (fst (new_Particle p sx sy sc ss sd sl ls tg c)) = tg.
Proof. apply new_Particle_fields. Qed.

(** A computation that yields no particle or one of a given tag. *)
Definition yields (tg : ParticleType) (m : Rand (list Particle)) : Prop :=
  forall c, Forall (fun k => tag k = tg) (fst (m c)).

Lemma yields_nil (tg : ParticleType) : yields tg (ret []).
Proof. intros c. apply Forall_nil_2. Qed.

Lemma yields_new (tg : ParticleType) (m : Rand Particle) :
  (forall c, tag (fst (m c)) = tg) -> yields tg (k <- m ;; ret [k]).
Proof.
  intros H c. unfold bind, ret. specialize (H c).
  destruct (m c) as [k c']. simpl in *. apply Forall_cons_2; [exact H|].
  apply Forall_nil_2.
Qed.

Lemma yields_bind {A} (tg : ParticleType) (m : Rand A)
    (f : A -> Rand (list Particle)) :
  (forall a, yields tg (f a)) -> yields tg (a <- m ;; f a).
Proof. intros H c. unfold bind. destruct (m c) as [a c']. apply H. Qed.

Lemma yields_if (tg : ParticleType) (b : bool) (m1 m2 : Rand (list Particle)) :
  yields tg m1 -> yields tg m2 -> yields tg (if b then m1 else m2).
Proof. destruct b; auto. Qed.

Create HintDb yields.
#[local] Hint Resolve yields_nil yields_new yields_bind yields_if
  new_Particle_tag : yields.

Lemma spawn_branch_yields (p : p5) (this : Particle) :
  yields BRANCH (spawn_branch p this).
Proof. unfold spawn_branch. auto 10 with yields. Qed.

Lemma fork_branch_yields (p : p5) (this : Particle) :
  yields BRANCH (fork_branch p this).
Proof. unfold fork_branch. auto 10 with yields. Qed.

Lemma spawn_twig_yields (p : p5) (this : Particle) :
  yields TWIG (spawn_twig p this).
Proof. unfold spawn_twig. cbv zeta. auto 10 with yields. Qed.

Lemma update_spawn_tags (p : p5) (this : Particle) (c : nat) :
  Forall (fun k => tag k <> FLOWER) (fst (update_spawn p this c)).
Proof.
  unfold update_spawn, bind, ret.
  pose proof (spawn_branch_yields p this c) as H1.
  destruct (spawn_branch p this c) as [kids1 c1].
  pose proof (fork_branch_yields p this c1) as H2.
  destruct (fork_branch p this c1) as [kids2 c2].
  pose proof (spawn_twig_yields p this c2) as H3.
  destruct (spawn_twig p this c2) as [kids3 c3]. simpl in *.
  repeat apply Forall_app_2;
    (eapply Forall_impl; [eassumption|]); simpl; intros k ->; discriminate.
Qed.

Lemma update_effects (p : p5) (this : Particle) (c : nat) :
  let o := fst (update p this c) in
  Forall (fun k => tag k <> FLOWER) (pushed o)
  /\ (recorded o = [] \/ recorded o = [pos (self o)])
  /\ (isDead o = true -> pushed o = [] /\ recorded o = [])
  /\ (tag this = FLOWER -> recorded o = []).
Proof.
  cbv zeta. destruct (decide (tag this = FLOWER)) as [H|H].
  - rewrite update_flower_eq by exact H. simpl.
    repeat split; auto; discriminate.
  - unfold update, is_tag. rewrite bool_decide_eq_false_2 by exact H.
    unfold bind. destruct (update_move p this c) as [this1 c1].
    destruct (dies this1).
    + simpl. repeat split; auto; contradiction.
    + pose proof (update_spawn_tags p this1 c1) as Hk.
      destruct (update_spawn p this1 c1) as [kids c2]. simpl in *.
      repeat split; auto; try discriminate; try contradiction.
      destruct ((frameCount p mod 5 =? 0)%Z && Qltb (y (pos this1)) (height p * 0.7));
        [right|left]; [destruct (pos this1)|]; reflexivity.
Qed.

(** *** Spawning a flower *)

(** The sketch variables the hand handler keeps for itself. *)
Definition hand_state (s : Sketch) : option Vec * Z * option Vec * Q :=
  (prevIndexPos s, fingerStillFrames s, wandPos s, lastVideoTime s).

(** [s'] is [s] with one more flower [k] at the end of [parts]: only
    [parts] and the generator have changed. *)
Definition pushes (k : Particle) (s s' : Sketch) : Prop :=
  parts s' = parts s ++ [k]
  /\ treePositions s' = treePositions s
  /\ hand_state s' = hand_state s
  /\ treeLayer s' = treeLayer s
  /\ trail s' = trail s.

Lemma spawnFlower_spec (p : p5) (x0 y0 : Q) (ratio : option Q) (s : Sketch) :
  exists k,
    pushes k s (spawnFlower p x0 y0 ratio s)
    /\ pos k = mkVec x0 y0 /\ tag k = FLOWER
    /\ 10 <= asiz k /\ asiz k <= 35
    /\ siz k = 0 /\ spd k = 0
    /\ lastHoveredTime k = -1000 /\ interactionRotation k = 0.
Proof.
  unfold spawnFlower, drawing, bind.
  destruct (random_of p PALETTE_flowers undefined_color (seed s)) as [fc c1].
  pose proof (new_Particle_fields p x0 y0 fc
                (map (default 0.1 ratio) 0.05 0.3 10 35 true) 0 0 0 FLOWER c1)
    as (Hpos & Htag & Hasiz & Hsiz & Hspd & Hh & Hr).
  destruct (new_Particle p x0 y0 fc _ 0 0 0 FLOWER c1) as [k c2].
  simpl in *. exists k.
  split; [repeat split|].
  destruct (map_within (default 0.1 ratio) 0.05 0.3 10 35) as [Hlo Hhi];
    [reflexivity|].
  rewrite Hasiz. repeat split; auto.
Qed.

(** *** Painting *)

Lemma scan_spec (near : Vec -> bool) (tp : list Vec) (n i : nat) (pt : Vec) :
  scan near tp n = Some (i, pt) ->
  tp !! i = Some pt /\ near pt = true /\ (i < n)%nat.
Proof.
  induction n as [|n IH]; simpl; [discriminate|].
  destruct (tp !! n) as [q|] eqn:E.
  - destruct (near q) eqn:Hq.
    + intros [= <- <-]. repeat split; auto.
    + intros H. destruct (IH H) as (? & ? & ?). repeat split; auto.
  - intros H. destruct (IH H) as (? & ? & ?). repeat split; auto.
Qed.

(** [s'] is [s] after flowers bloomed: [parts] has grown by flowers
    satisfying [P], each taking one entry away from [treePositions] and
    sitting at that entry; nothing else but the generator has changed. *)
Definition bloomed (P : Particle -> Prop) (s s' : Sketch) : Prop :=
  exists new,
    parts s' = parts s ++ new
    /\ Forall (fun k => tag k = FLOWER /\ P k) new
    /\ treePositions s ≡ₚ treePositions s' ++ (pos <$> new)
    /\ hand_state s' = hand_state s
    /\ treeLayer s' = treeLayer s
    /\ trail s' = trail s.

Lemma bloomed_refl (P : Particle -> Prop) (s : Sketch) : bloomed P s s.
Proof.
  exists []. rewrite !app_nil_r. repeat split; auto.
Qed.

Lemma bloomed_trans (P : Particle -> Prop) (s1 s2 s3 : Sketch) :
  bloomed P s1 s2 -> bloomed P s2 s3 -> bloomed P s1 s3.
Proof.
  intros (n1 & Hp1 & Hf1 & Ht1 & Hh1 & Hl1 & Hr1)
         (n2 & Hp2 & Hf2 & Ht2 & Hh2 & Hl2 & Hr2).
  exists (n1 ++ n2). repeat split; try congruence.
  - rewrite Hp2, Hp1, app_assoc. reflexivity.
  - apply Forall_app_2; assumption.
  - rewrite Ht1, Ht2, fmap_app.
    rewrite <- !app_assoc. apply Permutation_app_head, Permutation_app_comm.
Qed.

(** The flowers the probes can spawn: of the clamped size, never hovered,
    sitting within the search radius of a probe at one of the fractions [t]
    the loop goes through ([from] says which). *)
Definition painted (p : p5) (prev cur : Vec) (from : Q -> Prop) (k : Particle)
    : Prop :=
  10 <= asiz k /\ asiz k <= 35
  /\ lastHoveredTime k = -1000 /\ interactionRotation k = 0
  /\ exists t,
       from t
       /\ dist p (lerp (x prev) (x cur) t) (lerp (y prev) (y cur) t)
            (x (pos k)) (y (pos k)) < searchRadius.

Lemma bloomed_impl (P Q : Particle -> Prop) (s s' : Sketch) :
  (forall k, P k -> Q k) -> bloomed P s s' -> bloomed Q s s'.
Proof.
  intros HPQ (new & Hp & Hnew & Hrest). exists new.
  split; [exact Hp|]. split; [|exact Hrest].
  eapply Forall_impl; [exact Hnew|]. intros k [Ht HP]. auto.
Qed.

(** The fractions the painting loop goes through lie on the way from the
    previous tip to the current one. *)
Lemma probes_fractions (v : Q) (s : Sketch) (t : Q) :
  Some t ∈ probes v s ->
  exists j : Z,
    (0 <= j <= steps v)%Z /\ fraction j (steps v) = Some t
    /\ 0 <= t /\ t <= 1.
Proof.
  unfold probes. destruct (treePositions s); [intros H; inversion H|].
  destruct (prevIndexPos s); [|intros H; inversion H].
  intros H. apply list_elem_of_In, in_map_iff in H as (j & Hj & Hin).
  unfold rounds in Hin. apply in_map_iff in Hin as (i & <- & Hi).
  apply in_seq in Hi.
  assert (Hr : (0 <= Z.of_nat i <= steps v)%Z) by lia.
  exists (Z.of_nat i). split; [exact Hr|]. split; [exact Hj|].
  unfold fraction in Hj.
  destruct (steps v =? 0)%Z eqn:E; [discriminate|].
  apply Z.eqb_neq in E. injection Hj as <-.
  assert (Hs : 0 < inject_Z (steps v)).
  { change 0 with (inject_Z 0). rewrite <- Zlt_Qlt. lia. }
  assert (Hi0 : 0 <= inject_Z (Z.of_nat i)).
  { change 0 with (inject_Z 0). rewrite <- Zle_Qle. lia. }
  assert (Hi1 : inject_Z (Z.of_nat i) <= inject_Z (steps v)).
  { rewrite <- Zle_Qle. lia. }
  split.
  - apply Qle_shift_div_l; [exact Hs|]. lra.
  - apply Qle_shift_div_r; [exact Hs|]. lra.
Qed.

Lemma probe_bloomed (p : p5) (prev cur : Vec) (ratio : Q) (t : option Q)
    (s : Sketch) :
  bloomed (painted p prev cur (fun t0 => t = Some t0)) s
    (probe p prev cur ratio t s)
  /\ (length (parts (probe p prev cur ratio t s)) <= S (length (parts s)))%nat.
Proof.
  unfold probe.
  destruct (scan _ (treePositions s) (length (treePositions s)))
    as [[i pt]|] eqn:E; [|split; [apply bloomed_refl|lia]].
  apply scan_spec in E as (Hi & Hnear & _).
  destruct (spawnFlower_spec p (x pt) (y pt) (Some ratio) s)
    as (k & (Hp & Ht & Hh & Hl & Hr) & Hpos & Htag & Hlo & Hhi & _ & _ & Hho & Hro).
  remember (spawnFlower p (x pt) (y pt) (Some ratio) s) as s1 eqn:Es1.
  clear Es1. split.
  - exists [k]. simpl. rewrite Ht. repeat split; auto.
    + apply Forall_cons_2; [|apply Forall_nil_2].
      split; [exact Htag|]. unfold painted. repeat split; auto.
      destruct t as [t|]; [|discriminate]. exists t.
      split; [reflexivity|].
      rewrite Hpos. simpl. apply Qltb_lt. exact Hnear.
    + rewrite Hpos. destruct pt as [px py]. simpl.
      rewrite (delete_Permutation _ _ _ Hi) at 1.
      apply Permutation_cons_append.
  - simpl. rewrite Hp, length_app. simpl. lia.
Qed.

Lemma probes_bloomed (p : p5) (prev cur : Vec) (ratio : Q)
    (all : list (option Q)) (ts : list (option Q)) :
  forall s : Sketch,
  (forall t, t ∈ ts -> t ∈ all) ->
  let s' := fold_left (fun s t => probe p prev cur ratio t s) ts s in
  bloomed (painted p prev cur (fun t => Some t ∈ all)) s s'
  /\ (length (parts s') <= length (parts s) + length ts)%nat.
Proof.
  induction ts as [|t ts IH]; intros s Hsub; simpl.
  - split; [apply bloomed_refl|lia].
  - destruct (probe_bloomed p prev cur ratio t s) as [Hb Hl].
    destruct (IH (probe p prev cur ratio t s)) as [Hb' Hl'].
    { intros t' Ht'. apply Hsub. right. exact Ht'. }
    split; [|lia].
    eapply bloomed_trans; [|exact Hb'].
    eapply bloomed_impl; [|exact Hb].
    intros k (H1 & H2 & H3 & H4 & t0 & -> & Hd).
    repeat split; auto. exists t0. split; [|exact Hd].
    apply Hsub. left.
Qed.

Lemma paint_bloomed (p : p5) (cur : Vec) (ratio v : Q) (s : Sketch) :
  bloomed (painted p (default cur (prevIndexPos s)) cur
             (fun t => Some t ∈ probes v s))
    s (paint p cur ratio v s)
  /\ (length (parts (paint p cur ratio v s))
      <= length (parts s) + length (probes v s))%nat.
Proof.
  unfold paint. destruct (prevIndexPos s) as [prev|] eqn:E; simpl;
    [|split; [apply bloomed_refl|lia]].
  apply (probes_bloomed p prev cur ratio (probes v s) (probes v s) s).
  auto.
Qed.

(** *** The still-finger gesture *)

(** [f], at index [j] of [ps], is the flower the loop settles on when it
    starts from distance [d0]: closer than [d0], no flower of [ps] is
    closer, and every flower before it is strictly further. *)
Definition is_closest (p : p5) (x0 y0 d0 : Q) (ps : list Particle) (j : nat)
    (f : Particle) : Prop :=
  ps !! j = Some f /\ tag f = FLOWER
  /\ dist_to p x0 y0 (pos f) < d0
  /\ (forall j' g, ps !! j' = Some g -> tag g = FLOWER ->
       dist_to p x0 y0 (pos f) <= dist_to p x0 y0 (pos g))
  /\ (forall j' g, (j' < j)%nat -> ps !! j' = Some g -> tag g = FLOWER ->
       dist_to p x0 y0 (pos f) < dist_to p x0 y0 (pos g)).

Lemma closest_spec (p : p5) (x0 y0 : Q) (ps : list Particle) :
  forall (i : nat) (d0 : Q) (b0 : option nat),
  let r := closest p x0 y0 ps i (d0, b0) in
  (r = (d0, b0)
   /\ forall j g, ps !! j = Some g -> tag g = FLOWER ->
        d0 <= dist_to p x0 y0 (pos g))
  \/ (exists j f, r = (dist_to p x0 y0 (pos f), Some (i + j)%nat)
                /\ is_closest p x0 y0 d0 ps j f).
Proof.
  induction ps as [|part ps IH]; intros i d0 b0; cbv zeta.
  - left. split; [reflexivity|]. intros j g Hj. destruct j; discriminate.
  - simpl closest.
    set (d := dist_to p x0 y0 (pos part)).
    destruct (is_tag (tag part) FLOWER) eqn:Ef.
    2:{ assert (Hnf : tag part <> FLOWER)
          by (unfold is_tag in Ef; apply bool_decide_eq_false in Ef; exact Ef).
        destruct (IH (S i) d0 b0) as [[Hr Hall]|(j & f & Hr & Hj & Hf & Hd & Hmin & Hfirst)].
        - left. split; [exact Hr|]. intros [|j] g Hg Hgf.
          + injection Hg as <-. contradiction.
          + eapply Hall; eassumption.
        - right. exists (S j), f. split.
          + rewrite Hr. f_equal. f_equal. lia.
          + repeat split; auto.
            * intros [|j'] g Hg Hgf.
              -- injection Hg as <-. contradiction.
              -- eapply Hmin; eassumption.
            * intros [|j'] g Hlt Hg Hgf.
              -- injection Hg as <-. contradiction.
              -- eapply Hfirst; [|eassumption|assumption]. lia. }
    assert (Hpf : tag part = FLOWER)
      by (unfold is_tag in Ef; apply bool_decide_eq_true in Ef; exact Ef).
    fold d. destruct (Qltb d d0) eqn:Ed.
    + apply Qltb_lt in Ed.
      destruct (IH (S i) d (Some i)) as [[Hr Hall]|(j & f & Hr & Hj & Hf & Hd & Hmin & Hfirst)].
      * right. exists O, part. split.
        -- rewrite Hr. f_equal. f_equal. lia.
        -- repeat split; auto.
           ++ intros [|j'] g Hg Hgf.
              ** injection Hg as <-. fold d. lra.
              ** eapply Hall; eassumption.
           ++ intros j' g Hlt. lia.
      * right. exists (S j), f. split.
        -- rewrite Hr. f_equal. f_equal. lia.
        -- repeat split; auto.
           ++ lra.
           ++ intros [|j'] g Hg Hgf.
              ** injection Hg as <-. fold d. lra.
              ** eapply Hmin; eassumption.
           ++ intros [|j'] g Hlt Hg Hgf.
              ** injection Hg as <-. fold d. lra.
              ** eapply Hfirst; [|eassumption|assumption]. lia.
    + apply Qltb_ge in Ed.
      destruct (IH (S i) d0 b0) as [[Hr Hall]|(j & f & Hr & Hj & Hf & Hd & Hmin & Hfirst)].
      * left. split; [exact Hr|]. intros [|j] g Hg Hgf.
        -- injection Hg as <-. fold d. exact Ed.
        -- eapply Hall; eassumption.
      * right. exists (S j), f. split.
        -- rewrite Hr. f_equal. f_equal. lia.
        -- repeat split; auto.
           ++ intros [|j'] g Hg Hgf.
              ** injection Hg as <-. fold d. lra.
              ** eapply Hmin; eassumption.
           ++ intros [|j'] g Hlt Hg Hgf.
              ** injection Hg as <-. fold d. lra.
              ** eapply Hfirst; [|eassumption|assumption]. lia.
Qed.

Lemma magnify_spec (p : p5) (x0 y0 : Q) (wrist : Landmark) (s : Sketch) :
  let s' := magnify p x0 y0 wrist s in
  treePositions s' = treePositions s
  /\ hand_state s' = hand_state s
  /\ treeLayer s' = treeLayer s /\ trail s' = trail s /\ seed s' = seed s
  /\ ((parts s' = parts s
       /\ forall j g, parts s !! j = Some g -> tag g = FLOWER ->
            50 <= dist_to p x0 y0 (pos g))
      \/ exists i f,
           is_closest p x0 y0 50 (parts s) i f
           /\ parts s' =
              <[i := hover (millis p) (fingerAngle p x0 y0 wrist) f]> (parts s)).
Proof.
  cbv zeta. unfold magnify.
  destruct (closest_spec p x0 y0 (parts s) O 50 None)
    as [[Hr Hall]|(j & f & Hr & Hc)]; cbv zeta in Hr; rewrite Hr; simpl.
  - repeat split; auto.
  - repeat split; auto. right. exists j, f. split; [exact Hc|].
    destruct Hc as (Hj & _).
    rewrite list_insert_alter. apply list_alter_ext; [|reflexivity].
    intros g Hg. rewrite Hj in Hg. injection Hg as <-. reflexivity.
Qed.

(** *** handleHandInteraction *)

(** The handler on a hand with all its landmarks. *)
Lemma handle_hand (p : p5) (landmarks : list Landmark)
    (rest : HandLandmarkerResult) (s : Sketch)
    (indexTip wrist indexBase middle ring pinky : Landmark) :
  landmarks !! 8%nat = Some indexTip -> landmarks !! 0%nat = Some wrist ->
  landmarks !! 5%nat = Some indexBase -> landmarks !! 12%nat = Some middle ->
  landmarks !! 16%nat = Some ring -> landmarks !! 20%nat = Some pinky ->
  let tip := screen p indexTip in
  let v := velocity p tip (prevIndexPos s) in
  let s2 :=
    set_fingerStillFrames (stillFrames v (fingerStillFrames s))
      (set_wandPos (Some (follow (wandPos s) tip)) s) in
  handleHandInteraction p (landmarks :: rest) s =
  set_prevIndexPos (Some tip)
    (if isPointing p wrist indexTip middle ring pinky
        && (stillFrames v (fingerStillFrames s) >? 10)%Z
     then magnify p (x tip) (y tip) wrist s2
     else paint p tip (handScreenSizeRatio p wrist indexBase) v s2).
Proof.
  intros H8 H0 H5 H12 H16 H20. cbv zeta. unfold handleHandInteraction.
  rewrite H8, H0, H5, H12, H16, H20. reflexivity.
Qed.

(** What a call of the handler can have done to [parts] and
    [treePositions]: at most one flower of [parts] hovered, flowers
    appended, each for one entry taken out of [treePositions]. *)
Definition handled (s s' : Sketch) : Prop :=
  exists old new,
    parts s' = old ++ new
    /\ (old = parts s
        \/ exists i f t a, parts s !! i = Some f /\ tag f = FLOWER
                         /\ old = <[i := hover t a f]> (parts s))
    /\ Forall (fun k => tag k = FLOWER) new
    /\ treePositions s ≡ₚ treePositions s' ++ (pos <$> new)
    /\ treeLayer s' = treeLayer s /\ trail s' = trail s
    /\ lastVideoTime s' = lastVideoTime s.

Lemma hand_state_eq (s s' : Sketch) :
  hand_state s' = hand_state s ->
  prevIndexPos s' = prevIndexPos s
  /\ fingerStillFrames s' = fingerStillFrames s
  /\ wandPos s' = wandPos s /\ lastVideoTime s' = lastVideoTime s.
Proof. unfold hand_state. intros [= -> -> -> ->]. repeat split. Qed.

Lemma handled_same (s s' : Sketch) :
  parts s' = parts s -> treePositions s' = treePositions s ->
  treeLayer s' = treeLayer s -> trail s' = trail s ->
  lastVideoTime s' = lastVideoTime s -> handled s s'.
Proof.
  intros Hp Ht Hl Hr Hv. exists (parts s), [].
  rewrite !app_nil_r, Ht. repeat split; auto.
Qed.

Lemma handled_bloomed (P : Particle -> Prop) (s s1 s2 s' : Sketch) :
  parts s1 = parts s -> treePositions s1 = treePositions s ->
  treeLayer s1 = treeLayer s -> trail s1 = trail s ->
  lastVideoTime s1 = lastVideoTime s ->
  bloomed P s1 s2 ->
  parts s' = parts s2 -> treePositions s' = treePositions s2 ->
  treeLayer s' = treeLayer s2 -> trail s' = trail s2 ->
  lastVideoTime s' = lastVideoTime s2 -> handled s s'.
Proof.
  intros Hp Ht Hl Hr Hv (new & Hp2 & Hf & Ht2 & Hh & Hl2 & Hr2) Hp' Ht' Hl' Hr' Hv'.
  exists (parts s), new. rewrite Hp', Hp2, Hp, Ht', <- Ht, Ht2.
  repeat split; auto; try congruence.
  - eapply Forall_impl; [exact Hf|]. simpl. tauto.
  - unfold hand_state in Hh. congruence.
Qed.

Lemma handle_handled (p : p5) (result : HandLandmarkerResult) (s : Sketch) :
  handled s (handleHandInteraction p result s).
Proof.
  unfold handleHandInteraction.
  destruct result as [|landmarks rest]; [apply handled_same; reflexivity|].
  destruct (landmarks !! 8%nat) as [indexTip|]; [|apply handled_same; reflexivity].
  destruct (landmarks !! 0%nat) as [wrist|]; [|apply handled_same; reflexivity].
  destruct (landmarks !! 5%nat) as [indexBase|]; [|apply handled_same; reflexivity].
  cbv zeta.
  destruct (landmarks !! 12%nat) as [middle|]; [|apply handled_same; reflexivity].
  destruct (landmarks !! 16%nat) as [ring|]; [|apply handled_same; reflexivity].
  destruct (landmarks !! 20%nat) as [pinky|]; [|apply handled_same; reflexivity].
  match goal with
  | |- context [if ?b then magnify ?p ?a ?b' ?w ?s2 else paint ?p ?c ?r ?v ?s2] =>
      destruct b;
      [ pose proof (magnify_spec p a b' w s2) as Hm; cbv zeta in Hm;
        set (fa := fingerAngle p a b' w) in *; clearbody fa;
        set (s3 := magnify p a b' w s2) in *; clearbody s3;
        destruct Hm as (Ht & Hh & Hl & Hr & _ & [[Hp _]|(i & f & Hc & Hp)])
      | pose proof (paint_bloomed p c r v s2) as [Hb _];
        set (s3 := paint p c r v s2) in *; clearbody s3 ]
  end.
  - apply hand_state_eq in Hh as (_ & _ & _ & Hv).
    simpl in Ht, Hl, Hr, Hp, Hv. apply handled_same; simpl; congruence.
  - apply hand_state_eq in Hh as (_ & _ & _ & Hv).
    simpl in Ht, Hl, Hr, Hp, Hv, Hc.
    exists (<[i := hover (millis p) fa f]> (parts s)), [].
    simpl. rewrite Hp, Ht, Hl, Hr, Hv, !app_nil_r.
    destruct Hc as (Hi & Hf & _).
    repeat split; auto.
    right. exists i, f. eauto.
  - eapply handled_bloomed; [..|exact Hb| | | | |]; reflexivity.
Qed.

(** *** The particle loop of [p.draw] *)

Lemma draw_part_spec (p : p5) (i : nat) (s : Sketch) (part : Particle) :
  parts s !! i = Some part ->
  let o := fst (update p part (seed s)) in
  let s' := draw_part p i s in
  parts s' =
    (if isDead o then delete i (parts s) else <[i := self o]> (parts s))
    ++ pushed o
  /\ treePositions s' = treePositions s ++ recorded o
  /\ trail s' =
     (if is_tag (tag part) FLOWER then trail s else trail s ++ [pos (self o)])
  /\ hand_state s' = hand_state s.
Proof.
  intros Hi. cbv zeta. unfold draw_part. rewrite Hi. unfold drawing.
  pose proof (update_effects p part (seed s)) as (_ & _ & Hdead & _).
  cbv zeta in Hdead.
  destruct (update p part (seed s)) as [o c1]. simpl fst in *.
  destruct (isDead o) eqn:Hd.
  - destruct (Hdead eq_refl) as [-> ->].
    destruct (is_tag (tag part) FLOWER); simpl;
      rewrite !app_nil_r, delete_insert_same; repeat split.
  - destruct (is_tag (tag part) FLOWER), (is_tag (tag (self o)) FLOWER);
      simpl; repeat split.
Qed.

Lemma draw_part_none (p : p5) (i : nat) (s : Sketch) :
  parts s !! i = None -> draw_part p i s = s.
Proof. intros H. unfold draw_part. rewrite H. reflexivity. Qed.


(** *** Flowers sit where the tree has been *)

Definition on_tree (s : Sketch) : Prop :=
  Forall (fun pt => pt ∈ trail s) (treePositions s)
  /\ Forall (fun k => tag k = FLOWER -> pos k ∈ trail s) (parts s).

Lemma draw_part_on_tree (p : p5) (i : nat) (s : Sketch) :
  on_tree s -> on_tree (draw_part p i s).
Proof.
  intros [Htp Hps].
  destruct (parts s !! i) as [part|] eqn:Hi;
    [|rewrite draw_part_none by exact Hi; split; assumption].
  destruct (draw_part_spec p i s part Hi) as (Hp & Ht & Hr & _).
  destruct (update_effects p part (seed s)) as (Hkids & Hrec & _ & Hfrec).
  pose proof (update_tag p part (seed s)) as Htag.
  set (o := fst (update p part (seed s))) in *.
  assert (Hsub : forall pt, pt ∈ trail s -> pt ∈ trail (draw_part p i s)).
  { intros pt Hin. rewrite Hr. destruct (is_tag (tag part) FLOWER); [exact Hin|].
    apply elem_of_app. left. exact Hin. }
  assert (Hself : tag (self o) = FLOWER -> pos (self o) ∈ trail (draw_part p i s)).
  { intros Hf. rewrite Htag in Hf.
    destruct (update_flower_keeps p part (seed s) Hf) as (Hpos & _).
    fold o in Hpos. rewrite Hpos. apply Hsub.
    rewrite Forall_forall in Hps. apply (Hps part); [|exact Hf].
    eapply list_elem_of_lookup_2. exact Hi. }
  split.
  - rewrite Ht. apply Forall_app_2.
    + eapply Forall_impl; [exact Htp|]. exact Hsub.
    + destruct (decide (tag part = FLOWER)) as [Hf|Hf].
      { rewrite (Hfrec Hf). apply Forall_nil_2. }
      destruct Hrec as [->| ->]; [apply Forall_nil_2|].
      apply Forall_cons_2; [|apply Forall_nil_2].
      rewrite Hr. unfold is_tag. rewrite bool_decide_eq_false_2 by exact Hf.
      apply elem_of_app. right. apply list_elem_of_singleton. reflexivity.
  - rewrite Hp. apply Forall_app_2.
    + assert (Hps' : Forall (fun k => tag k = FLOWER -> pos k ∈ trail (draw_part p i s))
                       (parts s)).
      { eapply Forall_impl; [exact Hps|]. simpl. intros k Hk Hf. auto. }
      destruct (isDead o).
      * apply Forall_delete. exact Hps'.
      * apply Forall_insert; [exact Hps'|exact Hself].
    + eapply Forall_impl; [exact Hkids|]. simpl. intros k Hk Hf. contradiction.
Qed.

Lemma draw_loop_on_tree (p : p5) (n : nat) (s : Sketch) :
  on_tree s -> on_tree (draw_loop p n s).
Proof.
  revert s. induction n as [|n IH]; intros s H; simpl; [exact H|].
  apply IH, draw_part_on_tree, H.
Qed.

Lemma handled_on_tree (s s' : Sketch) :
  handled s s' -> on_tree s -> on_tree s'.
Proof.
  intros (old & new & Hp & Hold & Hnew & Hperm & _ & Hr & _) [Htp Hps].
  assert (Hin : forall pt, pt ∈ treePositions s' ++ (pos <$> new) -> pt ∈ trail s').
  { intros pt Hpt. rewrite Hr. rewrite Forall_forall in Htp. apply Htp.
    rewrite Hperm. exact Hpt. }
  split.
  - apply Forall_forall. intros pt Hpt. apply Hin, elem_of_app. left. exact Hpt.
  - rewrite Hp. apply Forall_app_2.
    + rewrite Hr. destruct Hold as [->|(i & f & t & a & Hi & Hf & ->)];
        [exact Hps|].
      apply Forall_insert; [exact Hps|]. simpl. intros _.
      rewrite Forall_forall in Hps. apply (Hps f); [|exact Hf].
      eapply list_elem_of_lookup_2. exact Hi.
    + apply Forall_forall. intros k Hk _. apply Hin, elem_of_app. right.
      apply list_elem_of_fmap. exists k. split; [reflexivity|exact Hk].
Qed.

Lemma plant_spec (p : p5) (angle : Q) (s : Sketch) :
  exists k, pushes k s (plant p angle s) /\ tag k = TRUNK.
Proof.
  unfold plant, drawing, bind.
  destruct (random_in p (-2) 2 (seed s)) as [dx c1].
  pose proof (new_Particle_tag p (width p / 2 + dx) (height p * 0.95)
                PALETTE_trunk 100 angle 0 500 TRUNK c1) as H.
  destruct (new_Particle p _ _ _ _ angle _ _ _ c1) as [k c2].
  exists k. split; [repeat split|exact H].
Qed.

Lemma startTree_spec (p : p5) (s : Sketch) :
  exists k1 k2,
    parts (startTree p s) = parts s ++ [k1; k2]
    /\ tag k1 = TRUNK /\ tag k2 = TRUNK
    /\ treePositions (startTree p s) = treePositions s
    /\ trail (startTree p s) = trail s
    /\ hand_state (startTree p s) = hand_state s.
Proof.
  unfold startTree.
  destruct (plant_spec p 260 s) as (k1 & (Hp1 & Ht1 & Hh1 & _ & Hr1) & Hk1).
  destruct (plant_spec p 280 (plant p 260 s))
    as (k2 & (Hp2 & Ht2 & Hh2 & _ & Hr2) & Hk2).
  exists k1, k2. rewrite Hp2, Hp1, <- app_assoc.
  repeat split; auto; congruence.
Qed.

Lemma startTree_on_tree (p : p5) (s : Sketch) :
  parts s = [] -> treePositions s = [] -> on_tree (startTree p s).
Proof.
  intros Hp Ht.
  destruct (startTree_spec p s) as (k1 & k2 & Hp' & H1 & H2 & Ht' & _).
  split.
  - rewrite Ht', Ht. apply Forall_nil_2.
  - rewrite Hp', Hp. simpl.
    repeat (apply Forall_cons_2 || apply Forall_nil_2); intros Hf; congruence.
Qed.

Lemma draw_on_tree (p : p5) (v : Video) (s : Sketch) :
  on_tree s -> on_tree (draw p v s).
Proof.
  intros H. unfold draw. apply draw_loop_on_tree.
  destruct (ready v && negb (Qeq_bool (currentTime v) (lastVideoTime s)));
    [|exact H].
  destruct (detectForVideo v) as [result|]; [|exact H].
  eapply handled_on_tree; [apply handle_handled|exact H].
Qed.

Lemma setup_on_tree (p : p5) : on_tree (setup p).
Proof. unfold setup. apply startTree_on_tree; reflexivity. Qed.

Lemma windowResized_on_tree (p : p5) (s : Sketch) : on_tree (windowResized p s).
Proof. unfold windowResized. apply startTree_on_tree; reflexivity. Qed.

Lemma step_on_tree (s s' : Sketch) : step s s' -> on_tree s -> on_tree s'.
Proof.
  intros [p v s0|p s0] H.
  - exact (draw_on_tree p v s0 H).
  - exact (windowResized_on_tree p s0).
Qed.

Lemma reachable_on_tree (s : Sketch) : reachable s -> on_tree s.
Proof.
  induction 1 as [p|s s' Hs IH Hstep].
  - exact (setup_on_tree p).
  - exact (step_on_tree s s' Hstep IH).
Qed.

(** The particle loop leaves the hand handler's variables alone and only
    appends to [treePositions]. *)
Lemma draw_loop_frame (p : p5) (n : nat) (s : Sketch) :
  hand_state (draw_loop p n s) = hand_state s
  /\ exists more, treePositions (draw_loop p n s) = treePositions s ++ more.
Proof.
  revert s. induction n as [|n IH]; intros s; simpl.
  - split; [reflexivity|]. exists []. rewrite app_nil_r. reflexivity.
  - destruct (IH (draw_part p n s)) as (Hh & more & Ht).
    destruct (parts s !! n) as [part|] eqn:Hn.
    + destruct (draw_part_spec p n s part Hn) as (_ & Ht' & _ & Hh').
      split; [congruence|].
      eexists. rewrite Ht, Ht', <- app_assoc. reflexivity.
    + rewrite draw_part_none in * by exact Hn. split; [exact Hh|].
      exists more. exact Ht.
Qed.

End TreeProps.

Module Tree0Props.
Import Tree0.

(** *** A particle's life *)

Definition born (k : Particle) : Prop :=
  exists p sx sy sc ss sd sl ls tg c,
    k = fst (new_Particle p sx sy sc ss sd sl ls tg c).

Inductive evolves (ok : p5 -> Prop) : Particle -> Particle -> Prop :=
  | ev_refl (k : Particle) : evolves ok k k
  | ev_update (p : p5) (c : nat) (k k' : Particle) :
      ok p -> evolves ok k k' -> evolves ok k (self (fst (update p k' c))).

Definition grown (k : Particle) : Prop :=
  exists k0, born k0 /\ evolves unit_draws k0 k.

Lemma update_flower_eq0 (p : p5) (this : Particle) (c : nat) :
  tag this = FLOWER ->
  update p this c =
  (mkOutcome (fst (update_flower this)) (snd (update_flower this)) [] [], c).
Proof. intros H. unfold update. rewrite H. reflexivity. Qed.

Lemma update_tree_self0 (p : p5) (this : Particle) (c : nat) :
  tag this <> FLOWER ->
  self (fst (update p this c)) = fst (update_move p this c).
Proof.
  intros H. unfold update, is_tag. rewrite bool_decide_eq_false_2 by exact H.
  unfold bind. destruct (update_move p this c) as [this1 c1]. simpl.
  destruct (dies this1); [reflexivity|].
  destruct (update_spawn p this1 c1). reflexivity.
Qed.


Lemma update_move_fields0 (p : p5) (this : Particle) (c : nat) :
  let this' := fst (update_move p this c) in
  tag this' = tag this /\ asiz this' = asiz this /\ spd this' = spd this
  /\ exists i, siz this' = lerp (siz this) 0 (rnd p i * 0.015).
Proof.
  unfold update_move, bind, random_in, random_to, random, ret. simpl.
  destruct (Qltb (rnd p (S c)) 0.005 && negb (is_tag (tag this) TRUNK)); simpl;
    repeat split; eexists; reflexivity.
Qed.

Lemma update_tag0 (p : p5) (this : Particle) (c : nat) :
  tag (self (fst (update p this c))) = tag this.
Proof.
  destruct (decide (tag this = FLOWER)) as [H|H].
  - rewrite update_flower_eq0 by exact H. reflexivity.
  - rewrite update_tree_self0 by exact H. apply update_move_fields0.
Qed.

Lemma new_Particle_fields0 (p : p5) (sx sy : Q) (sc : color) (ss sd sl ls : Q)
    (tg : ParticleType) (c : nat) :
  let k := fst (new_Particle p sx sy sc ss sd sl ls tg c) in
  pos k = mkVec sx sy /\ tag k = tg /\ asiz k = ss
  /\ siz k = (if is_tag tg FLOWER then 0 else 1)
  /\ (tg = FLOWER -> spd k = 0).
Proof.
  unfold new_Particle, bind, random_in, random_to, random, ret. simpl.
  destruct tg; simpl; repeat split; intros; try reflexivity; try discriminate.
Qed.




(** *** Flowers *)

Lemma update_flower_keeps0 (p : p5) (this : Particle) (c : nat) :
  tag this = FLOWER ->
  let o := fst (update p this c) in
  pos (self o) = pos this /\ spd (self o) = spd this /\ tag (self o) = FLOWER
  /\ siz (self o) <= 1
  /\ pushed o = [] /\ recorded o = [].
Proof.
  intros H. cbv zeta. rewrite update_flower_eq0 by exact H. simpl.
  repeat split; try reflexivity; try assumption.
  destruct (Qle_bool 1 (siz this + 0.1)) eqn:E; [lra|].
  destruct (Qle_bool (siz this + 0.1) 1) eqn:E'.
  - apply Qle_bool_iff in E'. exact E'.
  - exfalso.
    assert (~ 1 <= siz this + 0.1)
      by (intros Hle; apply Qle_bool_iff in Hle; congruence).
    assert (~ siz this + 0.1 <= 1)
      by (intros Hle; apply Qle_bool_iff in Hle; congruence).
    lra.
Qed.

Lemma flower_stays0 (ok : p5 -> Prop) (k0 k : Particle) :
  evolves ok k0 k ->
  tag k0 = FLOWER -> spd k0 = 0 -> siz k0 <= 1 ->
  pos k = pos k0 /\ tag k = FLOWER /\ spd k = 0 /\ siz k <= 1.
Proof.
  induction 1 as [k|p c k k' Hok Hev IH]; intros Ht Hs Hz.
  - repeat split; try assumption; reflexivity.
  - destruct (IH Ht Hs Hz) as (Hp & Ht' & Hs' & Hz').
    destruct (update_flower_keeps0 p k' c Ht') as (-> & -> & -> & Hle & _).
    repeat split; assumption.
Qed.

(** *** Death *)

Fixpoint updates (calls : list (p5 * nat)) (this : Particle) : option Particle :=
  match calls with
  | [] => Some this
  | (p, c) :: rest =>
    let o := fst (update p this c) in
    if isDead o then None else updates rest (self o)
  end.

Definition draws_above (eps : Q) (calls : list (p5 * nat)) : Prop :=
  forall p c, In (p, c) calls -> forall i, eps <= rnd p i /\ rnd p i < 1.




Definition death_bound (eps : Q) (this : Particle) : nat :=
  S (S (Z.to_nat (Qceiling (2 * Qabs (currentSize this) / (0.015 * eps))))).


(** *** What [update] pushes *)

Lemma new_Particle_tag0 (p : p5) (sx sy : Q) (sc : color) (ss sd sl ls : Q)
    (tg : ParticleType) (c : nat) :
  tag (fst (new_Particle p sx sy sc ss sd sl ls tg c)) = tg.
Proof. apply new_Particle_fields0. Qed.

Definition yields (tg : ParticleType) (m : Rand (list Particle)) : Prop :=
  forall c, Forall (fun k => tag k = tg) (fst (m c)).

Lemma yields0_nil (tg : ParticleType) : yields tg (ret []).
Proof. intros c. apply Forall_nil_2. Qed.

Lemma yields0_new (tg : ParticleType) (m : Rand Particle) :
  (forall c, tag (fst (m c)) = tg) -> yields tg (k <- m ;; ret [k]).
Proof.
  intros H c. unfold bind, ret. specialize (H c).
  destruct (m c) as [k c']. simpl in *. apply Forall_cons_2; [exact H|].
  apply Forall_nil_2.
Qed.

Lemma yields0_bind {A} (tg : ParticleType) (m : Rand A)
    (f : A -> Rand (list Particle)) :
  (forall a, yields tg (f a)) -> yields tg (a <- m ;; f a).
Proof. intros H c. unfold bind. destruct (m c) as [a c']. apply H. Qed.

Lemma yields0_if (tg : ParticleType) (b : bool) (m1 m2 : Rand (list Particle)) :
  yields tg m1 -> yields tg m2 -> yields tg (if b then m1 else m2).
Proof. destruct b; auto. Qed.

Create HintDb yields0.
#[local] Hint Resolve yields0_nil yields0_new yields0_bind yields0_if
  new_Particle_tag0 : yields0.

Lemma spawn_branch_yields0 (p : p5) (this : Particle) :
  yields BRANCH (spawn_branch p this).
Proof. unfold spawn_branch. auto 10 with yields0. Qed.

Lemma fork_branch_yields0 (p : p5) (this : Particle) :
  yields BRANCH (fork_branch p this).
Proof. unfold fork_branch. auto 10 with yields0. Qed.

Lemma update_spawn_tags0 (p : p5) (this : Particle) (c : nat) :
  Forall (fun k => tag k <> FLOWER) (fst (update_spawn p this c)).
Proof.
  unfold update_spawn, bind, ret.
  pose proof (spawn_branch_yields0 p this c) as H1.
  destruct (spawn_branch p this c) as [kids1 c1].
  pose proof (fork_branch_yields0 p this c1) as H2.
  destruct (fork_branch p this c1) as [kids2 c2]. simpl in *.
  repeat apply Forall_app_2;
    (eapply Forall_impl; [eassumption|]); simpl; intros k ->; discriminate.
Qed.

Lemma update_effects0 (p : p5) (this : Particle) (c : nat) :
  let o := fst (update p this c) in
  Forall (fun k => tag k <> FLOWER) (pushed o)
  /\ (recorded o = [] \/ recorded o = [pos (self o)])
  /\ (isDead o = true -> pushed o = [])
  /\ (tag this = FLOWER -> recorded o = []).
Proof.
  cbv zeta. destruct (decide (tag this = FLOWER)) as [H|H].
  - rewrite update_flower_eq0 by exact H. simpl.
    repeat split; auto.
  - unfold update, is_tag. rewrite bool_decide_eq_false_2 by exact H.
    unfold bind. destruct (update_move p this c) as [this1 c1].
    assert (Hrec : forall b : bool,
              (if b then [mkVec (x (pos this1)) (y (pos this1))] else [])
              = [] \/
              (if b then [mkVec (x (pos this1)) (y (pos this1))] else [])
              = [pos this1])
      by (intros [|]; [right; destruct (pos this1)|left]; reflexivity).
    destruct (dies this1).
    + simpl. repeat split; auto; contradiction.
    + pose proof (update_spawn_tags0 p this1 c1) as Hk.
      destruct (update_spawn p this1 c1) as [kids c2]. simpl in *.
      repeat split; auto; try discriminate; contradiction.
Qed.

(** *** Spawning a flower *)

Definition pushes (k : Particle) (s s' : Sketch) : Prop :=
  parts s' = parts s ++ [k]
  /\ treePositions s' = treePositions s
  /\ prevHandPos s' = prevHandPos s
  /\ lastVideoTime s' = lastVideoTime s
  /\ trail s' = trail s.

Lemma spawnFlower_spec0 (p : p5) (x0 y0 : Q) (s : Sketch) :
  exists k,
    pushes k s (spawnFlower p x0 y0 s)
    /\ pos k = mkVec x0 y0 /\ tag k = FLOWER.
Proof.
  unfold spawnFlower, drawing, bind.
  destruct (random_of p PALETTE_flowers undefined_color (seed s)) as [fc c1].
  destruct (random_in p 15 25 c1) as [size c2].
  pose proof (new_Particle_fields0 p x0 y0 fc size 0 0 0 FLOWER c2)
    as (Hpos & Htag & _).
  destruct (new_Particle p x0 y0 fc size 0 0 0 FLOWER c2) as [k c3].
  simpl in *. exists k. split; [repeat split|]. auto.
Qed.

(** *** The bloom loop *)

Definition bloomed (P : Particle -> Prop) (s s' : Sketch) : Prop :=
  exists new,
    parts s' = parts s ++ new
    /\ Forall (fun k => tag k = FLOWER /\ P k) new
    /\ treePositions s ≡ₚ treePositions s' ++ (pos <$> new)
    /\ prevHandPos s' = prevHandPos s
    /\ lastVideoTime s' = lastVideoTime s
    /\ trail s' = trail s.

Lemma bloomed0_refl (P : Particle -> Prop) (s : Sketch) : bloomed P s s.
Proof. exists []. rewrite !app_nil_r. repeat split; auto. Qed.

Lemma bloomed0_trans (P : Particle -> Prop) (s1 s2 s3 : Sketch) :
  bloomed P s1 s2 -> bloomed P s2 s3 -> bloomed P s1 s3.
Proof.
  intros (n1 & Hp1 & Hf1 & Ht1 & Hh1 & Hl1 & Hr1)
         (n2 & Hp2 & Hf2 & Ht2 & Hh2 & Hl2 & Hr2).
  exists (n1 ++ n2). repeat split; try congruence.
  - rewrite Hp2, Hp1, app_assoc. reflexivity.
  - apply Forall_app_2; assumption.
  - rewrite Ht1, Ht2, fmap_app.
    rewrite <- !app_assoc. apply Permutation_app_head, Permutation_app_comm.
Qed.

(** How many of the entries below index [n] the loop would accept. *)
Fixpoint hits (near : Vec -> bool) (tp : list Vec) (n : nat) : nat :=
  match n with
  | O => O
  | S i =>
    match tp !! i with
    | Some pt => if near pt then S (hits near tp i) else hits near tp i
    | None => hits near tp i
    end
  end.

Lemma hits_delete (near : Vec -> bool) (tp : list Vec) (i n : nat) :
  (n <= i)%nat -> hits near (delete i tp) n = hits near tp n.
Proof.
  induction n as [|n IH]; intros Hle; simpl; [reflexivity|].
  rewrite list_lookup_delete_lt by lia. rewrite IH by lia. reflexivity.
Qed.


Definition within (p : p5) (x0 y0 r : Q) (pt : Vec) : bool :=
  Qltb (dist_to p x0 y0 pt) r.

Lemma bloom_spec (p : p5) (x0 y0 r : Q) (n : nat) :
  forall (b : Z) (s : Sketch),
  let s' := bloom p x0 y0 r n b s in
  bloomed (fun k => dist_to p x0 y0 (pos k) < r) s s'
  /\ length (parts s') =
     (length (parts s)
      + Nat.min (Z.to_nat b) (hits (within p x0 y0 r) (treePositions s) n))%nat.
Proof.
  induction n as [|n IH]; intros b s; cbv zeta; simpl bloom.
  - split; [apply bloomed0_refl|]. simpl. lia.
  - destruct (b <=? 0)%Z eqn:Eb.
    { split; [apply bloomed0_refl|]. apply Z.leb_le in Eb.
      replace (Z.to_nat b) with O by lia. simpl. lia. }
    apply Z.leb_gt in Eb. simpl hits.
    destruct (treePositions s !! n) as [pt|] eqn:Hn; [|apply IH].
    fold (within p x0 y0 r pt).
    destruct (within p x0 y0 r pt) eqn:Hw; [|apply IH].
    destruct (spawnFlower_spec0 p (x pt) (y pt) s)
      as (k & (Hp & Ht & Hh & Hl & Hr) & Hpos & Htag).
    unfold spawn_at.
    remember (spawnFlower p (x pt) (y pt) s) as s1 eqn:Es1. clear Es1.
    set (s2 := set_treePositions (delete n _) s1).
    assert (Ht2 : treePositions s2 = delete n (treePositions s))
      by (unfold s2; simpl; rewrite ?Ht; reflexivity).
    destruct (IH (b - 1)%Z s2) as [Hb Hlen]. cbv zeta in Hb, Hlen.
    split.
    + eapply bloomed0_trans; [|exact Hb].
      exists [k]. rewrite Ht2. unfold s2. simpl. repeat split; auto.
      * apply Forall_cons_2; [|apply Forall_nil_2].
        split; [exact Htag|]. rewrite Hpos. destruct pt as [px py]. simpl.
        apply Qltb_lt. exact Hw.
      * rewrite Hpos. destruct pt as [px py]. simpl.
        rewrite (delete_Permutation _ _ _ Hn) at 1.
        apply Permutation_cons_append.
    + rewrite Hlen, Ht2. unfold s2. simpl. rewrite Hp, length_app.
      rewrite hits_delete by lia. simpl. lia.
Qed.

(** *** handleHandInteraction *)

Definition handled (s s' : Sketch) : Prop :=
  exists new,
    parts s' = parts s ++ new
    /\ Forall (fun k => tag k = FLOWER) new
    /\ treePositions s ≡ₚ treePositions s' ++ (pos <$> new)
    /\ trail s' = trail s
    /\ lastVideoTime s' = lastVideoTime s.

Lemma handled0_same (s s' : Sketch) :
  parts s' = parts s -> treePositions s' = treePositions s ->
  trail s' = trail s -> lastVideoTime s' = lastVideoTime s -> handled s s'.
Proof.
  intros Hp Ht Hr Hv. exists [].
  rewrite !app_nil_r, Ht. repeat split; auto.
Qed.


Lemma handle_handled0 (p : p5) (result : HandLandmarkerResult) (s : Sketch) :
  handled s (handleHandInteraction p result s).
Proof.
  unfold handleHandInteraction.
  destruct result as [|landmarks rest]; [apply handled0_same; reflexivity|].
  destruct (landmarks !! 8%nat) as [indexTip|]; [|apply handled0_same; reflexivity].
  cbv zeta.
  destruct (treePositions s) as [|pt tp] eqn:Etp.
  { apply handled0_same; simpl; auto. }
  unfold drawing.
  destruct (bloomsNeeded p _ (seed s)) as [needed c1].
  destruct (needed >? 0)%Z.
  2:{ apply handled0_same; simpl; auto. }
  match goal with
  | |- context [bloom ?p ?a ?b ?r ?n ?k ?s1] =>
      destruct (bloom_spec p a b r n k s1) as [(new & Hp & Hf & Ht & _ & Hv & Hr) _];
      set (s2 := bloom p a b r n k s1) in *; clearbody s2
  end.
  simpl in Hp, Ht, Hv, Hr. exists new. simpl.
  repeat split; auto.
  eapply Forall_impl; [exact Hf|]. simpl. tauto.
Qed.


(** *** The particle loop of [p.draw] *)

Lemma draw_part_spec0 (p : p5) (i : nat) (s : Sketch) (part : Particle) :
  parts s !! i = Some part ->
  let o := fst (update p part (seed s)) in
  let s' := draw_part p i s in
  parts s' =
    (if isDead o then delete i (parts s) else <[i := self o]> (parts s))
    ++ pushed o
  /\ treePositions s' = treePositions s ++ recorded o
  /\ trail s' =
     (if is_tag (tag part) FLOWER then trail s else trail s ++ [pos (self o)])
  /\ prevHandPos s' = prevHandPos s
  /\ lastVideoTime s' = lastVideoTime s.
Proof.
  intros Hi. cbv zeta. unfold draw_part. rewrite Hi. unfold drawing.
  pose proof (update_effects0 p part (seed s)) as (_ & _ & Hdead & _).
  cbv zeta in Hdead.
  destruct (update p part (seed s)) as [o c1]. simpl fst in *.
  destruct (isDead o) eqn:Hd.
  - rewrite (Hdead eq_refl).
    destruct (is_tag (tag part) FLOWER); simpl;
      rewrite !app_nil_r, delete_insert_same; repeat split.
  - destruct (is_tag (tag part) FLOWER); simpl; repeat split.
Qed.

Lemma draw_part_none0 (p : p5) (i : nat) (s : Sketch) :
  parts s !! i = None -> draw_part p i s = s.
Proof. intros H. unfold draw_part. rewrite H. reflexivity. Qed.


(** *** Flowers sit where the tree has been *)

Definition on_tree (s : Sketch) : Prop :=
  Forall (fun pt => pt ∈ trail s) (treePositions s)
  /\ Forall (fun k => tag k = FLOWER -> pos k ∈ trail s) (parts s).

Lemma draw_part_on_tree0 (p : p5) (i : nat) (s : Sketch) :
  on_tree s -> on_tree (draw_part p i s).
Proof.
  intros [Htp Hps].
  destruct (parts s !! i) as [part|] eqn:Hi;
    [|rewrite draw_part_none0 by exact Hi; split; assumption].
  destruct (draw_part_spec0 p i s part Hi) as (Hp & Ht & Hr & _).
  destruct (update_effects0 p part (seed s)) as (Hkids & Hrec & _ & Hfrec).
  pose proof (update_tag0 p part (seed s)) as Htag.
  set (o := fst (update p part (seed s))) in *.
  assert (Hsub : forall pt, pt ∈ trail s -> pt ∈ trail (draw_part p i s)).
  { intros pt Hin. rewrite Hr. destruct (is_tag (tag part) FLOWER); [exact Hin|].
    apply elem_of_app. left. exact Hin. }
  assert (Hself : tag (self o) = FLOWER -> pos (self o) ∈ trail (draw_part p i s)).
  { intros Hf. rewrite Htag in Hf.
    destruct (update_flower_keeps0 p part (seed s) Hf) as (Hpos & _).
    fold o in Hpos. rewrite Hpos. apply Hsub.
    rewrite Forall_forall in Hps. apply (Hps part); [|exact Hf].
    eapply list_elem_of_lookup_2. exact Hi. }
  split.
  - rewrite Ht. apply Forall_app_2.
    + eapply Forall_impl; [exact Htp|]. exact Hsub.
    + destruct (decide (tag part = FLOWER)) as [Hf|Hf].
      { rewrite (Hfrec Hf). apply Forall_nil_2. }
      destruct Hrec as [->| ->]; [apply Forall_nil_2|].
      apply Forall_cons_2; [|apply Forall_nil_2].
      rewrite Hr. unfold is_tag. rewrite bool_decide_eq_false_2 by exact Hf.
      apply elem_of_app. right. apply list_elem_of_singleton. reflexivity.
  - rewrite Hp. apply Forall_app_2.
    + assert (Hps' : Forall (fun k => tag k = FLOWER -> pos k ∈ trail (draw_part p i s))
                       (parts s)).
      { eapply Forall_impl; [exact Hps|]. simpl. intros k Hk Hf. auto. }
      destruct (isDead o).
      * apply Forall_delete. exact Hps'.
      * apply Forall_insert; [exact Hps'|exact Hself].
    + eapply Forall_impl; [exact Hkids|]. simpl. intros k Hk Hf. contradiction.
Qed.

Lemma draw_loop_on_tree0 (p : p5) (n : nat) (s : Sketch) :
  on_tree s -> on_tree (draw_loop p n s).
Proof.
  revert s. induction n as [|n IH]; intros s H; simpl; [exact H|].
  apply IH, draw_part_on_tree0, H.
Qed.

Lemma handled_on_tree0 (s s' : Sketch) :
  handled s s' -> on_tree s -> on_tree s'.
Proof.
  intros (new & Hp & Hnew & Hperm & Hr & _) [Htp Hps].
  assert (Hin : forall pt, pt ∈ treePositions s' ++ (pos <$> new) -> pt ∈ trail s').
  { intros pt Hpt. rewrite Hr. rewrite Forall_forall in Htp. apply Htp.
    rewrite Hperm. exact Hpt. }
  split.
  - apply Forall_forall. intros pt Hpt. apply Hin, elem_of_app. left. exact Hpt.
  - rewrite Hp. apply Forall_app_2.
    + rewrite Hr. exact Hps.
    + apply Forall_forall. intros k Hk _. apply Hin, elem_of_app. right.
      apply list_elem_of_fmap. exists k. split; [reflexivity|exact Hk].
Qed.

Lemma plant_spec0 (p : p5) (sx ss : Q) (s : Sketch) :
  exists k, pushes k s (plant p sx ss s) /\ tag k = TRUNK.
Proof.
  unfold plant, drawing.
  pose proof (new_Particle_tag0 p sx (height p + 20) PALETTE_trunk ss 270 0 500
                TRUNK (seed s)) as H.
  destruct (new_Particle p sx _ _ ss _ _ _ _ (seed s)) as [k c2].
  exists k. split; [repeat split|exact H].
Qed.

Lemma startTree_on_tree0 (p : p5) (s : Sketch) :
  parts s = [] -> treePositions s = [] -> on_tree (startTree p s).
Proof.
  intros Hp Ht. unfold startTree. cbv zeta.
  destruct (plant_spec0 p (width p / 2 - 20) 50 s)
    as (k1 & (Hp1 & Ht1 & _ & _ & Hr1) & Hk1).
  destruct (plant_spec0 p (width p / 2 + 20) 45 (plant p (width p / 2 - 20) 50 s))
    as (k2 & (Hp2 & Ht2 & _ & _ & Hr2) & Hk2).
  split.
  - rewrite Ht2, Ht1, Ht. apply Forall_nil_2.
  - rewrite Hp2, Hp1, Hp. simpl.
    repeat (apply Forall_cons_2 || apply Forall_nil_2); intros Hf; congruence.
Qed.

Lemma draw_on_tree0 (p : p5) (v : Video) (s : Sketch) :
  on_tree s -> on_tree (draw p v s).
Proof.
  intros H. unfold draw. apply draw_loop_on_tree0.
  destruct (ready v && negb (Qeq_bool (currentTime v) (lastVideoTime s)));
    [|exact H].
  destruct (detectForVideo v) as [result|]; [|exact H].
  eapply handled_on_tree0; [apply handle_handled0|exact H].
Qed.

Lemma setup_on_tree0 (p : p5) : on_tree (setup p).
Proof. unfold setup. apply startTree_on_tree0; reflexivity. Qed.

Lemma windowResized_on_tree0 (p : p5) (s : Sketch) : on_tree (windowResized p s).
Proof. unfold windowResized. apply startTree_on_tree0; reflexivity. Qed.

Lemma step_on_tree0 (s s' : Sketch) : step s s' -> on_tree s -> on_tree s'.
Proof.
  intros [p v s0|p s0] H.
  - exact (draw_on_tree0 p v s0 H).
  - exact (windowResized_on_tree0 p s0).
Qed.

Lemma reachable_on_tree0 (s : Sketch) : reachable s -> on_tree s.
Proof.
  induction 1 as [p|s s' Hs IH Hstep].
  - exact (setup_on_tree0 p).
  - exact (step_on_tree0 s s' Hstep IH).
Qed.

Lemma draw_loop_frame0 (p : p5) (n : nat) (s : Sketch) :
  prevHandPos (draw_loop p n s) = prevHandPos s
  /\ lastVideoTime (draw_loop p n s) = lastVideoTime s
  /\ exists more, treePositions (draw_loop p n s) = treePositions s ++ more.
Proof.
  revert s. induction n as [|n IH]; intros s; simpl.
  - repeat split. exists []. rewrite app_nil_r. reflexivity.
  - destruct (IH (draw_part p n s)) as (Hh & Hv & more & Ht).
    destruct (parts s !! n) as [part|] eqn:Hn.
    + destruct (draw_part_spec0 p n s part Hn) as (_ & Ht' & _ & Hh' & Hv').
      split; [congruence|]. split; [congruence|].
      eexists. rewrite Ht, Ht', <- app_assoc. reflexivity.
    + rewrite draw_part_none0 in * by exact Hn. repeat split; auto.
      exists more. exact Ht.
Qed.

End Tree0Props.

(** * The claims *)

(** ** Inputs to run the claims on *)

Definition demo_trunk : Tree.Particle :=
  fst (Tree.new_Particle demo 400 570 Tree.PALETTE_trunk 100 260 0 500 TRUNK O).

Definition demo_flower : Tree.Particle :=
  fst (Tree.new_Particle demo 400 300 "#FFB7B2"%string 20 0 0 0 FLOWER O).

Definition demo_trunk0 : Tree0.Particle :=
  fst (Tree0.new_Particle demo 380 620 Tree0.PALETTE_trunk 50 270 0 500 TRUNK O).

Definition demo_flower0 : Tree0.Particle :=
  fst (Tree0.new_Particle demo 400 300 "#FFB7B2"%string 20 0 0 0 FLOWER O).



(** ** C2: tapering *)



(** ** C8: the clamped flower size *)

(** C8.  Whatever [handScreenSizeRatio] is (also when it is left out),
    [spawnFlower] pushes one FLOWER particle whose [asiz] lies in
    [10, 35]. *)
Theorem C8_flower_size_clamped :
  forall (p : p5) (x0 y0 : Q) (handScreenSizeRatio : option Q) (s : Tree.Sketch),
  exists k,
    Tree.parts (Tree.spawnFlower p x0 y0 handScreenSizeRatio s)
    = Tree.parts s ++ [k]
    /\ Tree.tag k = FLOWER
    /\ 10 <= Tree.asiz k /\ Tree.asiz k <= 35.
Proof.
  intros p x0 y0 ratio s.
  destruct (TreeProps.spawnFlower_spec p x0 y0 ratio s)
    as (k & (Hp & _) & _ & Htag & Hlo & Hhi & _).
  exists k. repeat split; assumption.
Qed.

Example spawnFlower_far :
  Tree.asiz <$> last (Tree.parts (Tree.spawnFlower demo 0 0 (Some 0.01) Tree.sketch0))
  = Some 10.
Proof. vm_compute. reflexivity. Qed.

Example spawnFlower_close :
  Tree.asiz <$> last (Tree.parts (Tree.spawnFlower demo 0 0 (Some 0.9) Tree.sketch0))
  = Some 35.
Proof. vm_compute. reflexivity. Qed.

(** ** C9: flowers stay put *)

(** C9.  A FLOWER particle, from its construction on and through any calls
    of [update] (and, in GenerativeTree.tsx, any hovers), keeps the position
    it was spawned at, has speed 0 and a size factor of at most 1. *)
Theorem C9_flowers_stationary_bounded :
  (forall (ok : p5 -> Prop) (p : p5) (sx sy : Q) (sc : color) (ss sd sl ls : Q)
          (c : nat) (k : Tree.Particle),
     TreeProps.evolves ok
       (fst (Tree.new_Particle p sx sy sc ss sd sl ls FLOWER c)) k ->
     Tree.pos k = mkVec sx sy /\ Tree.spd k = 0 /\ Tree.siz k <= 1
     /\ Tree.tag k = FLOWER)
  /\ (forall (ok : p5 -> Prop) (p : p5) (sx sy : Q) (sc : color)
             (ss sd sl ls : Q) (c : nat) (k : Tree0.Particle),
        Tree0Props.evolves ok
          (fst (Tree0.new_Particle p sx sy sc ss sd sl ls FLOWER c)) k ->
        Tree0.pos k = mkVec sx sy /\ Tree0.spd k = 0 /\ Tree0.siz k <= 1
        /\ Tree0.tag k = FLOWER).
Proof.
  split.
  - intros ok p sx sy sc ss sd sl ls c k Hev.
    destruct (TreeProps.new_Particle_fields p sx sy sc ss sd sl ls FLOWER c)
      as (Hpos & Htag & _ & Hsiz & Hspd & _).
    destruct (TreeProps.flower_stays ok _ k Hev Htag (Hspd eq_refl))
      as (Hp & Ht & Hs & Hz & _).
    + rewrite Hsiz. simpl. lra.
    + rewrite Hp, Hpos. repeat split; assumption.
  - intros ok p sx sy sc ss sd sl ls c k Hev.
    destruct (Tree0Props.new_Particle_fields0 p sx sy sc ss sd sl ls FLOWER c)
      as (Hpos & Htag & _ & Hsiz & Hspd).
    destruct (Tree0Props.flower_stays0 ok _ k Hev Htag (Hspd eq_refl))
      as (Hp & Ht & Hs & Hz).
    + rewrite Hsiz. simpl. lra.
    + rewrite Hp, Hpos. repeat split; assumption.
Qed.

Lemma C9_witness :
  Tree.pos (Tree.hover 5 1 (Tree.self (fst (Tree.update demo demo_flower O))))
  = mkVec 400 300
  /\ Tree0.pos (Tree0.self (fst (Tree0.update demo demo_flower0 O)))
     = mkVec 400 300.
Proof.
  split.
  - apply (proj1 C9_flowers_stationary_bounded (fun _ => True)
             demo 400 300 "#FFB7B2"%string 20 0 0 0 O).
    apply TreeProps.ev_hover, TreeProps.ev_update; [exact I|].
    apply TreeProps.ev_refl.
  - apply (proj2 C9_flowers_stationary_bounded (fun _ => True)
             demo 400 300 "#FFB7B2"%string 20 0 0 0 O).
    apply Tree0Props.ev_update; [exact I|]. apply Tree0Props.ev_refl.
Defined.

(** ** C6: failure of the vision initialization *)

(** What follows the first [console.error] of a run, if there is one. *)
Fixpoint after_error (events : list Vision.Event) : option (list Vision.Event) :=
  match events with
  | [] => None
  | Vision.ConsoleError _ :: rest => Some rest
  | _ :: rest => after_error rest
  end.

(** The GPU delegate cannot be created; everything else works. *)
Definition gpu_fails : Vision.Browser :=
  {| Vision.rejects := fun n => Nat.eqb n 1;
     Vision.hasMediaDevices := true; Vision.hasVideoElement := true |}.

(** C6 as stated fails on GenerativeTree.tsx: after the logged failure of the
    GPU delegate the whole initialization is run again with the CPU
    delegate. *)
Lemma C6_fallback_after_failure :
  Vision.run (Vision.initVision gpu_fails)
  = [Vision.ForVisionTasks; Vision.CreateFromOptions Vision.GPU 1;
     Vision.ConsoleError "Error initializing vision:";
     Vision.ForVisionTasks; Vision.CreateFromOptions Vision.CPU 1;
     Vision.ConsoleLog "Fallback to CPU delegate successful"].
Proof. vm_compute. reflexivity. Qed.

Ltac vision_cases b :=
  unfold Vision.run, Vision.initVision, Vision.initVision0,
    Vision.startCamera, Vision.tryCatch, Vision.andThen, Vision.await,
    Vision.emit, Vision.when, Vision.pure;
  repeat first
    [ progress cbn [fst snd app]
    | match goal with
      | H : Vision.rejects b ?n = _ |- context [Vision.rejects b ?n] =>
          rewrite H
      | |- context [Vision.rejects b ?n] =>
          destruct (Vision.rejects b n) eqn:?
      | |- context [Vision.hasMediaDevices b] =>
          destruct (Vision.hasMediaDevices b) eqn:?
      | |- context [Vision.hasVideoElement b] =>
          destruct (Vision.hasVideoElement b) eqn:?
      end ].

(** One of the calls the [try] block makes rejects: the resolver, the GPU
    landmarker, or [getUserMedia] when the browser has media devices. *)
Definition failed (b : Vision.Browser) : bool :=
  Vision.rejects b 0 || Vision.rejects b 1
  || (Vision.hasMediaDevices b && Vision.rejects b 2).

(** The awaited calls the [try] block has made when it fails. *)
Definition calls_made (b : Vision.Browser) : nat :=
  if Vision.rejects b 0 then 1 else if Vision.rejects b 1 then 2 else 3.

(** The CPU fallback of GenerativeTree.tsx, its first call being the
    [n]-th awaited call of the run. *)
Definition fallback (b : Vision.Browser) (n : nat) : list Vision.Event :=
  Vision.ForVisionTasks
  :: if Vision.rejects b n
     then [Vision.ConsoleError "Vision init completely failed:"]
     else Vision.CreateFromOptions Vision.CPU 1
          :: if Vision.rejects b (S n)
             then [Vision.ConsoleError "Vision init completely failed:"]
             else [Vision.ConsoleLog "Fallback to CPU delegate successful"].

(** C6, amended.  [initVision] never lets an error escape.  An error is
    logged exactly when one of the calls of the [try] block rejects, and the
    log is ["Error initializing vision:"].  In part_000 nothing happens
    after the log.  In GenerativeTree.tsx the log is followed by one more
    initialization, with the CPU delegate and without starting the camera:
    the resolver again and, unless it rejects, [createFromOptions], ending
    in a success log or in a second error log after which nothing
    happens. *)
Theorem C6_failure_handling :
  forall b : Vision.Browser,
  fst (Vision.initVision0 b ([], O)) = inr tt
  /\ fst (Vision.initVision b ([], O)) = inr tt
  /\ existsb Vision.is_error (Vision.run (Vision.initVision0 b)) = failed b
  /\ existsb Vision.is_error (Vision.run (Vision.initVision b)) = failed b
  /\ (failed b = true ->
      In (Vision.ConsoleError "Error initializing vision:")
         (Vision.run (Vision.initVision0 b))
      /\ In (Vision.ConsoleError "Error initializing vision:")
            (Vision.run (Vision.initVision b)))
  /\ after_error (Vision.run (Vision.initVision0 b))
     = (if failed b then Some [] else None)
  /\ after_error (Vision.run (Vision.initVision b))
     = (if failed b then Some (fallback b (calls_made b)) else None).
Proof.
  intros b. unfold failed, calls_made, fallback.
  repeat split; vision_cases b; cbn; auto 10; discriminate.
Qed.

(** ** C7: the still-pointing gesture *)

Definition demo_hand : list Landmark :=
  [mkLandmark 0.5 0.9; mkLandmark 0.5 0.85; mkLandmark 0.5 0.8;
   mkLandmark 0.5 0.75; mkLandmark 0.5 0.7; mkLandmark 0.5 0.7;
   mkLandmark 0.5 0.6; mkLandmark 0.5 0.55; mkLandmark 0.5 0.5;
   mkLandmark 0.55 0.7; mkLandmark 0.55 0.75; mkLandmark 0.55 0.8;
   mkLandmark 0.55 0.85; mkLandmark 0.6 0.7; mkLandmark 0.6 0.75;
   mkLandmark 0.6 0.8; mkLandmark 0.6 0.85; mkLandmark 0.65 0.7;
   mkLandmark 0.65 0.75; mkLandmark 0.65 0.8; mkLandmark 0.65 0.85].

(** [f'] is [f] but for the two fields the gesture assigns. *)
Definition hovered (f f' : Tree.Particle) : Prop :=
  Tree.pos f' = Tree.pos f /\ Tree.col f' = Tree.col f
  /\ Tree.stamenCol f' = Tree.stamenCol f /\ Tree.siz f' = Tree.siz f
  /\ Tree.asiz f' = Tree.asiz f /\ Tree.dir f' = Tree.dir f
  /\ Tree.spd f' = Tree.spd f /\ Tree.life f' = Tree.life f
  /\ Tree.lifespan f' = Tree.lifespan f /\ Tree.tag f' = Tree.tag f
  /\ Tree.rotationOffset f' = Tree.rotationOffset f
  /\ Tree.currentRotation f' = Tree.currentRotation f
  /\ Tree.targetScale f' = Tree.targetScale f
  /\ Tree.currentScale f' = Tree.currentScale f
  /\ Tree.isBloomed f' = Tree.isBloomed f /\ Tree.rsiz f' = Tree.rsiz f.

(** C7.  On a hand with all its landmarks, the handler first brings
    [fingerStillFrames] up to date (one more when the tip moved less than 3,
    0 otherwise).  When the hand is pointing and the counter exceeds 10, it
    leaves [treePositions] alone and appends nothing to [parts]: either
    [parts] is unchanged (no flower closer than 50 to the tip) or exactly
    one element changes, the closest flower (the first one at the least
    distance, below 50): its [lastHoveredTime] becomes [p.millis()], its
    [interactionRotation] the angle from the wrist to the tip, and its
    other fields stay.  Otherwise it only appends flowers to [parts], each
    with untouched hover fields, and changes no particle already there. *)
Theorem C7_still_pointing_magnifies :
  forall (p : p5) (landmarks : list Landmark) (rest : HandLandmarkerResult)
         (s : Tree.Sketch)
         (indexTip wrist indexBase middle ring pinky : Landmark),
  landmarks !! 8%nat = Some indexTip -> landmarks !! 0%nat = Some wrist ->
  landmarks !! 5%nat = Some indexBase -> landmarks !! 12%nat = Some middle ->
  landmarks !! 16%nat = Some ring -> landmarks !! 20%nat = Some pinky ->
  let tip := screen p indexTip in
  let v := velocity p tip (Tree.prevIndexPos s) in
  let frames := if Qltb v 3 then (Tree.fingerStillFrames s + 1)%Z else 0%Z in
  let s' := Tree.handleHandInteraction p (landmarks :: rest) s in
  Tree.fingerStillFrames s' = frames
  /\ if Tree.isPointing p wrist indexTip middle ring pinky && (frames >? 10)%Z
     then
       Tree.treePositions s' = Tree.treePositions s
       /\ ((Tree.parts s' = Tree.parts s
            /\ forall j g, Tree.parts s !! j = Some g -> Tree.tag g = FLOWER ->
                 50 <= dist_to p (x tip) (y tip) (Tree.pos g))
           \/ exists i f f',
                TreeProps.is_closest p (x tip) (y tip) 50 (Tree.parts s) i f
                /\ Tree.parts s' = <[i := f']> (Tree.parts s)
                /\ Tree.lastHoveredTime f' = millis p
                /\ Tree.interactionRotation f'
                   = atan2 p (y tip - y (screen p wrist))
                       (x tip - x (screen p wrist))
                /\ hovered f f')
     else
       exists new,
         Tree.parts s' = Tree.parts s ++ new
         /\ Forall (fun k => Tree.tag k = FLOWER
                             /\ Tree.lastHoveredTime k = -1000
                             /\ Tree.interactionRotation k = 0) new.
Proof.
  intros p landmarks rest s indexTip wrist indexBase middle ring pinky
    H8 H0 H5 H12 H16 H20. cbv zeta.
  rewrite (TreeProps.handle_hand p landmarks rest s indexTip wrist indexBase
             middle ring pinky H8 H0 H5 H12 H16 H20).
  cbv zeta. unfold Tree.stillFrames.
  set (tip := screen p indexTip).
  set (v := velocity p tip (Tree.prevIndexPos s)).
  set (frames := if Qltb v 3 then (Tree.fingerStillFrames s + 1)%Z else 0%Z).
  set (s2 := Tree.set_fingerStillFrames frames _).
  destruct (Tree.isPointing p wrist indexTip middle ring pinky && (frames >? 10)%Z).
  - pose proof (TreeProps.magnify_spec p (x tip) (y tip) wrist s2) as Hm.
    cbv zeta in Hm.
    set (s3 := Tree.magnify p (x tip) (y tip) wrist s2) in *. clearbody s3.
    destruct Hm as (Ht & Hh & _ & _ & _ & Hparts).
    apply TreeProps.hand_state_eq in Hh as (_ & Hf & _ & _).
    simpl. split; [exact Hf|]. split; [exact Ht|].
    destruct Hparts as [Hparts|(i & f & Hc & Hparts)]; [left; exact Hparts|].
    right.
    exists i, f,
      (Tree.hover (millis p) (Tree.fingerAngle p (x tip) (y tip) wrist) f).
    split; [exact Hc|]. split; [exact Hparts|].
    unfold hovered. repeat split.
  - pose proof (TreeProps.paint_bloomed p tip
                  (Tree.handScreenSizeRatio p wrist indexBase) v s2)
      as [(new & Hp & Hnew & _ & Hh & _) _].
    set (s3 := Tree.paint p tip _ v s2) in *. clearbody s3.
    apply TreeProps.hand_state_eq in Hh as (_ & Hf & _ & _).
    simpl. split; [exact Hf|]. exists new. split; [exact Hp|].
    eapply Forall_impl; [exact Hnew|]. simpl.
    intros k (Hk & _ & _ & Hh1 & Hh2 & _). auto.
Qed.

(** A pointing hand that has rested for ten frames on a flower of the
    sketch. *)
Definition still_pointing : Tree.Sketch :=
  Tree.set_fingerStillFrames 10
    (Tree.set_prevIndexPos (Some (mkVec 400 300))
       (Tree.spawnFlower demo 400 300 None (Tree.setup demo))).

Lemma C7_witness :
  let s' := Tree.handleHandInteraction demo [demo_hand] still_pointing in
  Tree.fingerStillFrames s' = 11%Z
  /\ Tree.treePositions s' = Tree.treePositions still_pointing
  /\ exists i f',
       Tree.parts s' = <[i := f']> (Tree.parts still_pointing)
       /\ Tree.lastHoveredTime f' = millis demo.
Proof.
  cbv zeta.
  pose proof (C7_still_pointing_magnifies demo demo_hand [] still_pointing
                (mkLandmark 0.5 0.5) (mkLandmark 0.5 0.9) (mkLandmark 0.5 0.7)
                (mkLandmark 0.55 0.85) (mkLandmark 0.6 0.85)
                (mkLandmark 0.65 0.85)
                eq_refl eq_refl eq_refl eq_refl eq_refl eq_refl) as H.
  cbv zeta in H. destruct H as [Hf H].
  match type of H with
  | if ?c then _ else _ =>
      assert (Hc : c = true) by (vm_compute; reflexivity); rewrite Hc in H
  end.
  destruct H as [Htp [[_ Hfar]|(i & f & f' & _ & Hparts & Hl & _)]].
  - exfalso.
    specialize (Hfar 2%nat (nth 2 (Tree.parts still_pointing) demo_flower)
                  eq_refl eq_refl).
    vm_compute in Hfar. apply Hfar. reflexivity.
  - split; [rewrite Hf; vm_compute; reflexivity|].
    split; [exact Htp|]. exists i, f'. split; [exact Hparts|exact Hl].
Defined.

(** ** C10: one flower per recorded position *)

(** C10.  In either revision, whatever a call of the handler appends to
    [parts] are flowers, and [treePositions] before the call is, up to
    order, [treePositions] after it together with the positions of those
    flowers: every flower spawned has taken its own entry out of the list
    in the same call. *)
Theorem C10_each_position_blooms_once :
  (forall (p : p5) (result : HandLandmarkerResult) (s : Tree.Sketch),
     let s' := Tree.handleHandInteraction p result s in
     let new := drop (length (Tree.parts s)) (Tree.parts s') in
     Forall (fun k => Tree.tag k = FLOWER) new
     /\ Tree.treePositions s ≡ₚ Tree.treePositions s' ++ (Tree.pos <$> new)
     /\ length (Tree.treePositions s')
        = (length (Tree.treePositions s) - length new)%nat)
  /\ (forall (p : p5) (result : HandLandmarkerResult) (s : Tree0.Sketch),
        let s' := Tree0.handleHandInteraction p result s in
        let new := drop (length (Tree0.parts s)) (Tree0.parts s') in
        Forall (fun k => Tree0.tag k = FLOWER) new
        /\ Tree0.treePositions s ≡ₚ Tree0.treePositions s' ++ (Tree0.pos <$> new)
        /\ length (Tree0.treePositions s')
           = (length (Tree0.treePositions s) - length new)%nat).
Proof.
  split; intros p result s; cbv zeta.
  - destruct (TreeProps.handle_handled p result s)
      as (old & new & Hp & Hold & Hnew & Hperm & _).
    assert (Hlen : length old = length (Tree.parts s)).
    { destruct Hold as [->|(i & f & t & a & _ & _ & ->)];
        [reflexivity|apply length_insert]. }
    rewrite Hp, <- Hlen, drop_app_length.
    split; [exact Hnew|]. split; [exact Hperm|].
    apply Permutation_length in Hperm.
    rewrite length_app, length_fmap in Hperm. lia.
  - destruct (Tree0Props.handle_handled0 p result s)
      as (new & Hp & Hnew & Hperm & _).
    rewrite Hp, drop_app_length.
    split; [exact Hnew|]. split; [exact Hperm|].
    apply Permutation_length in Hperm.
    rewrite length_app, length_fmap in Hperm. lia.
Qed.

(** ** C1: death of particles *)





(** ** C3: a faster gesture spawns more *)

(** The test of one round of the painting loop of GenerativeTree.tsx: the
    entry [pt] is within the search radius of the probe at [t]. *)
Definition near (p : p5) (prev cur : Vec) (t : option Q) (pt : Vec) : bool :=
  match t with
  | None => false
  | Some t =>
    Qltb (dist p (lerp (x prev) (x cur) t) (lerp (y prev) (y cur) t)
            (x pt) (y pt)) Tree.searchRadius
  end.


















(** part_000 with three recorded positions around the canvas centre. *)
Definition three_spots0 : Tree0.Sketch :=
  Tree0.set_treePositions [mkVec 400 300; mkVec 401 300; mkVec 402 300]
    (Tree0.setup demo).

(** GenerativeTree.tsx with five recorded positions beside the way of the
    tip. *)
Definition five_spots : Tree.Sketch :=
  Tree.set_treePositions
    [mkVec 400 315; mkVec 401 315; mkVec 402 315; mkVec 403 315; mkVec 404 315]
    (Tree.setup demo).


(** The numbers of the two runs above. *)
Example gestures_bloom :
  length (Tree0.parts three_spots0) = 2%nat
  /\ length (Tree0.parts (Tree0.handleHandInteraction demo [demo_hand]
                            (Tree0.set_prevHandPos (Some (mkVec 400 303))
                               three_spots0))) = 3%nat
  /\ length (Tree0.parts (Tree0.handleHandInteraction demo [demo_hand]
                            (Tree0.set_prevHandPos (Some (mkVec 400 310))
                               three_spots0))) = 5%nat
  /\ length (Tree.parts five_spots) = 2%nat
  /\ length (Tree.parts (Tree.handleHandInteraction demo [demo_hand]
                           (Tree.set_prevIndexPos (Some (mkVec 400 303))
                              five_spots))) = 4%nat
  /\ length (Tree.parts (Tree.handleHandInteraction demo [demo_hand]
                           (Tree.set_prevIndexPos (Some (mkVec 400 330))
                              five_spots))) = 6%nat.
Proof. vm_compute. repeat split. Qed.

(** ** C4: flowers bloom on the tree *)

Definition no_video : Video := mkVideo false 0 None.

(** A hand whose landmarks all sit at the canvas point (380, 618). *)
Definition tip_video : Video :=
  mkVideo true 0 (Some [repeat (mkLandmark 0.525 1.03) 21]).

(** part_000 after a frame without video and a frame with the hand on a
    recorded position. *)
Definition demo_bloom0 : Tree0.Sketch :=
  Tree0.draw demo tip_video (Tree0.draw demo no_video (Tree0.setup demo)).

Lemma demo_bloom0_reachable : Tree0.reachable demo_bloom0.
Proof.
  unfold demo_bloom0.
  eapply Tree0.reach_step; [|apply Tree0.step_draw].
  eapply Tree0.reach_step; [|apply Tree0.step_draw].
  apply Tree0.reach_setup.
Qed.

(** C4.  In every state the sketch can reach (from [setup], through frames
    with any video input and window resizes), each FLOWER in [parts] sits at
    a position some tree particle moved to earlier ([trail] collects the
    position of every tree particle right after the movement of each of its
    updates).  The flowers a call of the painting code appends sit at
    entries of [treePositions] as it was before the call, each within the
    search radius of a probe: in GenerativeTree.tsx the point at the
    fraction [t = j / steps] ([0 <= j <= steps], so [0 <= t <= 1]) of the
    way from the previous to the current tip, in part_000 the current
    tip. *)
Theorem C4_flowers_bloom_on_tree :
  (forall s : Tree.Sketch, Tree.reachable s ->
     forall k, k ∈ Tree.parts s -> Tree.tag k = FLOWER ->
       Tree.pos k ∈ Tree.trail s)
  /\ (forall s : Tree0.Sketch, Tree0.reachable s ->
        forall k, k ∈ Tree0.parts s -> Tree0.tag k = FLOWER ->
          Tree0.pos k ∈ Tree0.trail s)
  /\ (forall (p : p5) (cur : Vec) (ratio v : Q) (s : Tree.Sketch),
        let prev := default cur (Tree.prevIndexPos s) in
        exists new,
          Tree.parts (Tree.paint p cur ratio v s) = Tree.parts s ++ new
          /\ Forall (fun k =>
               Tree.tag k = FLOWER
               /\ Tree.pos k ∈ Tree.treePositions s
               /\ exists (j : Z) (t : Q),
                    (0 <= j <= Tree.steps v)%Z
                    /\ Tree.fraction j (Tree.steps v) = Some t
                    /\ 0 <= t /\ t <= 1
                    /\ dist p (lerp (x prev) (x cur) t) (lerp (y prev) (y cur) t)
                         (x (Tree.pos k)) (y (Tree.pos k)) < Tree.searchRadius)
               new)
  /\ (forall (p : p5) (x0 y0 r : Q) (n : nat) (b : Z) (s : Tree0.Sketch),
        exists new,
          Tree0.parts (Tree0.bloom p x0 y0 r n b s) = Tree0.parts s ++ new
          /\ Forall (fun k =>
               Tree0.tag k = FLOWER
               /\ Tree0.pos k ∈ Tree0.treePositions s
               /\ dist_to p x0 y0 (Tree0.pos k) < r)
               new).
Proof.
  split; [|split; [|split]].
  - intros s Hs k Hk Hf.
    destruct (TreeProps.reachable_on_tree s Hs) as [_ Hps].
    rewrite Forall_forall in Hps. exact (Hps k Hk Hf).
  - intros s Hs k Hk Hf.
    destruct (Tree0Props.reachable_on_tree0 s Hs) as [_ Hps].
    rewrite Forall_forall in Hps. exact (Hps k Hk Hf).
  - intros p cur ratio v s prev.
    destruct (TreeProps.paint_bloomed p cur ratio v s)
      as [(new & Hp & Hnew & Hperm & _) _].
    exists new. split; [exact Hp|].
    rewrite Forall_forall in Hnew. apply Forall_forall. intros k Hk.
    destruct (Hnew k Hk) as (Hf & _ & _ & _ & _ & t & Hin & Ht).
    split; [exact Hf|]. split.
    + rewrite Hperm. apply elem_of_app. right.
      apply list_elem_of_fmap. exists k. split; [reflexivity|exact Hk].
    + destruct (TreeProps.probes_fractions v s t Hin) as (j & Hj & Hfr & H0 & H1).
      exists j, t. repeat split; auto; lia.
  - intros p x0 y0 r n b s.
    destruct (Tree0Props.bloom_spec p x0 y0 r n b s)
      as [(new & Hp & Hnew & Hperm & _) _].
    exists new. split; [exact Hp|].
    rewrite Forall_forall in Hnew. apply Forall_forall. intros k Hk.
    destruct (Hnew k Hk) as (Hf & Hd).
    split; [exact Hf|]. split; [|exact Hd].
    rewrite Hperm. apply elem_of_app. right.
    apply list_elem_of_fmap. exists k. split; [reflexivity|exact Hk].
Qed.

Lemma C4_witness :
  Tree0.pos (nth 2 (Tree0.parts demo_bloom0) demo_flower0)
  ∈ Tree0.trail demo_bloom0.
Proof.
  apply (proj1 (proj2 C4_flowers_bloom_on_tree) demo_bloom0
           demo_bloom0_reachable).
  - apply (list_elem_of_lookup_2 _ 2%nat). vm_compute. reflexivity.
  - vm_compute. reflexivity.
Defined.

(** ** C5: what a frame mutates *)

(** C5 as stated fails: a frame of part_000 without any video input changes
    [treePositions], and a frame of GenerativeTree.tsx with a hand in view
    changes [prevIndexPos], [fingerStillFrames] and [wandPos]. *)
Lemma C5_frame_mutates_more :
  Tree0.treePositions (Tree0.draw demo no_video (Tree0.setup demo))
  <> Tree0.treePositions (Tree0.setup demo)
  /\ Tree.prevIndexPos (Tree.draw demo tip_video (Tree.setup demo))
     <> Tree.prevIndexPos (Tree.setup demo)
  /\ Tree.fingerStillFrames (Tree.draw demo tip_video (Tree.setup demo))
     <> Tree.fingerStillFrames (Tree.setup demo)
  /\ Tree.wandPos (Tree.draw demo tip_video (Tree.setup demo))
     <> Tree.wandPos (Tree.setup demo).
Proof. vm_compute. repeat split; discriminate. Qed.

(** C5, amended.  Besides [parts], a frame changes [treePositions] and, when
    it processes a video frame, [lastVideoTimeRef] and the variables of the
    hand handler.  A frame that processes no video frame leaves the
    handler's variables and [lastVideoTimeRef] as they were and only appends
    to [treePositions]; a frame that processes one sets [lastVideoTimeRef]
    to the time of that frame. *)
Theorem C5_frame_effect :
  (forall (p : p5) (v : Video) (s : Tree.Sketch),
     (ready v && negb (Qeq_bool (currentTime v) (Tree.lastVideoTime s)) = false ->
      TreeProps.hand_state (Tree.draw p v s) = TreeProps.hand_state s
      /\ exists more,
           Tree.treePositions (Tree.draw p v s) = Tree.treePositions s ++ more)
     /\ (ready v && negb (Qeq_bool (currentTime v) (Tree.lastVideoTime s)) = true ->
         Tree.lastVideoTime (Tree.draw p v s) = currentTime v))
  /\ (forall (p : p5) (v : Video) (s : Tree0.Sketch),
        (ready v && negb (Qeq_bool (currentTime v) (Tree0.lastVideoTime s)) = false ->
         Tree0.prevHandPos (Tree0.draw p v s) = Tree0.prevHandPos s
         /\ Tree0.lastVideoTime (Tree0.draw p v s) = Tree0.lastVideoTime s
         /\ exists more,
              Tree0.treePositions (Tree0.draw p v s)
              = Tree0.treePositions s ++ more)
        /\ (ready v && negb (Qeq_bool (currentTime v) (Tree0.lastVideoTime s)) = true ->
            Tree0.lastVideoTime (Tree0.draw p v s) = currentTime v)).
Proof.
  split; intros p v s; split; intros Hv; unfold Tree.draw, Tree0.draw;
    rewrite Hv.
  - apply TreeProps.draw_loop_frame.
  - match goal with
    | |- Tree.lastVideoTime (Tree.draw_loop p ?n ?s1) = _ =>
        destruct (TreeProps.draw_loop_frame p n s1) as [Hh _];
        apply TreeProps.hand_state_eq in Hh as (_ & _ & _ & ->)
    end.
    destruct (detectForVideo v) as [result|]; [|reflexivity].
    destruct (TreeProps.handle_handled p result
                (Tree.set_lastVideoTime (currentTime v) s))
      as (_ & _ & _ & _ & _ & _ & _ & _ & ->).
    reflexivity.
  - apply Tree0Props.draw_loop_frame0.
  - match goal with
    | |- Tree0.lastVideoTime (Tree0.draw_loop p ?n ?s1) = _ =>
        destruct (Tree0Props.draw_loop_frame0 p n s1) as (_ & -> & _)
    end.
    destruct (detectForVideo v) as [result|]; [|reflexivity].
    destruct (Tree0Props.handle_handled0 p result
                (Tree0.set_lastVideoTime (currentTime v) s))
      as (_ & _ & _ & _ & _ & ->).
    reflexivity.
Qed.

Lemma C5_witness :
  TreeProps.hand_state (Tree.draw demo no_video (Tree.setup demo))
  = TreeProps.hand_state (Tree.setup demo).
Proof.
  apply (proj1 (proj1 C5_frame_effect demo no_video (Tree.setup demo))).
  reflexivity.
Defined.

(** ** Supporting facts *)

(** The unrolling of the two angle loops of the flower branch is long
    enough: [wrap] returns what the loops return, a value neither below
    [-PI] nor above [PI]. *)
Lemma wrap_up_exit (n : nat) :
  forall d, - PI <= d + inject_Z (Z.of_nat n) * TWO_PI ->
  - PI <= Tree.wrap_up n d /\ (d <= PI -> Tree.wrap_up n d <= PI).
Proof.
  assert (HPI : 0 < PI) by reflexivity.
  induction n as [|n IH]; intros d Hd; simpl Tree.wrap_up.
  - change (inject_Z (Z.of_nat 0)) with 0 in Hd. split; [lra|auto].
  - destruct (Qltb d (- PI)) eqn:E.
    + apply Qltb_lt in E.
      rewrite Nat2Z.inj_succ, <- Z.add_1_r, inject_Z_plus in Hd.
      change (inject_Z 1) with 1 in Hd.
      destruct (IH (d + TWO_PI)) as [H1 H2]; [lra|].
      split; [exact H1|]. intros _. apply H2. unfold TWO_PI. lra.
    + apply Qltb_ge in E. split; [exact E|auto].
Qed.

Lemma wrap_down_exit (n : nat) :
  forall d, d - inject_Z (Z.of_nat n) * TWO_PI <= PI ->
  Tree.wrap_down n d <= PI /\ (- PI <= d -> - PI <= Tree.wrap_down n d).
Proof.
  assert (HPI : 0 < PI) by reflexivity.
  induction n as [|n IH]; intros d Hd; simpl Tree.wrap_down.
  - change (inject_Z (Z.of_nat 0)) with 0 in Hd. split; [lra|auto].
  - destruct (Qgtb d PI) eqn:E.
    + apply Qgtb_gt in E.
      rewrite Nat2Z.inj_succ, <- Z.add_1_r, inject_Z_plus in Hd.
      change (inject_Z 1) with 1 in Hd.
      destruct (IH (d - TWO_PI)) as [H1 H2]; [lra|].
      split; [exact H1|]. intros _. apply H2. unfold TWO_PI. lra.
    + apply Qgtb_le in E. split; [exact E|auto].
Qed.

Lemma wrap_rounds_enough (d : Q) :
  Qabs d <= inject_Z (Z.of_nat (Tree.wrap_rounds d)) * TWO_PI.
Proof.
  assert (HT : 0 < TWO_PI) by reflexivity.
  unfold Tree.wrap_rounds.
  pose proof (Qle_ceiling (Qabs d / TWO_PI)) as Hc.
  pose proof (Qabs_nonneg d) as Ha.
  assert (Hq : Qabs d / TWO_PI * TWO_PI == Qabs d) by (field; lra).
  assert (H0 : (0 <= Qceiling (Qabs d / TWO_PI))%Z).
  { destruct (Z.le_gt_cases 0 (Qceiling (Qabs d / TWO_PI))) as [H|H]; [exact H|].
    exfalso. rewrite Zlt_Qlt in H. change (inject_Z 0) with 0 in H.
    assert (0 <= Qabs d / TWO_PI * TWO_PI) by lra.
    assert (Qabs d / TWO_PI * TWO_PI <= inject_Z (Qceiling (Qabs d / TWO_PI)) * TWO_PI)
      by (apply Qmult_le_compat_r; lra).
    nra. }
  rewrite Z2Nat.id by exact H0.
  set (q := Qabs d / TWO_PI) in *. set (m := inject_Z (Qceiling q)) in *.
  assert (q * TWO_PI <= m * TWO_PI) by (apply Qmult_le_compat_r; lra).
  lra.
Qed.

Lemma wrap_in_range (d : Q) : - PI <= Tree.wrap d /\ Tree.wrap d <= PI.
Proof.
  assert (HPI : 0 < PI) by reflexivity.
  unfold Tree.wrap.
  set (d1 := Tree.wrap_up (Tree.wrap_rounds d) d).
  destruct (wrap_up_exit (Tree.wrap_rounds d) d) as [H1 _].
  { pose proof (wrap_rounds_enough d). pose proof (Qle_Qabs (- d)).
    rewrite Qabs_opp in *. lra. }
  fold d1 in H1.
  destruct (wrap_down_exit (Tree.wrap_rounds d1) d1) as [H2 H3].
  { pose proof (wrap_rounds_enough d1). pose proof (Qle_Qabs d1). lra. }
  split; [apply H3; exact H1|exact H2].
Qed.

(** Without a lower bound on the draws nothing forces a tree particle to
    die: when every draw is 0 the first trunk is never tapered. *)
Definition zero_draws : p5 :=
  {| width := 800; height := 600; frameCount := 20; millis := 1000;
     cos := fun _ => 0; sin := fun _ => -1;
     atan2 := fun b a => b / (1 + Qabs a + Qabs b); sqrt := Qsqrt;
     rnd := fun _ => 0 |}.

Lemma trunk_outlives_zero_draws (n : nat) :
  forall this : Tree.Particle,
  Tree.tag this = TRUNK -> Tree.asiz this = 100 -> Tree.spd this = 2 ->
  Tree.siz this == 1 ->
  TreeProps.updates (repeat (zero_draws, O) n) this <> None.
Proof.
  induction n as [|n IH]; intros this Ht Ha Hs Hz; simpl; [discriminate|].
  assert (Hnf : Tree.tag this <> FLOWER) by congruence.
  rewrite (TreeProps.update_tree_dead zero_draws this O Hnf).
  destruct (TreeProps.update_move_fields zero_draws this O)
    as (Ht' & Ha' & Hs' & Hr' & Hz').
  assert (Hsiz : Tree.siz (fst (Tree.update_move zero_draws this O)) == 1).
  { rewrite Hz'. unfold lerp. simpl rnd. rewrite Hz. reflexivity. }
  assert (Hd : Tree.dies (fst (Tree.update_move zero_draws this O)) = false).
  { unfold Tree.dies. rewrite Hr', Hs', Ha, Hs. apply orb_false_intro.
    - apply Qltb_ge. rewrite Hz. discriminate.
    - apply Qgtb_le. rewrite Hz. discriminate. }
  rewrite Hd. rewrite (TreeProps.update_tree_self zero_draws this O Hnf).
  apply IH; congruence.
Qed.

(** ** The model at work *)

(** A flower of part_000 is alive after 9 calls of [update] and dead after
    11.  (The model's exact arithmetic reports the death at the tenth call,
    ten additions of 0.1 being 1; the doubles of the source give
    0.9999999999999999 and report it at the eleventh.) *)
Example flower0_lives_nine_updates :
  Tree0Props.updates (repeat (demo, O) 9) demo_flower0 <> None
  /\ Tree0Props.updates (repeat (demo, O) 11) demo_flower0 = None.
Proof. split; vm_compute; [discriminate|reflexivity]. Qed.

(** A sketch of GenerativeTree.tsx with two recorded positions on the line
    [y = 0], the tip now at (100, 0) and before at [prev]. *)
Definition two_spots (prev : Vec) : Tree.Sketch :=
  Tree.set_prevIndexPos (Some prev)
    (Tree.set_treePositions [mkVec 100 0; mkVec 134 0] Tree.sketch0).

Definition painted_from (prev : Vec) : nat :=
  length (Tree.parts
            (Tree.paint demo (mkVec 100 0) 0.1
               (velocity demo (mkVec 100 0) (Some prev)) (two_spots prev))).

(** A hand that has not moved divides 0 by 0 and paints nothing, although
    the tip is on a recorded position. *)
Example still_hand_paints_nothing : painted_from (mkVec 100 0) = O.
Proof. vm_compute. reflexivity. Qed.

(** In GenerativeTree.tsx more rounds need not mean more flowers: coming
    from (105, 0) at velocity 5 the two rounds bloom both positions, coming
    from (0, 0) at velocity 100 the eleven rounds bloom one. *)
Example more_rounds_fewer_flowers :
  painted_from (mkVec 105 0) = 2%nat /\ painted_from (mkVec 0 0) = 1%nat.
Proof. split; vm_compute; reflexivity. Qed.

(** The first frame of GenerativeTree.tsx moves both trunks up by their
    speed and keeps them alive. *)
Example first_frame :
  (fun k => (Tree.tag k, Tree.pos k, Tree.isBloomed k))
    <$> Tree.parts (Tree.draw demo no_video (Tree.setup demo))
  = [(TRUNK, mkVec (7968 # 20) 568.00, false);
     (TRUNK, mkVec (7968 # 20) 568.00, false)].
Proof. vm_compute. reflexivity. Qed.

(** * Further properties of the sketch *)

(** ** src/components/GenerativeTree.tsx *)

Module TreeExtra.
Import Tree.

(** *** The constructor and [randNeg] *)

Lemma randNeg_sign (p : p5) (n : Q) (c : nat) :
  fst (randNeg p (Some n) c) = n \/ fst (randNeg p (Some n) c) = - n.
Proof.
  unfold randNeg, bind, random, ret. simpl.
  destruct (Qltb (rnd p c) 0.5); [left|right]; reflexivity.
Qed.

Lemma random_in_range (p : p5) (lo hi : Q) (c : nat) :
  unit_draws p -> lo <= hi ->
  lo <= fst (random_in p lo hi c) /\ (lo < hi -> fst (random_in p lo hi c) < hi).
Proof.
  intros Hp Hle. unfold random_in, bind, random, ret. simpl.
  destruct (Hp c) as [H0 H1].
  destruct (Qgtb lo hi) eqn:E.
  - apply Qgtb_gt in E. lra.
  - split; [nra|]. intros Hlt. nra.
Qed.

Lemma new_Particle_args (p : p5) (sx sy : Q) (sc : color) (ss sd sl ls : Q)
    (tg : ParticleType) (c : nat) :
  let k := fst (new_Particle p sx sy sc ss sd sl ls tg c) in
  dir k = sd /\ life k = sl /\ lifespan k = ls /\ col k = sc
  /\ rsiz k = ss * siz k
  /\ isBloomed k = false /\ currentScale k = 1 /\ targetScale k = 1
  /\ currentRotation k = rotationOffset k.
Proof.
  unfold new_Particle, bind, random_of, random_to, random, ret. simpl.
  destruct tg; simpl; repeat split.
Qed.

(** X1.  The speed the constructor gives: 2 to a trunk, 0 to a flower, and a
    draw from [0.25, 2) to everything else. *)
Theorem new_Particle_speed (p : p5) (sx sy : Q) (sc : color) (ss sd sl ls : Q)
    (tg : ParticleType) (c : nat) :
  unit_draws p ->
  let k := fst (new_Particle p sx sy sc ss sd sl ls tg c) in
  (tg = TRUNK -> spd k = 2) /\ (tg = FLOWER -> spd k = 0)
  /\ (tg <> TRUNK -> tg <> FLOWER -> 0.25 <= spd k /\ spd k < 2).
Proof.
  intros Hp. cbv zeta.
  unfold new_Particle, bind, random_of, random_in, random_to, random, ret.
  destruct (Hp (S c)) as [H0 H1].
  destruct tg; simpl; (split; [|split]); intros; try congruence;
    try reflexivity; split; lra.
Qed.

(** *** What one update spawns *)

(** [k] is a particle just constructed at the place of [this], in its
    colour. *)
Definition child_of (this k : Particle) : Prop :=
  TreeProps.born k /\ pos k = pos this /\ col k = col this /\ siz k = 1.

Lemma child_new (p : p5) (this : Particle) (ss sd sl ls : Q)
    (tg : ParticleType) (c : nat) :
  tg <> FLOWER ->
  child_of this
    (fst (new_Particle p (x (pos this)) (y (pos this)) (col this)
            ss sd sl ls tg c)).
Proof.
  intros Hf.
  destruct (TreeProps.new_Particle_fields p (x (pos this)) (y (pos this))
              (col this) ss sd sl ls tg c) as (Hp & _ & _ & Hs & _).
  destruct (new_Particle_args p (x (pos this)) (y (pos this))
              (col this) ss sd sl ls tg c) as (_ & _ & _ & Hc & _).
  split; [|split; [|split]].
  - exists p, (x (pos this)), (y (pos this)), (col this), ss, sd, sl, ls, tg, c.
    reflexivity.
  - rewrite Hp. destruct (pos this). reflexivity.
  - exact Hc.
  - rewrite Hs. unfold is_tag. rewrite bool_decide_eq_false_2 by exact Hf.
    reflexivity.
Qed.

(** X2.  Only a trunk thinner than 0.55 grows a branch; the branch has the
    trunk's rendered size and age and leaves at 15 to 30 degrees. *)
Theorem spawn_branch_spec (p : p5) (this : Particle) (c : nat) :
  unit_draws p ->
  fst (spawn_branch p this c) = []
  \/ exists k,
       fst (spawn_branch p this c) = [k]
       /\ tag this = TRUNK /\ siz this < 0.55
       /\ tag k = BRANCH /\ child_of this k
       /\ asiz k = rsiz this /\ life k = life this
       /\ lifespan k = lifespan this
       /\ 15 <= Qabs (dir k - dir this) /\ Qabs (dir k - dir this) < 30.
Proof.
  intros Hp. unfold spawn_branch, bind.
  destruct (random p c) as [u c1].
  destruct (Qltb u 0.03 && is_tag (tag this) TRUNK && Qltb (siz this) 0.55)
    eqn:E; [right|left; reflexivity].
  apply andb_prop in E as [E E3]. apply andb_prop in E as [_ E2].
  apply Qltb_lt in E3. unfold is_tag in E2. apply bool_decide_eq_true in E2.
  destruct (random_in_range p 15 30 c1 Hp) as [Hlo Hhi]; [discriminate|].
  specialize (Hhi eq_refl).
  destruct (random_in p 15 30 c1) as [a c2]. simpl in Hlo, Hhi.
  pose proof (randNeg_sign p a c2) as Hn.
  destruct (randNeg p (Some a) c2) as [n c3]. simpl in Hn.
  pose proof (child_new p this (rsiz this) (dir this + n) (life this)
                (lifespan this) BRANCH c3) as Hch.
  pose proof (TreeProps.new_Particle_fields p (x (pos this)) (y (pos this))
                (col this) (rsiz this) (dir this + n) (life this)
                (lifespan this) BRANCH c3) as (_ & Ht & Ha & _).
  pose proof (new_Particle_args p (x (pos this)) (y (pos this))
                (col this) (rsiz this) (dir this + n) (life this)
                (lifespan this) BRANCH c3) as (Hd & Hl & Hls & _).
  destruct (new_Particle p _ _ _ _ _ _ _ BRANCH c3) as [k c4].
  simpl in *. exists k.
  assert (Hdiff : dir k - dir this == n) by (rewrite Hd; ring).
  assert (Habs : Qabs (dir k - dir this) == a).
  { rewrite Hdiff. destruct Hn as [-> | ->].
    - apply Qabs_pos. lra.
    - rewrite Qabs_opp. apply Qabs_pos. lra. }
  repeat split; auto; try discriminate; rewrite ?Habs; auto.
  all: apply Hch; discriminate.
Qed.

(** X3.  Only a branch forks; the fork keeps the direction. *)
Theorem fork_branch_spec (p : p5) (this : Particle) (c : nat) :
  fst (fork_branch p this c) = []
  \/ exists k,
       fst (fork_branch p this c) = [k]
       /\ tag this = BRANCH
       /\ tag k = BRANCH /\ child_of this k
       /\ asiz k = rsiz this /\ life k = life this
       /\ lifespan k = lifespan this /\ dir k = dir this.
Proof.
  unfold fork_branch, bind.
  destruct (random p c) as [u c1].
  destruct (Qltb u 0.01 && is_tag (tag this) BRANCH) eqn:E;
    [right|left; reflexivity].
  apply andb_prop in E as [_ E2].
  unfold is_tag in E2. apply bool_decide_eq_true in E2.
  pose proof (child_new p this (rsiz this) (dir this) (life this)
                (lifespan this) BRANCH c1) as Hch.
  pose proof (TreeProps.new_Particle_fields p (x (pos this)) (y (pos this))
                (col this) (rsiz this) (dir this) (life this)
                (lifespan this) BRANCH c1) as (_ & Ht & Ha & _).
  pose proof (new_Particle_args p (x (pos this)) (y (pos this))
                (col this) (rsiz this) (dir this) (life this)
                (lifespan this) BRANCH c1) as (Hd & Hl & Hls & _).
  destruct (new_Particle p _ _ _ _ _ _ _ BRANCH c1) as [k c2].
  simpl in *. exists k. repeat split; auto; apply Hch; discriminate.
Qed.

(** X4.  Only a branch thinner than 0.25 grows a twig; the twig starts a
    life of its own, at most a twentieth of the branch's lifespan long, and
    leaves at 5 to 20 degrees. *)
Theorem spawn_twig_spec (p : p5) (this : Particle) (c : nat) :
  unit_draws p -> 0 <= lifespan this ->
  fst (spawn_twig p this c) = []
  \/ exists k,
       fst (spawn_twig p this c) = [k]
       /\ tag this = BRANCH /\ siz this < 0.25
       /\ tag k = TWIG /\ child_of this k
       /\ asiz k = sqrt p (siz this) * rsiz this /\ life k = 0
       /\ 0 <= lifespan k /\ lifespan k <= lifespan this * 0.05
       /\ 5 <= Qabs (dir k - dir this) /\ Qabs (dir k - dir this) < 20.
Proof.
  intros Hp Hls0. unfold spawn_twig, bind. cbv zeta.
  destruct (random p c) as [u c1] eqn:Eu.
  assert (Hu : 0 <= u).
  { unfold random in Eu. injection Eu as <- _. apply Hp. }
  destruct (is_tag (tag this) BRANCH && Qltb (siz this) 0.25) eqn:E.
  2:{ left. assert (Qltb u 0 = false) by (apply Qltb_ge; exact Hu).
      rewrite H. reflexivity. }
  apply andb_prop in E as [E2 E3].
  apply Qltb_lt in E3. unfold is_tag in E2. apply bool_decide_eq_true in E2.
  destruct (Qltb u _); [right|left; reflexivity].
  destruct (random_in_range p 5 20 c1 Hp) as [Hlo Hhi]; [discriminate|].
  specialize (Hhi eq_refl).
  destruct (random_in p 5 20 c1) as [a c2]. simpl in Hlo, Hhi.
  pose proof (randNeg_sign p a c2) as Hn.
  destruct (randNeg p (Some a) c2) as [n c3]. simpl in Hn.
  assert (Hl : 0 <= fst (random_to p (lifespan this * 0.05) c3)
               /\ fst (random_to p (lifespan this * 0.05) c3)
                  <= lifespan this * 0.05).
  { unfold random_to, bind, random, ret. simpl.
    destruct (Hp c3) as [H0 H1]. split; nra. }
  destruct (random_to p (lifespan this * 0.05) c3) as [ls c4]. simpl in Hl.
  set (newSize := sqrt p (siz this) * rsiz this).
  pose proof (child_new p this newSize (dir this + n) 0 ls TWIG c4) as Hch.
  pose proof (TreeProps.new_Particle_fields p (x (pos this)) (y (pos this))
                (col this) newSize (dir this + n) 0 ls TWIG c4)
    as (_ & Ht & Ha & _).
  pose proof (new_Particle_args p (x (pos this)) (y (pos this))
                (col this) newSize (dir this + n) 0 ls TWIG c4)
    as (Hd & Hlf & Hlsk & _).
  destruct (new_Particle p _ _ _ _ _ _ _ TWIG c4) as [k c5].
  simpl in *. exists k.
  assert (Hdiff : dir k - dir this == n) by (rewrite Hd; ring).
  assert (Habs : Qabs (dir k - dir this) == a).
  { rewrite Hdiff. destruct Hn as [-> | ->].
    - apply Qabs_pos. lra.
    - rewrite Qabs_opp. apply Qabs_pos. lra. }
  destruct Hl as [Hl0 Hl1].
  repeat split; auto; try discriminate; rewrite ?Habs, ?Hlsk; auto.
  all: apply Hch; discriminate.
Qed.

Lemma new_Particle_speed_witness :
  0.25 <= spd (fst (new_Particle demo 0 0 PALETTE_trunk 1 0 0 0 TWIG O))
  /\ spd (fst (new_Particle demo 0 0 PALETTE_trunk 1 0 0 0 TWIG O)) < 2.
Proof.
  apply (new_Particle_speed demo 0 0 PALETTE_trunk 1 0 0 0 TWIG O
           demo_unit_draws); discriminate.
Defined.

Lemma spawn_branch_spec_witness :
  fst (spawn_branch demo demo_trunk O) = []
  \/ exists k,
       fst (spawn_branch demo demo_trunk O) = [k]
       /\ tag demo_trunk = TRUNK /\ siz demo_trunk < 0.55
       /\ tag k = BRANCH /\ child_of demo_trunk k
       /\ asiz k = rsiz demo_trunk /\ life k = life demo_trunk
       /\ lifespan k = lifespan demo_trunk
       /\ 15 <= Qabs (dir k - dir demo_trunk)
       /\ Qabs (dir k - dir demo_trunk) < 30.
Proof. apply (spawn_branch_spec demo demo_trunk O demo_unit_draws). Defined.

Lemma spawn_twig_spec_witness :
  fst (spawn_twig demo demo_trunk O) = []
  \/ exists k,
       fst (spawn_twig demo demo_trunk O) = [k]
       /\ tag demo_trunk = BRANCH /\ siz demo_trunk < 0.25
       /\ tag k = TWIG /\ child_of demo_trunk k
       /\ asiz k = sqrt demo (siz demo_trunk) * rsiz demo_trunk /\ life k = 0
       /\ 0 <= lifespan k /\ lifespan k <= lifespan demo_trunk * 0.05
       /\ 5 <= Qabs (dir k - dir demo_trunk)
       /\ Qabs (dir k - dir demo_trunk) < 20.
Proof.
  apply (spawn_twig_spec demo demo_trunk O demo_unit_draws).
  vm_compute. discriminate.
Defined.

(** *** Movement *)

(** X5.  A tree particle moves by its speed along its direction before it is
    turned; a trunk thicker than 0.9 is turned by at most one degree. *)
Theorem thick_trunk_steady (p : p5) (this : Particle) (c : nat) :
  unit_draws p -> tag this = TRUNK -> 0.9 < siz this ->
  let this' := self (fst (update p this c)) in
  Qabs (dir this' - dir this) <= 1
  /\ pos this'
     = vadd (pos this)
         (mkVec (cos p (radians (dir this)) * spd this)
                (sin p (radians (dir this)) * spd this)).
Proof.
  intros Hp Ht Hs. cbv zeta.
  assert (Hnf : tag this <> FLOWER) by congruence.
  rewrite (TreeProps.update_tree_self p this c Hnf).
  unfold update_move, random_in, random_to, random, bind, ret.
  apply Qgtb_gt in Hs. unfold is_tag.
  rewrite Ht, Hs. rewrite (bool_decide_eq_true_2 (TRUNK = TRUNK) eq_refl).
  cbn [andb].
  change (Qgtb (-1) 1) with false. cbv beta iota zeta. cbn [fst dir pos].
  split; [|reflexivity].
  destruct (Hp c) as [H0 H1].
  apply Qabs_Qle_condition. split; lra.
Qed.

Lemma thick_trunk_steady_witness :
  Qabs (dir (self (fst (update demo demo_trunk O))) - dir demo_trunk) <= 1.
Proof.
  apply (thick_trunk_steady demo demo_trunk O demo_unit_draws);
    [reflexivity|vm_compute; reflexivity].
Defined.

(** *** The flower animation *)

Lemma wrap_up_shift (n : nat) :
  forall d, exists k : Z, wrap_up n d == d + inject_Z k * TWO_PI.
Proof.
  induction n as [|n IH]; intros d; simpl.
  - exists 0%Z. ring.
  - destruct (Qltb d (- PI)).
    + destruct (IH (d + TWO_PI)) as [k Hk]. exists (k + 1)%Z.
      rewrite Hk, inject_Z_plus. change (inject_Z 1) with 1. ring.
    + exists 0%Z. ring.
Qed.

Lemma wrap_down_shift (n : nat) :
  forall d, exists k : Z, wrap_down n d == d + inject_Z k * TWO_PI.
Proof.
  induction n as [|n IH]; intros d; simpl.
  - exists 0%Z. ring.
  - destruct (Qgtb d PI).
    + destruct (IH (d - TWO_PI)) as [k Hk]. exists (k - 1)%Z.
      rewrite Hk. unfold Z.sub. rewrite inject_Z_plus.
      change (inject_Z (- (1))) with (- (1)). ring.
    + exists 0%Z. ring.
Qed.

Lemma wrap_fixed (d : Q) : - PI <= d -> d <= PI -> wrap d = d.
Proof.
  intros Hlo Hhi. unfold wrap.
  assert (Hup : forall n, wrap_up n d = d).
  { intros [|n]; simpl; [reflexivity|].
    assert (E : Qltb d (- PI) = false) by (apply Qltb_ge; exact Hlo).
    rewrite E. reflexivity. }
  rewrite Hup.
  destruct (wrap_rounds d) as [|n]; simpl; [reflexivity|].
  assert (E : Qgtb d PI = false) by (apply Qgtb_le; exact Hhi).
  rewrite E. reflexivity.
Qed.

(** X6.  The two [while] loops of the hovered flower bring the angle difference
    into [-PI, PI] by whole turns, and leave alone a difference that is
    already there. *)
Theorem wrap_spec (d : Q) :
  (exists k : Z, wrap d == d + inject_Z k * TWO_PI)
  /\ - PI <= wrap d /\ wrap d <= PI
  /\ (- PI <= d -> d <= PI -> wrap d = d).
Proof.
  split; [|split; [apply wrap_in_range|split; [apply wrap_in_range|apply wrap_fixed]]].
  unfold wrap.
  destruct (wrap_up_shift (wrap_rounds d) d) as [k1 H1].
  destruct (wrap_down_shift (wrap_rounds (wrap_up (wrap_rounds d) d))
              (wrap_up (wrap_rounds d) d)) as [k2 H2].
  exists (k1 + k2)%Z. rewrite H2, H1, inject_Z_plus. ring.
Qed.

(** X7.  A flower hovered within the last 200 ms blooms, aims at scale 2.5 and
    turns towards the finger by a tenth of the wrapped difference: by at
    most [PI / 10] in one update. *)
Theorem hovered_flower_turns (p : p5) (this : Particle) (c : nat) :
  tag this = FLOWER -> millis p - lastHoveredTime this < 200 ->
  let this' := self (fst (update p this c)) in
  isBloomed this' = true /\ targetScale this' = 2.5
  /\ currentRotation this'
     = currentRotation this
       + wrap (interactionRotation this - currentRotation this) * 0.1
  /\ Qabs (currentRotation this' - currentRotation this) <= PI / 10.
Proof.
  intros Ht Hh. cbv zeta.
  rewrite (TreeProps.update_flower_eq p this c Ht).
  apply Qltb_lt in Hh.
  unfold update_flower. cbn [fst self isBloomed targetScale currentRotation].
  rewrite Hh. repeat split.
  destruct (wrap_in_range (interactionRotation this - currentRotation this))
    as [Hlo Hhi].
  set (w := wrap (interactionRotation this - currentRotation this)) in *.
  assert (E : currentRotation this + w * 0.1 - currentRotation this == w * 0.1)
    by ring.
  rewrite E. apply Qabs_Qle_condition.
  assert (HP : PI / 10 == PI * 0.1) by reflexivity.
  rewrite HP. split; lra.
Qed.

Lemma hovered_flower_turns_witness :
  isBloomed (self (fst (update demo (hover 900 1 demo_flower) O))) = true.
Proof.
  apply (hovered_flower_turns demo (hover 900 1 demo_flower) O);
    [reflexivity|vm_compute; reflexivity].
Defined.

(** How [update] and [hover] treat the animation fields. *)
Lemma update_animation (p : p5) (this : Particle) (c : nat) :
  let this' := self (fst (update p this c)) in
  (tag this <> FLOWER ->
     currentScale this' = currentScale this
     /\ targetScale this' = targetScale this
     /\ isBloomed this' = isBloomed this)
  /\ (tag this = FLOWER ->
        currentScale this' = lerp (currentScale this) (targetScale this') 0.1
        /\ (targetScale this' = 1 /\ isBloomed this' = false
              /\ isBloomed this = false
            \/ targetScale this' = 2.5 /\ isBloomed this' = true
               /\ (isBloomed this = true
                   \/ millis p - lastHoveredTime this < 200))).
Proof.
  cbv zeta. split; intros Ht.
  - rewrite (TreeProps.update_tree_self p this c Ht).
    unfold update_move, bind, random_in, random_to, random, ret. simpl.
    repeat split.
  - rewrite (TreeProps.update_flower_eq p this c Ht).
    unfold update_flower. cbn [fst self isBloomed targetScale currentScale].
    split; [reflexivity|].
    destruct (Qltb (millis p - lastHoveredTime this) 200) eqn:E.
    + right. apply Qltb_lt in E. auto.
    + destruct (isBloomed this); [right|left]; auto.
Qed.

(** X8.  The scale of a flower stays between 1 and 2.5 and aims at one of the
    two; only flowers bloom, and a bloomed one aims at 2.5. *)
Theorem scale_bounds (k : Particle) :
  TreeProps.grown k ->
  1 <= currentScale k /\ currentScale k <= 2.5
  /\ (targetScale k = 1 \/ targetScale k = 2.5)
  /\ (isBloomed k = true -> tag k = FLOWER /\ targetScale k = 2.5).
Proof.
  intros (k0 & Hb & Hev).
  assert (H0 : 1 <= currentScale k0 /\ currentScale k0 <= 2.5
               /\ (targetScale k0 = 1 \/ targetScale k0 = 2.5)
               /\ (isBloomed k0 = true ->
                   tag k0 = FLOWER /\ targetScale k0 = 2.5)).
  { destruct Hb as (p & sx & sy & sc & ss & sd & sl & ls & tg & c & ->).
    destruct (new_Particle_args p sx sy sc ss sd sl ls tg c)
      as (_ & _ & _ & _ & _ & Hbl & Hcs & Hts & _).
    rewrite Hbl, Hcs, Hts. repeat split; try lra; auto; discriminate. }
  clear Hb. induction Hev as [k|p c k k' Hp Hev IH|t a k k' Hev IH];
    [exact H0| |exact (IH H0)].
  specialize (IH H0). destruct IH as (Hlo & Hhi & Hts & Hbl).
  destruct (update_animation p k' c) as [Htree Hflower].
  destruct (decide (tag k' = FLOWER)) as [Ht|Ht].
  - destruct (Hflower Ht) as (Hcs & Hcase).
    rewrite Hcs, (TreeProps.update_tag p k' c).
    destruct Hcase as [(-> & -> & _)|(-> & -> & _)]; unfold lerp;
      repeat split; try lra; auto; try discriminate.
  - destruct (Htree Ht) as (-> & -> & ->).
    rewrite (TreeProps.update_tag p k' c). auto.
Qed.

Lemma scale_bounds_witness :
  1 <= currentScale (self (fst (update demo (hover 900 1 demo_flower) O))).
Proof.
  apply (scale_bounds (self (fst (update demo (hover 900 1 demo_flower) O)))).
  exists demo_flower. split.
  - exists demo, 400, 300, "#FFB7B2"%string, 20, 0, 0, 0, FLOWER, O.
    reflexivity.
  - apply TreeProps.ev_update; [exact demo_unit_draws|].
    apply TreeProps.ev_hover, TreeProps.ev_refl.
Defined.

(** [calls] successive updates of one particle that reports no death. *)
Definition after (calls : list (p5 * nat)) (this : Particle) : Particle :=
  fold_left (fun k pc => self (fst (update (fst pc) k (snd pc)))) calls this.

Lemma after_cons (p : p5) (c : nat) (calls : list (p5 * nat)) (this : Particle) :
  after ((p, c) :: calls) this = after calls (self (fst (update p this c))).
Proof. reflexivity. Qed.

(** One update of a flower no larger than 1. *)
Lemma flower_step (p : p5) (this : Particle) (c : nat) :
  tag this = FLOWER -> siz this <= 1 ->
  let this' := self (fst (update p this c)) in
  tag this' = FLOWER /\ siz this <= siz this' /\ siz this' <= 1
  /\ Qmin' (siz this + 0.099) 1 <= siz this'
  /\ siz this' <= siz this + 0.101.
Proof.
  intros Ht Hs. cbv zeta. rewrite TreeProps.update_tag.
  split; [exact Ht|].
  rewrite (TreeProps.update_flower_eq p this c Ht).
  unfold update_flower. cbn [fst self siz]. unfold Qmin', Qgtb.
  destruct (Qltb (siz this) 1) eqn:E1;
    destruct (Qltb 1 (siz this + 0.1)) eqn:E2;
    destruct (Qltb 1 (siz this + 0.099)) eqn:E3;
    repeat match goal with
    | H : Qltb _ _ = true |- _ => apply Qltb_lt in H
    | H : Qltb _ _ = false |- _ => apply Qltb_ge in H
    end; repeat split; lra.
Qed.

(** The growth of a flower over several updates, with room for the
    rounding of the additions: at least 0.099 and at most 0.101 per update
    until the cap. *)
Lemma flower_growth_bounds (calls : list (p5 * nat)) :
  forall this : Particle,
  tag this = FLOWER -> siz this <= 1 ->
  let n := inject_Z (Z.of_nat (length calls)) in
  tag (after calls this) = FLOWER
  /\ siz this <= siz (after calls this) /\ siz (after calls this) <= 1
  /\ Qmin' (siz this + 0.099 * n) 1 <= siz (after calls this)
  /\ siz (after calls this) <= siz this + 0.101 * n.
Proof.
  induction calls as [|[p c] calls IH]; intros this Ht Hs; cbv zeta.
  - simpl after. simpl length. change (inject_Z (Z.of_nat 0)) with 0.
    split; [exact Ht|]. unfold Qmin'.
    destruct (Qltb 1 (siz this + 0.099 * 0)) eqn:E;
      [apply Qltb_lt in E|]; repeat split; lra.
  - rewrite after_cons.
    destruct (flower_step p this c Ht Hs) as (Ht1 & Hm1 & Hle1 & Hlo1 & Hhi1).
    set (this1 := self (fst (update p this c))) in *.
    destruct (IH this1 Ht1 Hle1) as (IHt & IHm & IHle & IHlo & IHhi).
    cbn [length]. rewrite Nat2Z.inj_succ, <- Z.add_1_r, inject_Z_plus.
    change (inject_Z 1) with 1.
    set (n := inject_Z (Z.of_nat (length calls))) in *.
    assert (Hn : 0 <= n).
    { unfold n. change 0 with (inject_Z 0). rewrite <- Zle_Qle. lia. }
    split; [exact IHt|].
    revert Hlo1 IHlo. unfold Qmin'.
    destruct (Qltb 1 (siz this + 0.099)) eqn:E1;
      destruct (Qltb 1 (siz this1 + 0.099 * n)) eqn:E2;
      destruct (Qltb 1 (siz this + 0.099 * (n + 1))) eqn:E3;
      intros Hlo1 IHlo;
      repeat match goal with
      | H : Qltb _ _ = true |- _ => apply Qltb_lt in H
      | H : Qltb _ _ = false |- _ => apply Qltb_ge in H
      end; repeat split; lra.
Qed.

(** X9.  Over any number of updates a flower that is no larger than 1
    neither shrinks nor exceeds 1; after eleven updates it is at full size,
    and a flower fresh from the constructor is not there before the tenth.
    (The tenth addition of 0.1 reaches 1 in exact arithmetic and
    0.9999999999999999 in the doubles of the source: these bounds hold for
    both.) *)
Theorem flower_grows (calls : list (p5 * nat)) (this : Particle) :
  tag this = FLOWER -> 0 <= siz this -> siz this <= 1 ->
  tag (after calls this) = FLOWER
  /\ siz this <= siz (after calls this) /\ siz (after calls this) <= 1
  /\ ((11 <= length calls)%nat -> siz (after calls this) == 1)
  /\ (siz this == 0 -> (length calls <= 9)%nat -> siz (after calls this) < 1).
Proof.
  intros Ht H0 H1.
  destruct (flower_growth_bounds calls this Ht H1) as (Ht' & Hm & Hle & Hlo & Hhi).
  cbv zeta in Hlo, Hhi.
  set (n := inject_Z (Z.of_nat (length calls))) in *.
  split; [exact Ht'|]. split; [exact Hm|]. split; [exact Hle|]. split.
  - intros Hn.
    assert (Hq : 11 <= n).
    { unfold n. change 11 with (inject_Z 11). rewrite <- Zle_Qle. lia. }
    revert Hlo. unfold Qmin'.
    destruct (Qltb 1 (siz this + 0.099 * n)) eqn:E; intros Hlo.
    + lra.
    + apply Qltb_ge in E. lra.
  - intros Hz Hn.
    assert (Hq : n <= 9).
    { unfold n. change 9 with (inject_Z 9). rewrite <- Zle_Qle. lia. }
    lra.
Qed.

Lemma flower_grows_witness :
  siz (after (repeat (demo, O) 11) demo_flower) == 1.
Proof.
  apply (flower_grows (repeat (demo, O) 11) demo_flower);
    [reflexivity|vm_compute; discriminate|vm_compute; discriminate|].
  vm_compute. lia.
Defined.

(** X10.  Once bloomed, a flower stays bloomed through any number of
    updates and aims at scale 2.5; its scale never shrinks and never
    exceeds 2.5, and the gap to 2.5 falls geometrically (the bound leaves
    room for the rounding of the doubles, where the scale comes to rest a
    few ulps below 2.5). *)
Theorem bloomed_flower_magnifies (calls : list (p5 * nat)) :
  forall this : Particle,
  tag this = FLOWER -> isBloomed this = true -> currentScale this <= 2.5 ->
  isBloomed (after calls this) = true
  /\ (calls <> [] -> targetScale (after calls this) = 2.5)
  /\ currentScale this <= currentScale (after calls this)
  /\ currentScale (after calls this) <= 2.5
  /\ 2.5 - currentScale (after calls this)
     <= 0.91 ^ Z.of_nat (length calls) * (2.5 - currentScale this)
        + (1 # 1000000000).
Proof.
  induction calls as [|[p c] calls IH]; intros this Ht Hb Hs.
  - unfold after. cbn [fold_left length].
    change (0.91 ^ Z.of_nat 0) with 1.
    split; [exact Hb|]. split; [congruence|]. repeat split; lra.
  - rewrite after_cons.
    set (this1 := self (fst (update p this c))).
    assert (Ht1 : tag this1 = FLOWER)
      by (unfold this1; rewrite TreeProps.update_tag; exact Ht).
    destruct (update_animation p this c) as [_ Hfl].
    destruct (Hfl Ht) as (Hcs & Hcase). fold this1 in Hcs, Hcase.
    destruct Hcase as [(_ & _ & Hno)|(Hts & Hb1 & _)]; [congruence|].
    assert (Hcs1 : currentScale this1 == currentScale this
                                         + 0.1 * (2.5 - currentScale this)).
    { rewrite Hcs, Hts. unfold lerp. ring. }
    assert (Hs1 : currentScale this1 <= 2.5) by (rewrite Hcs1; lra).
    destruct (IH this1 Ht1 Hb1 Hs1) as (IHb & IHt & IHlo & IHhi & IHgap).
    split; [exact IHb|]. split.
    { intros _. destruct calls as [|pc calls']; [exact Hts|].
      apply IHt. discriminate. }
    split; [rewrite Hcs1 in IHlo; lra|]. split; [exact IHhi|].
    cbn [length]. rewrite Nat2Z.inj_succ, <- Z.add_1_r.
    rewrite Qpower_plus by discriminate. simpl (0.91 ^ 1).
    assert (Hpow : 0 <= 0.91 ^ Z.of_nat (length calls))
      by (apply Qpower_0_le; discriminate).
    set (w := 0.91 ^ Z.of_nat (length calls)) in *.
    rewrite Hcs1 in IHgap.
    set (g := 2.5 - currentScale this) in *.
    assert (Hg : 0 <= g) by (unfold g; lra).
    assert (Hwg : 0 <= w * g) by (apply Qmult_le_0_compat; assumption).
    assert (E : 2.5 - (currentScale this + 0.1 * g) == 0.9 * g)
      by (unfold g; ring).
    rewrite E in IHgap.
    assert (E2 : w * (0.9 * g) == 0.9 * (w * g)) by ring.
    assert (E3 : w * 0.91 * g == 0.91 * (w * g)) by ring.
    rewrite E2 in IHgap. rewrite E3. lra.
Qed.

Lemma bloomed_flower_magnifies_witness :
  isBloomed
    (after [(demo, O)] (self (fst (update demo (hover 900 1 demo_flower) O))))
  = true.
Proof.
  apply (bloomed_flower_magnifies [(demo, O)]
           (self (fst (update demo (hover 900 1 demo_flower) O))));
    [reflexivity|reflexivity|vm_compute; discriminate].
Defined.

End TreeExtra.
(** ** The particle loop of p.draw in GenerativeTree.tsx *)

Module LoopExtra.
Import Tree.

(** [o] is what a call of [update] on [k] returned. *)
Definition outcome (p : p5) (k : Particle) (o : Outcome) : Prop :=
  exists c, o = fst (update p k c).

(** What one visit of the loop leaves of a particle: nothing when [update]
    reports death, the updated particle otherwise. *)
Definition survivor (o : Outcome) : option Particle :=
  if isDead o then None else Some (self o).

(** What the updates pushed onto [parts], in the order of the pushes: the
    loop visits the particles from the last to the first. *)
Definition offspring (os : list Outcome) : list Particle :=
  concat (pushed <$> reverse os).

Lemma omap_survivor_cons (o : Outcome) (os : list Outcome) :
  omap survivor (o :: os)
  = if isDead o then omap survivor os else self o :: omap survivor os.
Proof. unfold survivor. simpl. destruct (isDead o); reflexivity. Qed.

Lemma offspring_snoc (os : list Outcome) (o : Outcome) :
  offspring (os ++ [o]) = pushed o ++ offspring os.
Proof. unfold offspring. rewrite reverse_snoc. reflexivity. Qed.

Lemma offspring_tags (p : p5) (ps : list Particle) (os : list Outcome) :
  Forall2 (outcome p) ps os ->
  Forall (fun k => tag k <> FLOWER) (offspring os).
Proof.
  unfold offspring. induction 1 as [|k o ps os [c ->] _ IH]; [constructor|].
  rewrite reverse_cons, fmap_app, concat_app.
  apply Forall_app. split; [exact IH|].
  simpl. rewrite app_nil_r.
  destruct (TreeProps.update_effects p k c) as (Hkids & _). exact Hkids.
Qed.

Lemma draw_part_around (p : p5) (i : nat) (s : Sketch) (part : Particle) :
  parts s !! i = Some part ->
  let o := fst (update p part (seed s)) in
  parts (draw_part p i s)
  = take i (parts s)
    ++ (if isDead o then [] else [self o])
    ++ drop (S i) (parts s) ++ pushed o.
Proof.
  intros Hpart. cbv zeta.
  destruct (TreeProps.draw_part_spec p i s part Hpart) as (-> & _).
  assert (Hi : (i < length (parts s))%nat)
    by (apply lookup_lt_is_Some_1; eauto).
  destruct (isDead (fst (update p part (seed s)))).
  - rewrite delete_take_drop, <- app_assoc. reflexivity.
  - rewrite insert_take_drop by exact Hi. rewrite <- app_assoc. reflexivity.
Qed.

Lemma draw_loop_parts (p : p5) (n : nat) :
  forall s : Sketch, (n <= length (parts s))%nat ->
  exists os,
    Forall2 (outcome p) (take n (parts s)) os
    /\ parts (draw_loop p n s)
       = omap survivor os ++ drop n (parts s) ++ offspring os.
Proof.
  induction n as [|n IH]; intros s Hn.
  - exists []. simpl. rewrite app_nil_r. split; [constructor|reflexivity].
  - destruct (lookup_lt_is_Some_2 (parts s) n) as [part Hpart]; [lia|].
    pose proof (draw_part_around p n s part Hpart) as Hs1. cbv zeta in Hs1.
    set (o := fst (update p part (seed s))) in *.
    set (mid := if isDead o then [] else [self o]) in *.
    assert (Hlen : length (take n (parts s)) = n)
      by (rewrite length_take; lia).
    simpl draw_loop.
    destruct (IH (draw_part p n s)) as (os & Hos & Hparts).
    { rewrite Hs1, length_app. lia. }
    rewrite Hs1 in Hos, Hparts.
    rewrite (take_app_length' _ _ n (eq_sym Hlen)) in Hos.
    rewrite (drop_app_length' _ _ n (eq_sym Hlen)) in Hparts.
    exists (os ++ [o]). split.
    + rewrite (take_S_r _ _ _ Hpart). apply Forall2_app; [exact Hos|].
      constructor; [|constructor]. exists (seed s). reflexivity.
    + rewrite Hparts, omap_app, offspring_snoc, omap_survivor_cons.
      unfold mid. destruct (isDead o); simpl; rewrite <- ?app_assoc;
        reflexivity.
Qed.

(** X11.  One run of the loop calls [update] once on every particle that
    was in [parts] when it started: the survivors stay in their order, the
    dead are spliced out, and behind them stand the particles these calls
    pushed, as they were pushed (the loop does not visit them) and in the
    order of the pushes; none of them is a flower. *)
Theorem draw_loop_updates (p : p5) (s : Sketch) :
  exists os,
    Forall2 (outcome p) (parts s) os
    /\ parts (draw_loop p (length (parts s)) s)
       = omap survivor os ++ offspring os
    /\ Forall (fun k => tag k <> FLOWER) (offspring os).
Proof.
  destruct (draw_loop_parts p (length (parts s)) s) as (os & H1 & H2); [lia|].
  exists os. rewrite firstn_all in H1. rewrite drop_all in H2.
  split; [exact H1|]. split; [exact H2|].
  exact (offspring_tags p _ _ H1).
Qed.

(** The flowers among [ps], in order. *)
Definition flowers (ps : list Particle) : list Particle :=
  filter (fun k => tag k = FLOWER) ps.

Lemma flowers_none (ps : list Particle) :
  Forall (fun k => tag k <> FLOWER) ps -> flowers ps = [].
Proof.
  unfold flowers. induction 1 as [|k ps Hk _ IH]; [reflexivity|].
  rewrite filter_cons_False by exact Hk. exact IH.
Qed.

Lemma outcome_flowers (p : p5) (ps : list Particle) (os : list Outcome) :
  Forall2 (outcome p) ps os ->
  (fun k => (pos k, asiz k)) <$> flowers (omap survivor os)
  = (fun k => (pos k, asiz k)) <$> flowers ps.
Proof.
  unfold flowers. induction 1 as [|k o ps os [c ->] _ IH]; [reflexivity|].
  rewrite omap_survivor_cons.
  destruct (decide (tag k = FLOWER)) as [Ht|Ht].
  - rewrite (TreeProps.flower_never_dies p k c Ht).
    destruct (TreeProps.update_flower_keeps p k c Ht)
      as (Hp & _ & Ht' & Ha & _).
    rewrite !filter_cons_True by assumption.
    rewrite !fmap_cons, IH, Hp, Ha. reflexivity.
  - assert (Ht' : tag (self (fst (update p k c))) <> FLOWER)
      by (rewrite TreeProps.update_tag; exact Ht).
    rewrite (filter_cons_False _ k) by exact Ht.
    destruct (isDead (fst (update p k c))).
    + exact IH.
    + rewrite filter_cons_False by exact Ht'. exact IH.
Qed.

(** X12.  The loop neither adds, removes, reorders, moves nor resizes a flower:
    in GenerativeTree.tsx flowers come and go only through the hand handler
    and the window. *)
Theorem draw_loop_keeps_flowers (p : p5) (s : Sketch) :
  (fun k => (pos k, asiz k)) <$> flowers (parts (draw_loop p (length (parts s)) s))
  = (fun k => (pos k, asiz k)) <$> flowers (parts s).
Proof.
  destruct (draw_loop_parts p (length (parts s)) s) as (os & H1 & H2); [lia|].
  rewrite firstn_all in H1. rewrite drop_all in H2. simpl in H2.
  rewrite H2. unfold flowers at 1. rewrite filter_app.
  fold (flowers (offspring os)). fold (flowers (omap survivor os)).
  rewrite (flowers_none _ (offspring_tags p _ _ H1)), app_nil_r.
  exact (outcome_flowers p _ _ H1).
Qed.

(** What [update] pushes onto [treePositions]: the new position of a tree
    particle that survives, in every fifth frame and above the bottom 30%
    of the canvas. *)
Lemma update_records (p : p5) (this : Particle) (c : nat) :
  let o := fst (update p this c) in
  recorded o
  = if negb (is_tag (tag this) FLOWER) && negb (isDead o)
       && (frameCount p mod 5 =? 0)%Z
       && Qltb (y (pos (self o))) (height p * 0.7)
    then [pos (self o)] else [].
Proof.
  cbv zeta. unfold update.
  destruct (is_tag (tag this) FLOWER); [reflexivity|].
  unfold bind. destruct (update_move p this c) as [this1 c1].
  destruct (dies this1); [reflexivity|].
  destruct (update_spawn p this1 c1) as [kids c2].
  unfold ret. cbn [fst self isDead recorded negb andb].
  destruct (pos this1) as [px py]. cbn [x y].
  destruct ((frameCount p mod 5 =? 0)%Z && Qltb py (height p * 0.7));
    reflexivity.
Qed.

(** X13.  In one run of the loop [treePositions] only grows, by at most one
    position per particle visited, each above the bottom 30% of the canvas;
    it does not grow at all unless the frame count is a multiple of 5. *)
Theorem draw_loop_records (p : p5) (n : nat) :
  forall s : Sketch,
  exists more,
    treePositions (draw_loop p n s) = treePositions s ++ more
    /\ Forall (fun pt => y pt < height p * 0.7) more
    /\ ((frameCount p mod 5)%Z <> 0%Z -> more = [])
    /\ (length more <= n)%nat.
Proof.
  induction n as [|n IH]; intros s.
  - exists []. simpl. rewrite app_nil_r. repeat split; auto.
  - simpl draw_loop.
    destruct (IH (draw_part p n s)) as (more & Htp & Hy & Hf & Hl).
    destruct (parts s !! n) as [part|] eqn:Hpart.
    + destruct (TreeProps.draw_part_spec p n s part Hpart) as (_ & Hrec & _).
      pose proof (update_records p part (seed s)) as Hr. cbv zeta in Hr.
      set (o := fst (update p part (seed s))) in *.
      exists (recorded o ++ more). rewrite Htp, Hrec, <- app_assoc.
      split; [reflexivity|].
      assert (Hcase : recorded o = []
                \/ recorded o = [pos (self o)]
                   /\ (frameCount p mod 5)%Z = 0%Z
                   /\ y (pos (self o)) < height p * 0.7).
      { rewrite Hr.
        destruct (negb (is_tag (tag part) FLOWER) && negb (isDead o)
                  && (frameCount p mod 5 =? 0)%Z
                  && Qltb (y (pos (self o))) (height p * 0.7)) eqn:E;
          [right|left; reflexivity].
        apply andb_prop in E as [E E3]. apply andb_prop in E as [_ E2].
        apply Qltb_lt in E3. apply Z.eqb_eq in E2. auto. }
      destruct Hcase as [-> | (-> & H5 & Hy1)]; cbn [app length].
      * repeat split; auto; lia.
      * repeat split; [constructor; assumption|congruence|lia].
    + rewrite (TreeProps.draw_part_none p n s Hpart) in *.
      exists more. repeat split; auto.
Qed.

End LoopExtra.
(** ** The hand handler of GenerativeTree.tsx *)

Module HandExtra.
Import Tree.

(** X14.  The inner loop of the painting finds the most recently recorded
    position the probe is near to: no later entry is near, and when it
    finds nothing no entry is. *)
Theorem scan_latest (near : Vec -> bool) (tp : list Vec) (n : nat) :
  match scan near tp n with
  | Some (i, pt) =>
      (i < n)%nat /\ tp !! i = Some pt /\ near pt = true
      /\ forall j q, (i < j < n)%nat -> tp !! j = Some q -> near q = false
  | None => forall j q, (j < n)%nat -> tp !! j = Some q -> near q = false
  end.
Proof.
  induction n as [|n IH]; simpl.
  - intros j q Hj. lia.
  - destruct (tp !! n) as [pt|] eqn:En.
    + destruct (near pt) eqn:Enear.
      * repeat split; auto. intros j q Hj. lia.
      * destruct (scan near tp n) as [[i q0]|].
        -- destruct IH as (Hi & Hq & Hn & Hlater).
           repeat split; auto. intros j q Hj Hq'.
           destruct (decide (j = n)) as [->|Hne].
           ++ congruence.
           ++ apply (Hlater j q); [lia|exact Hq'].
        -- intros j q Hj Hq'. destruct (decide (j = n)) as [->|Hne].
           ++ congruence.
           ++ apply (IH j q); [lia|exact Hq'].
    + destruct (scan near tp n) as [[i q0]|].
      * destruct IH as (Hi & Hq & Hn & Hlater).
        repeat split; auto. intros j q Hj Hq'.
        destruct (decide (j = n)) as [->|Hne].
        -- congruence.
        -- apply (Hlater j q); [lia|exact Hq'].
      * intros j q Hj Hq'. destruct (decide (j = n)) as [->|Hne].
        -- congruence.
        -- apply (IH j q); [lia|exact Hq'].
Qed.

Lemma scan_never (tp : list Vec) (n : nat) : scan (fun _ => false) tp n = None.
Proof.
  induction n as [|n IH]; simpl; [reflexivity|].
  destruct (tp !! n); exact IH.
Qed.

Lemma steps_zero (v : Q) : v == 0 -> steps v = 0%Z.
Proof.
  intros Hv. unfold steps.
  assert (E : v / 10 == 0) by (rewrite Hv; reflexivity).
  rewrite E. reflexivity.
Qed.

(** X15.  The painting does nothing without a previous tip or without recorded
    positions, and nothing either when the tip has not moved at all: the
    single round of the loop then probes at [0/0]. *)
Theorem paint_nothing (p : p5) (cur : Vec) (ratio v : Q) (s : Sketch) :
  prevIndexPos s = None \/ treePositions s = [] \/ v == 0 ->
  paint p cur ratio v s = s.
Proof.
  intros H. unfold paint, probes.
  destruct (prevIndexPos s) as [prev|]; [|reflexivity].
  destruct H as [H|[H|H]]; [discriminate| |].
  - rewrite H. reflexivity.
  - destruct (treePositions s) as [|pt tp] eqn:Etp; [reflexivity|].
    rewrite (steps_zero v H).
    change (rounds 0) with [0%Z]. cbn [List.map fold_left].
    change (fraction 0 0) with (@None Q).
    unfold probe. rewrite Etp, scan_never. reflexivity.
Qed.

Lemma paint_nothing_witness :
  paint demo (mkVec 100 0) 0.1 0 (two_spots (mkVec 100 0))
  = two_spots (mkVec 100 0).
Proof.
  apply (paint_nothing demo (mkVec 100 0) 0.1 0 (two_spots (mkVec 100 0))).
  right; right. reflexivity.
Defined.

(** A hand with fewer than 21 landmarks makes the handler throw, an error
    that [p.draw] catches: with no index tip before anything is assigned,
    otherwise after the wand has followed the tip and before the stillness
    counter and the previous tip are touched. *)
Lemma short_hand_eq (p : p5) (landmarks : list Landmark)
    (rest : HandLandmarkerResult) (s : Sketch) :
  (length landmarks < 21)%nat ->
  handleHandInteraction p (landmarks :: rest) s
  = match landmarks !! 8%nat with
    | Some indexTip =>
        set_wandPos (Some (follow (wandPos s) (screen p indexTip))) s
    | None => s
    end.
Proof.
  intros Hlen. unfold handleHandInteraction.
  assert (H20 : landmarks !! 20%nat = None)
    by (apply lookup_ge_None; lia).
  destruct (landmarks !! 8%nat) as [indexTip|] eqn:E8; [|reflexivity].
  assert (H8 : (8 < length landmarks)%nat)
    by (apply lookup_lt_is_Some_1; eauto).
  destruct (lookup_lt_is_Some_2 landmarks 0) as [wrist ->]; [lia|].
  destruct (lookup_lt_is_Some_2 landmarks 5) as [indexBase ->]; [lia|].
  rewrite H20.
  destruct (landmarks !! 12%nat); [|reflexivity].
  destruct (landmarks !! 16%nat); reflexivity.
Qed.

(** X16.  A hand with fewer than 21 landmarks changes nothing but the
    wand: the handler throws before it touches the stillness counter, the
    previous tip, the particles or the recorded positions, and without an
    index tip before it moves the wand. *)
Theorem short_hand (p : p5) (landmarks : list Landmark)
    (rest : HandLandmarkerResult) (s : Sketch) :
  (length landmarks < 21)%nat ->
  let s' := handleHandInteraction p (landmarks :: rest) s in
  parts s' = parts s /\ treePositions s' = treePositions s
  /\ prevIndexPos s' = prevIndexPos s
  /\ fingerStillFrames s' = fingerStillFrames s
  /\ seed s' = seed s
  /\ wandPos s'
     = match landmarks !! 8%nat with
       | Some indexTip => Some (follow (wandPos s) (screen p indexTip))
       | None => wandPos s
       end.
Proof.
  intros Hshort. cbv zeta. rewrite (short_hand_eq p landmarks rest s Hshort).
  destruct (landmarks !! 8%nat); repeat split.
Qed.

Lemma short_hand_witness :
  parts (handleHandInteraction demo [take 9 demo_hand] (setup demo))
  = parts (setup demo).
Proof.
  apply (short_hand demo (take 9 demo_hand) [] (setup demo)).
  vm_compute. lia.
Defined.

(** The handler with no hand in sight. *)
Lemma no_hand (p : p5) (s : Sketch) :
  let s' := handleHandInteraction p [] s in
  prevIndexPos s' = None /\ wandPos s' = None /\ fingerStillFrames s' = 0%Z
  /\ parts s' = parts s /\ treePositions s' = treePositions s.
Proof. repeat split. Qed.

(** X17.  The first hand after a frame without one paints and magnifies
    nothing: its velocity is 0 and the stillness counter restarts. *)
Theorem hand_returns (p : p5) (result : HandLandmarkerResult) (s : Sketch) :
  let s' := handleHandInteraction p result (handleHandInteraction p [] s) in
  parts s' = parts s /\ treePositions s' = treePositions s
  /\ (fingerStillFrames s' <= 1)%Z.
Proof.
  cbv zeta.
  destruct (no_hand p s) as (Hprev & Hwand & Hstill & Hparts & Htp).
  set (s0 := handleHandInteraction p [] s) in *. clearbody s0.
  destruct result as [|landmarks rest].
  - simpl. rewrite Hparts, Htp. repeat split. lia.
  - destruct (decide (length landmarks < 21)%nat) as [Hshort|Hfull].
    + rewrite (short_hand_eq p landmarks rest s0 Hshort).
      destruct (landmarks !! 8%nat); simpl; rewrite Hparts, Htp, Hstill;
        repeat split; lia.
    + destruct (lookup_lt_is_Some_2 landmarks 8) as [indexTip H8]; [lia|].
      destruct (lookup_lt_is_Some_2 landmarks 0) as [wrist H0]; [lia|].
      destruct (lookup_lt_is_Some_2 landmarks 5) as [indexBase H5]; [lia|].
      destruct (lookup_lt_is_Some_2 landmarks 12) as [middle H12]; [lia|].
      destruct (lookup_lt_is_Some_2 landmarks 16) as [ring H16]; [lia|].
      destruct (lookup_lt_is_Some_2 landmarks 20) as [pinky H20]; [lia|].
      rewrite (TreeProps.handle_hand p landmarks rest s0 indexTip wrist
                 indexBase middle ring pinky H8 H0 H5 H12 H16 H20).
      cbv zeta. rewrite Hprev, Hstill.
      change (velocity p (screen p indexTip) None) with 0.
      change (stillFrames 0 0) with 1%Z.
      rewrite andb_false_r.
      unfold paint. cbn [prevIndexPos set_fingerStillFrames set_wandPos].
      rewrite Hprev.
      simpl. rewrite Hparts, Htp. repeat split. lia.
Qed.

(** The stillness counter is never negative, and whenever a previous tip
    is remembered the wand is on the canvas. *)
Definition hand_ok (s : Sketch) : Prop :=
  (0 <= fingerStillFrames s)%Z /\ (prevIndexPos s <> None -> wandPos s <> None).

Lemma hand_ok_state (s s' : Sketch) :
  TreeProps.hand_state s' = TreeProps.hand_state s -> hand_ok s -> hand_ok s'.
Proof.
  intros H. apply TreeProps.hand_state_eq in H as (Hp & Hf & Hw & _).
  unfold hand_ok. rewrite Hp, Hf, Hw. auto.
Qed.

Lemma stillFrames_bounds (v : Q) (n : Z) :
  (0 <= n)%Z -> (0 <= stillFrames v n <= n + 1)%Z.
Proof. intros Hn. unfold stillFrames. destruct (Qltb v 3); lia. Qed.

(** What the handler makes of the hand state on a hand with all its
    landmarks. *)
Lemma full_hand_state (p : p5) (landmarks : list Landmark)
    (rest : HandLandmarkerResult) (s : Sketch) :
  (21 <= length landmarks)%nat ->
  exists indexTip,
    landmarks !! 8%nat = Some indexTip
    /\ let s' := handleHandInteraction p (landmarks :: rest) s in
       let tip := screen p indexTip in
       prevIndexPos s' = Some tip
       /\ wandPos s' = Some (follow (wandPos s) tip)
       /\ fingerStillFrames s'
          = stillFrames (velocity p tip (prevIndexPos s)) (fingerStillFrames s).
Proof.
  intros Hfull.
  destruct (lookup_lt_is_Some_2 landmarks 8) as [indexTip H8]; [lia|].
  destruct (lookup_lt_is_Some_2 landmarks 0) as [wrist H0]; [lia|].
  destruct (lookup_lt_is_Some_2 landmarks 5) as [indexBase H5]; [lia|].
  destruct (lookup_lt_is_Some_2 landmarks 12) as [middle H12]; [lia|].
  destruct (lookup_lt_is_Some_2 landmarks 16) as [ring H16]; [lia|].
  destruct (lookup_lt_is_Some_2 landmarks 20) as [pinky H20]; [lia|].
  exists indexTip. split; [exact H8|]. cbv zeta.
  rewrite (TreeProps.handle_hand p landmarks rest s indexTip wrist
             indexBase middle ring pinky H8 H0 H5 H12 H16 H20).
  cbv zeta.
  set (tip := screen p indexTip).
  set (v := velocity p tip (prevIndexPos s)).
  set (s2 := set_fingerStillFrames (stillFrames v (fingerStillFrames s))
               (set_wandPos (Some (follow (wandPos s) tip)) s)).
  assert (Hs3 : forall s3, TreeProps.hand_state s3 = TreeProps.hand_state s2 ->
            prevIndexPos (set_prevIndexPos (Some tip) s3) = Some tip
            /\ wandPos (set_prevIndexPos (Some tip) s3)
               = Some (follow (wandPos s) tip)
            /\ fingerStillFrames (set_prevIndexPos (Some tip) s3)
               = stillFrames v (fingerStillFrames s)).
  { intros s3 H. apply TreeProps.hand_state_eq in H as (_ & Hf & Hw & _).
    simpl. rewrite Hf, Hw. repeat split. }
  apply Hs3.
  destruct (isPointing p wrist indexTip middle ring pinky
            && (stillFrames v (fingerStillFrames s) >? 10)%Z).
  - apply TreeProps.magnify_spec.
  - destruct (TreeProps.paint_bloomed p tip
                (handScreenSizeRatio p wrist indexBase) v s2)
      as [(new & _ & _ & _ & Hh & _) _].
    exact Hh.
Qed.

Lemma handle_hand_ok (p : p5) (result : HandLandmarkerResult) (s : Sketch) :
  hand_ok s -> hand_ok (handleHandInteraction p result s).
Proof.
  intros [Hf Hw]. destruct result as [|landmarks rest].
  - split; simpl; [lia|congruence].
  - destruct (decide (length landmarks < 21)%nat) as [Hshort|Hfull].
    + rewrite (short_hand_eq p landmarks rest s Hshort).
      destruct (landmarks !! 8%nat); split; simpl; auto; discriminate.
    + destruct (full_hand_state p landmarks rest s) as (tip & _ & H); [lia|].
      cbv zeta in H. destruct H as (Hp' & Hw' & Hf').
      split.
      * rewrite Hf'. apply stillFrames_bounds. exact Hf.
      * rewrite Hw'. discriminate.
Qed.

Lemma draw_hand_ok (p : p5) (v : Video) (s : Sketch) :
  hand_ok s -> hand_ok (draw p v s).
Proof.
  intros H. unfold draw.
  match goal with
  | |- hand_ok (draw_loop p ?n ?s1) =>
      apply (hand_ok_state s1); [apply TreeProps.draw_loop_frame|]
  end.
  destruct (ready v && negb (Qeq_bool (currentTime v) (lastVideoTime s)));
    [|exact H].
  destruct (detectForVideo v) as [result|].
  - apply handle_hand_ok. exact H.
  - exact H.
Qed.

Lemma windowResized_hand_ok (p : p5) (s : Sketch) :
  hand_ok s -> hand_ok (windowResized p s).
Proof.
  intros H. unfold windowResized.
  match goal with
  | |- hand_ok (startTree p ?s1) =>
      destruct (TreeProps.startTree_spec p s1) as (k1 & k2 & _ & _ & _ & _ & _ & Hh);
      apply (hand_ok_state s1); [exact Hh|exact H]
  end.
Qed.

Lemma setup_hand_ok (p : p5) : hand_ok (setup p).
Proof.
  unfold setup.
  match goal with
  | |- hand_ok (startTree p ?s1) =>
      destruct (TreeProps.startTree_spec p s1) as (k1 & k2 & _ & _ & _ & _ & _ & Hh);
      apply (hand_ok_state s1); [exact Hh|]
  end.
  split; simpl; [lia|congruence].
Qed.

(** X18.  In every state the sketch can reach the stillness counter is not
    negative, and a remembered tip comes with a wand. *)
Theorem reachable_hand_state (s : Sketch) : reachable s -> hand_ok s.
Proof.
  induction 1 as [p|s s' _ IH Hstep].
  - apply setup_hand_ok.
  - inversion Hstep; subst.
    + apply draw_hand_ok. exact IH.
    + apply windowResized_hand_ok. exact IH.
Qed.

Lemma reachable_hand_state_witness : hand_ok (draw demo tip_video (setup demo)).
Proof.
  apply (reachable_hand_state (draw demo tip_video (setup demo))).
  apply (reach_step (setup demo)); [apply reach_setup|apply step_draw].
Defined.

(** X19.  The magnifying gesture needs the counter at 10 or more before the
    frame: below that the handler changes no particle and only appends
    flowers. *)
Theorem magnify_needs_stillness (p : p5) (result : HandLandmarkerResult)
    (s : Sketch) :
  (fingerStillFrames s < 10)%Z ->
  exists new,
    parts (handleHandInteraction p result s) = parts s ++ new
    /\ Forall (fun k => tag k = FLOWER /\ lastHoveredTime k = -1000) new.
Proof.
  intros Hlt. destruct result as [|landmarks rest].
  - exists []. simpl. rewrite app_nil_r. split; [reflexivity|constructor].
  - destruct (decide (length landmarks < 21)%nat) as [Hshort|Hfull].
    + exists []. rewrite (short_hand_eq p landmarks rest s Hshort), app_nil_r.
      split; [|constructor]. destruct (landmarks !! 8%nat); reflexivity.
    + destruct (lookup_lt_is_Some_2 landmarks 8) as [indexTip H8]; [lia|].
      destruct (lookup_lt_is_Some_2 landmarks 0) as [wrist H0]; [lia|].
      destruct (lookup_lt_is_Some_2 landmarks 5) as [indexBase H5]; [lia|].
      destruct (lookup_lt_is_Some_2 landmarks 12) as [middle H12]; [lia|].
      destruct (lookup_lt_is_Some_2 landmarks 16) as [ring H16]; [lia|].
      destruct (lookup_lt_is_Some_2 landmarks 20) as [pinky H20]; [lia|].
      rewrite (TreeProps.handle_hand p landmarks rest s indexTip wrist
                 indexBase middle ring pinky H8 H0 H5 H12 H16 H20).
      cbv zeta.
      set (tip := screen p indexTip).
      set (v := velocity p tip (prevIndexPos s)).
      assert (E : (stillFrames v (fingerStillFrames s) >? 10)%Z = false).
      { unfold stillFrames. destruct (Qltb v 3); lia. }
      rewrite E, andb_false_r.
      match goal with
      | |- context [paint p tip ?r v ?s2] =>
          destruct (TreeProps.paint_bloomed p tip r v s2)
            as [(new & Hparts & Hnew & _) _];
          exists new; split;
          [simpl; rewrite Hparts; reflexivity|]
      end.
      eapply Forall_impl; [exact Hnew|].
      intros k (Ht & _ & _ & Hh & _). auto.
Qed.

Lemma magnify_needs_stillness_witness :
  exists new,
    parts (handleHandInteraction demo [demo_hand] (setup demo))
    = parts (setup demo) ++ new
    /\ Forall (fun k => tag k = FLOWER /\ lastHoveredTime k = -1000) new.
Proof.
  apply (magnify_needs_stillness demo [demo_hand] (setup demo)).
  vm_compute. reflexivity.
Defined.



Lemma draw_lastVideoTime (p : p5) (v : Video) (s : Sketch) :
  lastVideoTime (draw p v s)
  = if ready v && negb (Qeq_bool (currentTime v) (lastVideoTime s))
    then currentTime v else lastVideoTime s.
Proof.
  unfold draw.
  match goal with
  | |- lastVideoTime (draw_loop p ?n ?s1) = _ =>
      destruct (TreeProps.draw_loop_frame p n s1) as [Hh _];
      apply TreeProps.hand_state_eq in Hh as (_ & _ & _ & ->)
  end.
  destruct (ready v && negb (Qeq_bool (currentTime v) (lastVideoTime s)));
    [|reflexivity].
  destruct (detectForVideo v) as [result|]; [|reflexivity].
  destruct (TreeProps.handle_handled p result
              (set_lastVideoTime (currentTime v) s))
    as (_ & _ & _ & _ & _ & _ & _ & _ & ->).
  reflexivity.
Qed.

(** X21.  No video frame is handled twice: a second [p.draw] that finds the
    video at the same time leaves the hand state alone, whatever the
    detector would return. *)
Theorem video_frame_once (p p' : p5) (v v' : Video) (s : Sketch) :
  currentTime v' = currentTime v -> ready v = true ->
  TreeProps.hand_state (draw p' v' (draw p v s))
  = TreeProps.hand_state (draw p v s).
Proof.
  intros Ht Hr.
  assert (E : Qeq_bool (currentTime v') (lastVideoTime (draw p v s)) = true).
  { rewrite draw_lastVideoTime, Hr, Ht. cbn [andb].
    destruct (Qeq_bool (currentTime v) (lastVideoTime s)) eqn:E;
      cbn [negb]; [exact E|].
    apply Qeq_bool_iff. reflexivity. }
  unfold draw at 1. rewrite E. cbn [negb]. rewrite andb_false_r.
  apply TreeProps.draw_loop_frame.
Qed.

Lemma video_frame_once_witness :
  TreeProps.hand_state (draw demo tip_video (draw demo tip_video (setup demo)))
  = TreeProps.hand_state (draw demo tip_video (setup demo)).
Proof.
  apply (video_frame_once demo demo tip_video tip_video (setup demo));
    reflexivity.
Defined.

End HandExtra.
(** ** Growing the tree in GenerativeTree.tsx *)

Module SetupExtra.
Import Tree.

(** X22.  Resizing the window regrows the tree [setup] grew: [randomSeed(42)]
    rewinds the generator, so the two trunks are the same particles; the
    recorded positions and the tree layer are emptied and the hand state
    is kept. *)
Theorem windowResized_regrows (p : p5) (s : Sketch) :
  parts (windowResized p s) = parts (setup p)
  /\ seed (windowResized p s) = seed (setup p)
  /\ treePositions (windowResized p s) = []
  /\ treeLayer (windowResized p s) = []
  /\ TreeProps.hand_state (windowResized p s) = TreeProps.hand_state s
  /\ trail (windowResized p s) = trail s.
Proof.
  unfold windowResized, setup, startTree, plant, drawing, push_part.
  repeat split.
Qed.

(** A trunk as [startTree] plants it. *)
Definition trunk (p : p5) (angle : Q) (k : Particle) : Prop :=
  tag k = TRUNK /\ col k = PALETTE_trunk /\ dir k = angle
  /\ asiz k = 100 /\ siz k = 1 /\ rsiz k = 100 * 1 /\ spd k = 2
  /\ life k = 0 /\ lifespan k = 500
  /\ y (pos k) = height p * 0.95
  /\ width p / 2 - 2 <= x (pos k) /\ x (pos k) < width p / 2 + 2.

(** X23.  [setup] plants two trunks at the bottom centre of the canvas, leaving
    at 260 and 280 degrees, with six draws of the generator. *)
Theorem setup_trunks (p : p5) :
  unit_draws p ->
  exists k1 k2,
    parts (setup p) = [k1; k2] /\ trunk p 260 k1 /\ trunk p 280 k2
    /\ seed (setup p) = 6%nat /\ treePositions (setup p) = [].
Proof.
  intros Hp.
  unfold setup, startTree, plant, drawing, push_part.
  eexists _, _. split; [reflexivity|].
  unfold trunk. cbn.
  change (Qgtb (-2) 2) with false. cbv beta iota.
  repeat split; try reflexivity;
    match goal with
    | |- context [rnd p ?i] => destruct (Hp i) as [H0 H1]; lra
    end.
Qed.

Lemma setup_trunks_witness :
  exists k1 k2,
    parts (setup demo) = [k1; k2] /\ trunk demo 260 k1 /\ trunk demo 280 k2
    /\ seed (setup demo) = 6%nat /\ treePositions (setup demo) = [].
Proof. apply (setup_trunks demo). exact demo_unit_draws. Defined.

End SetupExtra.
(** ** src/unnamed/part_000 *)

Module Tree0Extra.
Import Tree0.

(** *** What one update spawns *)

Lemma new_Particle_args0 (p : p5) (sx sy : Q) (sc : color) (ss sd sl ls : Q)
    (tg : ParticleType) (c : nat) :
  let k := fst (new_Particle p sx sy sc ss sd sl ls tg c) in
  pos k = mkVec sx sy /\ col k = sc /\ asiz k = ss /\ dir k = sd
  /\ life k = sl /\ lifespan k = ls /\ tag k = tg
  /\ siz k = (if is_tag tg FLOWER then 0 else 1).
Proof.
  unfold new_Particle, bind, random_to, random, ret. simpl.
  destruct tg; simpl; repeat split.
Qed.

(** The speed the constructor gives: 2 to a trunk, 0 to a flower, and a
    draw from [0.25, 2) to everything else. *)
Theorem new_Particle_speed0 (p : p5) (sx sy : Q) (sc : color) (ss sd sl ls : Q)
    (tg : ParticleType) (c : nat) :
  unit_draws p ->
  let k := fst (new_Particle p sx sy sc ss sd sl ls tg c) in
  (tg = TRUNK -> spd k = 2) /\ (tg = FLOWER -> spd k = 0)
  /\ (tg <> TRUNK -> tg <> FLOWER -> 0.25 <= spd k /\ spd k < 2).
Proof.
  intros Hp. cbv zeta.
  unfold new_Particle, bind, random_in, random_to, random, ret.
  destruct (Hp (S c)) as [H0 H1].
  destruct tg; simpl; (split; [|split]); intros; try congruence;
    try reflexivity; split; lra.
Qed.

Lemma new_Particle_speed0_witness :
  0.25 <= spd (fst (new_Particle demo 0 0 PALETTE_trunk 1 0 0 0 BRANCH O))
  /\ spd (fst (new_Particle demo 0 0 PALETTE_trunk 1 0 0 0 BRANCH O)) < 2.
Proof.
  apply (new_Particle_speed0 demo 0 0 PALETTE_trunk 1 0 0 0 BRANCH O
           demo_unit_draws); discriminate.
Defined.

(** X24.  Only a trunk thinner than 0.6 grows a branch: at the trunk's place
    and age, nine tenths as thick, leaving at 20 to 40 degrees. *)
Theorem spawn_branch_spec0 (p : p5) (this : Particle) (c : nat) :
  unit_draws p ->
  fst (spawn_branch p this c) = []
  \/ exists k,
       fst (spawn_branch p this c) = [k]
       /\ tag this = TRUNK /\ siz this < 0.6
       /\ tag k = BRANCH /\ pos k = pos this /\ col k = col this
       /\ siz k = 1 /\ asiz k = currentSize this * 0.9
       /\ life k = life this /\ lifespan k = lifespan this
       /\ 20 <= Qabs (dir k - dir this) /\ Qabs (dir k - dir this) < 40.
Proof.
  intros Hp. unfold spawn_branch, bind.
  destruct (random p c) as [u c1].
  destruct (Qltb u 0.03 && is_tag (tag this) TRUNK && Qltb (siz this) 0.6)
    eqn:E; [right|left; reflexivity].
  apply andb_prop in E as [E E3]. apply andb_prop in E as [_ E2].
  apply Qltb_lt in E3. unfold is_tag in E2. apply bool_decide_eq_true in E2.
  destruct (random p c1) as [v c2].
  destruct (TreeExtra.random_in_range p 20 40 c2 Hp) as [Hlo Hhi];
    [discriminate|].
  specialize (Hhi eq_refl).
  destruct (random_in p 20 40 c2) as [a c3]. simpl in Hlo, Hhi.
  set (n := (if Qltb v 0.5 then 1 else -1) * a).
  pose proof (new_Particle_args0 p (x (pos this)) (y (pos this)) (col this)
                (currentSize this * 0.9) (dir this + n) (life this)
                (lifespan this) BRANCH c3)
    as (Hpos & Hcol & Ha & Hd & Hl & Hls & Ht & Hs).
  destruct (new_Particle p _ _ _ _ _ _ _ BRANCH c3) as [k c4].
  simpl in *. exists k.
  assert (Hdiff : dir k - dir this == n) by (rewrite Hd; ring).
  assert (Habs : Qabs (dir k - dir this) == a).
  { rewrite Hdiff. unfold n. destruct (Qltb v 0.5).
    - assert (En : 1 * a == a) by ring.
      rewrite En. apply Qabs_pos. lra.
    - assert (En : -1 * a == - a) by ring.
      rewrite En, Qabs_opp. apply Qabs_pos. lra. }
  rewrite Habs, Hpos. destruct (pos this). repeat split; auto.
Qed.

Lemma spawn_branch_spec0_witness :
  fst (spawn_branch demo demo_trunk0 O) = []
  \/ exists k,
       fst (spawn_branch demo demo_trunk0 O) = [k]
       /\ tag demo_trunk0 = TRUNK /\ siz demo_trunk0 < 0.6
       /\ tag k = BRANCH /\ pos k = pos demo_trunk0 /\ col k = col demo_trunk0
       /\ siz k = 1 /\ asiz k = currentSize demo_trunk0 * 0.9
       /\ life k = life demo_trunk0 /\ lifespan k = lifespan demo_trunk0
       /\ 20 <= Qabs (dir k - dir demo_trunk0)
       /\ Qabs (dir k - dir demo_trunk0) < 40.
Proof. apply (spawn_branch_spec0 demo demo_trunk0 O demo_unit_draws). Defined.

(** X25.  Only a branch thicker than 0.5 forks: at its place, age and
    thickness, turned by at most 10 degrees. *)
Theorem fork_branch_spec0 (p : p5) (this : Particle) (c : nat) :
  unit_draws p ->
  fst (fork_branch p this c) = []
  \/ exists k,
       fst (fork_branch p this c) = [k]
       /\ tag this = BRANCH /\ 0.5 < siz this
       /\ tag k = BRANCH /\ pos k = pos this /\ col k = col this
       /\ siz k = 1 /\ asiz k = currentSize this
       /\ life k = life this /\ lifespan k = lifespan this
       /\ Qabs (dir k - dir this) <= 10.
Proof.
  intros Hp. unfold fork_branch, bind.
  destruct (random p c) as [u c1].
  destruct (Qltb u 0.01 && is_tag (tag this) BRANCH && Qgtb (siz this) 0.5)
    eqn:E; [right|left; reflexivity].
  apply andb_prop in E as [E E3]. apply andb_prop in E as [_ E2].
  apply Qgtb_gt in E3. unfold is_tag in E2. apply bool_decide_eq_true in E2.
  destruct (TreeExtra.random_in_range p (-10) 10 c1 Hp) as [Hlo Hhi];
    [discriminate|].
  specialize (Hhi eq_refl).
  destruct (random_in p (-10) 10 c1) as [a c2]. simpl in Hlo, Hhi.
  pose proof (new_Particle_args0 p (x (pos this)) (y (pos this)) (col this)
                (currentSize this) (dir this + a) (life this)
                (lifespan this) BRANCH c2)
    as (Hpos & Hcol & Ha & Hd & Hl & Hls & Ht & Hs).
  destruct (new_Particle p _ _ _ _ _ _ _ BRANCH c2) as [k c3].
  simpl in *. exists k.
  assert (Hdiff : dir k - dir this == a) by (rewrite Hd; ring).
  assert (Habs : Qabs (dir k - dir this) <= 10).
  { rewrite Hdiff. apply Qabs_Qle_condition. split; lra. }
  rewrite Hpos. destruct (pos this). repeat split; auto.
Qed.

Lemma fork_branch_spec0_witness :
  fst (fork_branch demo demo_trunk0 O) = []
  \/ exists k,
       fst (fork_branch demo demo_trunk0 O) = [k]
       /\ tag demo_trunk0 = BRANCH /\ 0.5 < siz demo_trunk0
       /\ tag k = BRANCH /\ pos k = pos demo_trunk0 /\ col k = col demo_trunk0
       /\ siz k = 1 /\ asiz k = currentSize demo_trunk0
       /\ life k = life demo_trunk0 /\ lifespan k = lifespan demo_trunk0
       /\ Qabs (dir k - dir demo_trunk0) <= 10.
Proof. apply (fork_branch_spec0 demo demo_trunk0 O demo_unit_draws). Defined.

(** *** Movement *)

(** X26.  A trunk thicker than 0.9 holds its course: one update turns it by at
    most one degree, and a trunk never curls.  The particle moves by its
    speed along the old direction. *)
Theorem thick_trunk_steady0 (p : p5) (this : Particle) (c : nat) :
  unit_draws p -> tag this = TRUNK -> 0.9 < siz this ->
  let this' := self (fst (update p this c)) in
  Qabs (dir this' - dir this) <= 1
  /\ pos this'
     = vadd (pos this)
         (mkVec (cos p (radians (dir this)) * spd this)
                (sin p (radians (dir this)) * spd this)).
Proof.
  intros Hp Ht Hs. cbv zeta.
  assert (Hnf : tag this <> FLOWER) by congruence.
  rewrite (Tree0Props.update_tree_self0 p this c Hnf).
  unfold update_move, random_in, random_to, random, bind, ret.
  apply Qgtb_gt in Hs. unfold is_tag.
  rewrite Ht, Hs. rewrite (bool_decide_eq_true_2 (TRUNK = TRUNK) eq_refl).
  cbn [andb negb]. rewrite andb_false_r.
  change (Qgtb (-1) 1) with false. cbv beta iota zeta. cbn [fst dir pos].
  split; [|reflexivity].
  destruct (Hp c) as [H0 H1].
  apply Qabs_Qle_condition. split; lra.
Qed.

Lemma thick_trunk_steady0_witness :
  Qabs (dir (self (fst (update demo demo_trunk0 O))) - dir demo_trunk0) <= 1.
Proof.
  apply (thick_trunk_steady0 demo demo_trunk0 O demo_unit_draws);
    [reflexivity|vm_compute; reflexivity].
Defined.

(** Every fourth frame a tree particle records where it moved to, whether
    or not this update is its last; a flower records nothing. *)
Theorem update_records0 (p : p5) (this : Particle) (c : nat) :
  let o := fst (update p this c) in
  recorded o
  = if negb (is_tag (tag this) FLOWER) && (frameCount p mod 4 =? 0)%Z
    then [pos (self o)] else [].
Proof.
  cbv zeta. unfold update.
  destruct (is_tag (tag this) FLOWER).
  - destruct (update_flower this). reflexivity.
  - unfold bind. destruct (update_move p this c) as [this1 c1].
    cbn [negb andb].
    destruct (dies this1).
    + unfold ret. cbn [fst self recorded]. destruct (pos this1).
      reflexivity.
    + destruct (update_spawn p this1 c1) as [kids c2].
      unfold ret. cbn [fst self recorded]. destruct (pos this1).
      reflexivity.
Qed.

(** *** The sketch *)

Lemma plant_eq0 (p : p5) (sx ss : Q) (s : Sketch) :
  plant p sx ss s
  = push_part
      (fst (new_Particle p sx (height p + 20) PALETTE_trunk ss 270 0 500 TRUNK
              (seed s)))
      (set_seed (S (seed s)) s).
Proof. reflexivity. Qed.

(** [startTree] appends two trunks side by side below the canvas, 40
    apart, 50 and 45 thick, both heading straight up, with one draw each. *)
Theorem startTree_trunks0 (p : p5) (s : Sketch) :
  exists k1 k2,
    parts (startTree p s) = parts s ++ [k1; k2]
    /\ pos k1 = mkVec (width p / 2 - 20) (height p + 20)
    /\ pos k2 = mkVec (width p / 2 + 20) (height p + 20)
    /\ asiz k1 = 50 /\ asiz k2 = 45
    /\ Forall (fun k => tag k = TRUNK /\ col k = PALETTE_trunk /\ dir k = 270
                        /\ siz k = 1 /\ spd k = 2 /\ life k = 0
                        /\ lifespan k = 500) [k1; k2]
    /\ seed (startTree p s) = S (S (seed s))
    /\ treePositions (startTree p s) = treePositions s
    /\ prevHandPos (startTree p s) = prevHandPos s.
Proof.
  unfold startTree. rewrite !plant_eq0.
  eexists _, _. unfold push_part. cbn [parts set_parts set_seed seed
    treePositions prevHandPos].
  rewrite <- app_assoc.
  split; [reflexivity|].
  repeat split; repeat constructor.
Qed.

(** *** Flowers in [parts] are still growing *)

Definition growing (s : Sketch) : Prop :=
  Forall (fun k => tag k = FLOWER -> siz k < 1) (parts s).

Lemma plant_growing (p : p5) (sx ss : Q) (s : Sketch) :
  growing s -> growing (plant p sx ss s).
Proof.
  intros H. destruct (Tree0Props.plant_spec0 p sx ss s) as (k & (Hp & _) & Ht).
  unfold growing. rewrite Hp. apply Forall_app. split; [exact H|].
  constructor; [|constructor]. congruence.
Qed.

Lemma spawn_at_growing (p : p5) (pt : Vec) (s : Sketch) :
  growing s -> growing (spawn_at p pt s).
Proof.
  intros H. unfold growing, spawn_at, spawnFlower, drawing, push_part, bind.
  destruct (random_of p PALETTE_flowers undefined_color (seed s)) as [fc c1].
  destruct (random_in p 15 25 c1) as [size c2].
  pose proof (new_Particle_args0 p (x pt) (y pt) fc size 0 0 0 FLOWER c2)
    as (_ & _ & _ & _ & _ & _ & _ & Hs).
  destruct (new_Particle p (x pt) (y pt) fc size 0 0 0 FLOWER c2) as [k c3].
  simpl in *. apply Forall_app. split; [exact H|].
  constructor; [|constructor]. intros _. rewrite Hs. reflexivity.
Qed.

Lemma bloom_growing (p : p5) (x0 y0 r : Q) (n : nat) :
  forall (b : Z) (s : Sketch), growing s -> growing (bloom p x0 y0 r n b s).
Proof.
  induction n as [|n IH]; intros b s H; simpl; [exact H|].
  destruct (b <=? 0)%Z; [exact H|].
  destruct (treePositions s !! n) as [pt|]; [|apply IH; exact H].
  destruct (Qltb (dist_to p x0 y0 pt) r); [|apply IH; exact H].
  apply IH. apply (spawn_at_growing p pt s) in H. exact H.
Qed.

Lemma handle_growing (p : p5) (result : HandLandmarkerResult) (s : Sketch) :
  growing s -> growing (handleHandInteraction p result s).
Proof.
  intros H. unfold handleHandInteraction.
  destruct result as [|landmarks rest]; [exact H|].
  destruct (landmarks !! 8%nat) as [indexTip|]; [|exact H].
  destruct (treePositions s) as [|pt tp] eqn:Etp; [exact H|].
  unfold drawing.
  destruct (bloomsNeeded p _ (seed s)) as [needed c1].
  destruct (needed >? 0)%Z; [|exact H].
  unfold growing. cbn [parts set_prevHandPos].
  apply bloom_growing. exact H.
Qed.

Lemma draw_part_growing (p : p5) (i : nat) (s : Sketch) :
  growing s -> growing (draw_part p i s).
Proof.
  intros H. destruct (parts s !! i) as [part|] eqn:Hpart.
  2:{ rewrite (Tree0Props.draw_part_none0 p i s Hpart). exact H. }
  destruct (Tree0Props.draw_part_spec0 p i s part Hpart) as (Hparts & _).
  destruct (Tree0Props.update_effects0 p part (seed s)) as (Hkids & _).
  unfold growing. rewrite Hparts. apply Forall_app. split.
  - destruct (isDead (fst (update p part (seed s)))) eqn:Edead.
    + apply Forall_delete. exact H.
    + apply Forall_insert; [exact H|].
      intros Hfl. rewrite Tree0Props.update_tag0 in Hfl.
      rewrite (Tree0Props.update_flower_eq0 p part (seed s) Hfl) in Edead |- *.
      cbn [fst self isDead] in Edead |- *.
      unfold update_flower in Edead |- *. cbn [fst snd siz] in Edead |- *.
      rewrite Edead.
      destruct (Qle_bool 1 (siz part + 0.1)) eqn:E; [discriminate|].
      apply Qnot_le_lt. intros Hle. apply Qle_bool_iff in Hle. congruence.
  - eapply Forall_impl; [exact Hkids|]. intros k Hk Hfl. contradiction.
Qed.

Lemma draw_loop_growing (p : p5) (n : nat) :
  forall s : Sketch, growing s -> growing (draw_loop p n s).
Proof.
  induction n as [|n IH]; intros s H; simpl; [exact H|].
  apply IH, draw_part_growing, H.
Qed.

(** X27.  In part_000 a flower leaves [parts] in the update that brings it to
    full size: in every state the sketch can reach, each flower in [parts]
    is smaller than 1. *)
Theorem flowers_still_growing0 (s : Sketch) : reachable s -> growing s.
Proof.
  induction 1 as [p|s s' _ IH Hstep].
  - unfold setup, startTree. apply plant_growing, plant_growing. constructor.
  - inversion Hstep; subst.
    + unfold draw. apply draw_loop_growing.
      destruct (ready v && negb (Qeq_bool (currentTime v) (lastVideoTime s)));
        [|exact IH].
      destruct (detectForVideo v) as [result|]; [|exact IH].
      apply handle_growing. exact IH.
    + unfold windowResized, startTree.
      apply plant_growing, plant_growing. constructor.
Qed.

Lemma flowers_still_growing0_witness : growing demo_bloom0.
Proof. apply (flowers_still_growing0 demo_bloom0 demo_bloom0_reachable). Defined.

(** *** The particle loop of p.draw *)

(** Whatever an update pushes is a branch. *)
Lemma pushed_branches0 (p : p5) (this : Particle) (c : nat) :
  Forall (fun k => tag k = BRANCH) (pushed (fst (update p this c))).
Proof.
  unfold update. destruct (is_tag (tag this) FLOWER).
  - destruct (update_flower this). constructor.
  - unfold bind. destruct (update_move p this c) as [this1 c1].
    destruct (dies this1); [constructor|].
    unfold update_spawn, bind.
    pose proof (Tree0Props.spawn_branch_yields0 p this1 c1) as H1.
    destruct (spawn_branch p this1 c1) as [kids1 c2].
    pose proof (Tree0Props.fork_branch_yields0 p this1 c2) as H2.
    destruct (fork_branch p this1 c2) as [kids2 c3].
    simpl in *. apply Forall_app. split; assumption.
Qed.

(** [o] is what a call of [update] on [k] returned. *)
Definition outcome (p : p5) (k : Particle) (o : Outcome) : Prop :=
  exists c, o = fst (update p k c).

(** What one visit of the loop leaves of a particle. *)
Definition survivor (o : Outcome) : option Particle :=
  if isDead o then None else Some (self o).

(** What the updates pushed onto [parts], in the order of the pushes: the
    loop visits the particles from the last to the first. *)
Definition offspring (os : list Outcome) : list Particle :=
  concat (pushed <$> reverse os).

Lemma omap_survivor_cons0 (o : Outcome) (os : list Outcome) :
  omap survivor (o :: os)
  = if isDead o then omap survivor os else self o :: omap survivor os.
Proof. unfold survivor. simpl. destruct (isDead o); reflexivity. Qed.

Lemma offspring_snoc0 (os : list Outcome) (o : Outcome) :
  offspring (os ++ [o]) = pushed o ++ offspring os.
Proof. unfold offspring. rewrite reverse_snoc. reflexivity. Qed.

Lemma offspring_tags0 (p : p5) (ps : list Particle) (os : list Outcome) :
  Forall2 (outcome p) ps os ->
  Forall (fun k => tag k = BRANCH) (offspring os).
Proof.
  unfold offspring. induction 1 as [|k o ps os [c ->] _ IH]; [constructor|].
  rewrite reverse_cons, fmap_app, concat_app.
  apply Forall_app. split; [exact IH|].
  simpl. rewrite app_nil_r. apply pushed_branches0.
Qed.

Lemma draw_part_around0 (p : p5) (i : nat) (s : Sketch) (part : Particle) :
  parts s !! i = Some part ->
  let o := fst (update p part (seed s)) in
  parts (draw_part p i s)
  = take i (parts s)
    ++ (if isDead o then [] else [self o])
    ++ drop (S i) (parts s) ++ pushed o.
Proof.
  intros Hpart. cbv zeta.
  destruct (Tree0Props.draw_part_spec0 p i s part Hpart) as (-> & _).
  assert (Hi : (i < length (parts s))%nat)
    by (apply lookup_lt_is_Some_1; eauto).
  destruct (isDead (fst (update p part (seed s)))).
  - rewrite delete_take_drop, <- app_assoc. reflexivity.
  - rewrite insert_take_drop by exact Hi. rewrite <- app_assoc. reflexivity.
Qed.

Lemma draw_loop_parts0 (p : p5) (n : nat) :
  forall s : Sketch, (n <= length (parts s))%nat ->
  exists os,
    Forall2 (outcome p) (take n (parts s)) os
    /\ parts (draw_loop p n s)
       = omap survivor os ++ drop n (parts s) ++ offspring os.
Proof.
  induction n as [|n IH]; intros s Hn.
  - exists []. simpl. rewrite app_nil_r. split; [constructor|reflexivity].
  - destruct (lookup_lt_is_Some_2 (parts s) n) as [part Hpart]; [lia|].
    pose proof (draw_part_around0 p n s part Hpart) as Hs1. cbv zeta in Hs1.
    set (o := fst (update p part (seed s))) in *.
    set (mid := if isDead o then [] else [self o]) in *.
    assert (Hlen : length (take n (parts s)) = n)
      by (rewrite length_take; lia).
    simpl draw_loop.
    destruct (IH (draw_part p n s)) as (os & Hos & Hparts).
    { rewrite Hs1, length_app. lia. }
    rewrite Hs1 in Hos, Hparts.
    rewrite (take_app_length' _ _ n (eq_sym Hlen)) in Hos.
    rewrite (drop_app_length' _ _ n (eq_sym Hlen)) in Hparts.
    exists (os ++ [o]). split.
    + rewrite (take_S_r _ _ _ Hpart). apply Forall2_app; [exact Hos|].
      constructor; [|constructor]. exists (seed s). reflexivity.
    + rewrite Hparts, omap_app, offspring_snoc0, omap_survivor_cons0.
      unfold mid. destruct (isDead o); simpl; rewrite <- ?app_assoc;
        reflexivity.
Qed.

(** X28.  One run of the loop calls [update] once on every particle that
    was in [parts] when it started: the survivors stay in their order, the
    dead (tree particles and grown flowers) are spliced out, and behind
    them stand the particles these calls pushed, as they were pushed (the
    loop does not visit them) and in the order of the pushes; all of them
    are branches. *)
Theorem draw_loop_updates0 (p : p5) (s : Sketch) :
  exists os,
    Forall2 (outcome p) (parts s) os
    /\ parts (draw_loop p (length (parts s)) s)
       = omap survivor os ++ offspring os
    /\ Forall (fun k => tag k = BRANCH) (offspring os).
Proof.
  destruct (draw_loop_parts0 p (length (parts s)) s) as (os & H1 & H2); [lia|].
  exists os. rewrite firstn_all in H1. rewrite drop_all in H2.
  split; [exact H1|]. split; [exact H2|].
  exact (offspring_tags0 p _ _ H1).
Qed.

End Tree0Extra.
(** ** initVision *)

Module VisionExtra.
Import Vision.

Ltac run_vision b :=
  unfold run, initVision, initVision0, startCamera, tryCatch, andThen, await,
    emit, when, pure;
  repeat first
    [ progress cbn [fst snd app]
    | match goal with
      | H : rejects b ?n = _ |- context [rejects b ?n] => rewrite H
      | H : hasMediaDevices b = _ |- context [hasMediaDevices b] => rewrite H
      | H : hasVideoElement b = _ |- context [hasVideoElement b] => rewrite H
      | |- context [rejects b ?n] => destruct (rejects b n) eqn:?
      | |- context [hasMediaDevices b] => destruct (hasMediaDevices b) eqn:?
      | |- context [hasVideoElement b] => destruct (hasVideoElement b) eqn:?
      end ].

Definition is_camera (e : Event) : bool :=
  match e with SetSrcObject => true | _ => false end.

Definition is_cpu (e : Event) : bool :=
  match e with CreateFromOptions CPU _ => true | _ => false end.

(** Everything works at the first attempt, up to the video element. *)
Definition clean (b : Browser) : bool :=
  negb (rejects b 0) && negb (rejects b 1) && hasMediaDevices b
  && negb (rejects b 2) && hasVideoElement b.

(** X29.  The camera stream reaches the video element exactly when the resolver,
    the GPU landmarker and [getUserMedia] all succeed at the first attempt
    and the browser has media devices and the video element.  In neither
    revision is the camera started after an error, and the CPU fallback of
    GenerativeTree.tsx never comes with a camera. *)
Theorem camera_started_iff (b : Browser) :
  existsb is_camera (run (initVision b)) = clean b
  /\ existsb is_camera (run (initVision0 b)) = clean b
  /\ (existsb is_camera (run (initVision b)) = true ->
      existsb is_error (run (initVision b)) = false)
  /\ (existsb is_camera (run (initVision0 b)) = true ->
      existsb is_error (run (initVision0 b)) = false)
  /\ (existsb is_cpu (run (initVision b)) = true ->
      existsb is_camera (run (initVision b)) = false).
Proof.
  unfold clean.
  repeat split; run_vision b; cbn; intros; congruence.
Qed.

(** X30.  When the landmarker is ready but [getUserMedia] rejects (no camera
    permission), part_000 logs the error and stops, while
    GenerativeTree.tsx logs it and runs the whole CPU fallback, making a
    second landmarker and still no camera. *)
Theorem camera_denied_falls_back (b : Browser) :
  rejects b 0 = false -> rejects b 1 = false -> hasMediaDevices b = true ->
  rejects b 2 = true ->
  run (initVision0 b)
  = [ForVisionTasks; CreateFromOptions GPU 2; GetUserMedia;
     ConsoleError "Error initializing vision:"]
  /\ exists rest,
       run (initVision b)
       = [ForVisionTasks; CreateFromOptions GPU 1; GetUserMedia;
          ConsoleError "Error initializing vision:"; ForVisionTasks] ++ rest
       /\ (rejects b 3 = false -> rejects b 4 = false ->
           rest = [CreateFromOptions CPU 1;
                   ConsoleLog "Fallback to CPU delegate successful"]).
Proof.
  intros H0 H1 Hm H2. split.
  - run_vision b. reflexivity.
  - run_vision b; eexists; (split; [reflexivity|]); intros; congruence.
Qed.

Definition camera_denied : Browser :=
  {| rejects := fun n => Nat.eqb n 2; hasMediaDevices := true;
     hasVideoElement := true |}.

Lemma camera_denied_falls_back_witness :
  run (initVision0 camera_denied)
  = [ForVisionTasks; CreateFromOptions GPU 2; GetUserMedia;
     ConsoleError "Error initializing vision:"].
Proof.
  apply (camera_denied_falls_back camera_denied); reflexivity.
Defined.

End VisionExtra.
